(** * jiunbae/detector: the evaluation engine and the SSD model definition

    A shallow embedding of [evaluate.py] (IoU computation, the [Evaluator]
    metric accumulator, the evaluation driver [main]) and of
    [ssd/model.py]: mode switching and [detect], the control flow of
    [forward] over abstract tensor operations, and the construction of
    [SSD300] (backbone, extra layers, multibox head).

    Conventions.
    - numpy arrays are lists; a two-dimensional array is the list of its rows.
    - [uint32] counters are integers in [Z] with the wrap-around modulo 2^32
      written out at every in-place addition.
    - Floating point numbers are modelled by exact rationals; the special
      values a float division can produce (infinities, nan) are kept, so
      that [0/0] and [x/0] behave as they do in numpy.  Rounding and signed
      zeros are not modelled: where a theorem states the value of an IoU,
      it is restricted to inputs on which no operation rounds
      ([exact_int]).
    - A Python exception is the [Raise] case of the [result] type. *)

From Stdlib Require Import ZArith QArith Qminmax Lia Lqa String.
From stdpp Require Import base option list.

Local Open Scope Z_scope.

(** ** Exceptions *)

Inductive exn : Type :=
| ValueError
| IndexError
| TypeError
| UnboundLocalError
| Exception (msg : string).

Inductive result (A : Type) : Type :=
| Ok (a : A)
| Raise (e : exn).
Arguments Ok {A} a.
Arguments Raise {A} e.

Global Instance result_ret : MRet result := fun _ a => Ok a.
Global Instance result_bind : MBind result := fun _ _ f m =>
  match m with
  | Ok a => f a
  | Raise e => Raise e
  end.

(** A [for] loop whose body may raise: the state is threaded from left to
    right and the first exception ends the loop. *)
Fixpoint for_loop {S A : Type} (body : S -> A -> result S) (s : S) (l : list A)
  : result S :=
  match l with
  | [] => Ok s
  | x :: l' => s' ← body s x; for_loop body s' l'
  end.

Definition is_Ok {A} (r : result A) : Prop := exists a, r = Ok a.

(** ** ssd/model.py *)

Module Model.

(** *** SSD: mode switching and [detect]

    [torch.nn.Module] is the base class.  Its two methods used by [SSD] are
    (torch/nn/modules/module.py)
<<
      def train(self, mode=True):
          self.training = mode
          for module in self.children(): module.train(mode)
          return self
      def eval(self):
          return self.train(False)
>>
    [eval] calls [self.train], which is resolved on the class of [self]: for
    an [SSD] instance that is the overriding [SSD.train]. *)

Record Detector : Type := { det_num_classes : Z }.

Record SSD : Type := {
  num_classes : Z;
  detector : option Detector;
  training : bool
}.

Definition set_detector (d : option Detector) (self : SSD) : SSD :=
  {| num_classes := num_classes self; detector := d; training := training self |}.

Definition set_training (mode : bool) (self : SSD) : SSD :=
  {| num_classes := num_classes self; detector := detector self; training := mode |}.

(** The method table of the class of [self]: what [self.train] resolves to. *)
Class ModuleClass : Type := { self_train : bool -> SSD -> SSD }.

Definition Module_train (mode : bool) (self : SSD) : SSD := set_training mode self.

Definition Module_eval `{ModuleClass} (self : SSD) : SSD := self_train false self.

(** [SSD.__init__]: [self.detector = None]; a fresh [nn.Module] is in
    training mode. *)
Definition SSD_init (n : Z) : SSD :=
  {| num_classes := n; detector := None; training := true |}.

(** [SSD.train(self, mode=True)]: the decoder is dropped and
    [super().train()] is called without [mode]. *)
Definition SSD_train (mode : bool) (self : SSD) : SSD :=
  Module_train true (set_detector None self).

(** The class of a plain [nn.Module] and the class [SSD]. *)
Definition Module_class : ModuleClass := {| self_train := Module_train |}.

Global Instance SSD_class : ModuleClass := {| self_train := SSD_train |}.

(** [SSD.eval(self)]: builds the decoder, then [super().eval()]. *)
Definition SSD_eval (self : SSD) : SSD :=
  Module_eval (set_detector (Some {| det_num_classes := num_classes self |}) self).

Definition detect_message : string := "use detect after enable eval mode".

Section Detect.
(** The decoder and the softmax are outside the two source files: tensors
    are an abstract type and the two calls are total functions on it. *)
Context {tensor : Type}.
Variable Detector_call : Detector -> tensor -> tensor -> tensor -> tensor.
Variable softmax : tensor -> tensor.

Definition detect (self : SSD) (loc conf prior : tensor) : result tensor :=
  match detector self with
  | None => Raise (Exception detect_message)
  | Some d => Ok (Detector_call d loc (softmax conf) prior)
  end.
End Detect.

(** The calls a client can make on a model between construction and [detect]. *)
Inductive mode_call : Type := CallEval | CallTrain (mode : bool).

Definition run_call (self : SSD) (c : mode_call) : SSD :=
  match c with
  | CallEval => SSD_eval self
  | CallTrain mode => SSD_train mode self
  end.

Definition run_calls (self : SSD) (cs : list mode_call) : SSD :=
  fold_left run_call cs self.

(** *** SSD300: the generator of the extra layers *)

(** An entry of [EXTRAS]: a channel count or the literal ['S'].  The running
    [in_channels] takes the same values. *)
Inductive entry : Type := Ch (c : Z) | S_mark.

Definition is_S (e : entry) : bool :=
  match e with S_mark => true | Ch _ => false end.

Record Conv2d : Type := {
  in_channels : Z;
  out_channels : Z;
  kernel_size : Z;
  stride : Z;
  padding : Z
}.

Definition EXTRAS : list entry :=
  [Ch 256; S_mark; Ch 512; Ch 128; S_mark; Ch 256; Ch 128; Ch 256; Ch 128; Ch 256].

(** [iter(cycle((1, 3)))]: the state is the number of values drawn so far. *)
Definition kernel_next (drawn : nat) : Z * nat :=
  (if Nat.even drawn then 1 else 3, S drawn).

(** A channel argument of [nn.Conv2d] must be a number. *)
Definition channels (e : entry) : result Z :=
  match e with Ch c => Ok c | S_mark => Raise TypeError end.

(** One iteration of the loop of [SSD300.extra] at index [i] with entry
    [feature]: the layer it yields, if any, and the next kernel state.  The
    assignment [in_channels = feature] is done by the loop below. *)
Definition extra_body (extras : list entry) (i : nat) (feature in_ch : entry)
    (drawn : nat) : result (option Conv2d * nat) :=
  match in_ch with
  | S_mark => Ok (None, drawn)
  | Ch cin =>
      out ← (if is_S feature
             then match extras !! (i + 1)%nat with
                  | Some e => channels e
                  | None => Raise IndexError
                  end
             else channels feature);
      let '(k, drawn') := kernel_next drawn in
      Ok (Some {| in_channels := cin; out_channels := out; kernel_size := k;
                  stride := if is_S feature then 2 else 1;
                  padding := if is_S feature then 1 else 0 |}, drawn')
  end.

(** The loop over [enumerate(extras)], recording what each iteration yields. *)
Fixpoint extra_loop (extras : list entry) (i : nat) (rest : list entry)
    (in_ch : entry) (drawn : nat) : result (list (option Conv2d)) :=
  match rest with
  | [] => Ok []
  | feature :: rest' =>
      '(y, drawn') ← extra_body extras i feature in_ch drawn;
      ys ← extra_loop extras (S i) rest' feature drawn';
      Ok (y :: ys)
  end.

Definition extra_yields (in_channels : Z) : result (list (option Conv2d)) :=
  extra_loop EXTRAS 0 EXTRAS (Ch in_channels) 0.

(** [list(cls.extra(in_channels))]: the layers in the order they are yielded. *)
Definition extra (in_channels : Z) : result (list Conv2d) :=
  match extra_yields in_channels with
  | Ok ys => Ok (omap id ys)
  | Raise e => Raise e
  end.

Definition conv (cin cout k s p : Z) : Conv2d :=
  {| in_channels := cin; out_channels := cout; kernel_size := k;
     stride := s; padding := p |}.

(** *** SSD300: the backbone and the multibox head *)

(** The modules of the backbone: the layers of [vgg16().features] and the
    five layers that [SSD300.__init__] adds.  Only a convolution has
    [in_channels] and [out_channels]. *)
Inductive layer : Type :=
| Conv (c : Conv2d) (dilation : Z)
| ReLU
| MaxPool2d (k s p : Z).

(** What building a model can raise: [AttributeError] for
    [layer.out_channels] on a module that is no convolution, or one of the
    exceptions above. *)
Inductive init_error : Type :=
| AttributeError
| Other (e : exn).

Definition BOXES : list Z := [4; 6; 6; 6; 4; 4].

(** [l[start::step]] for a positive [step]. *)
Definition slice_step {A} (start step : nat) (l : list A) : list A :=
  omap (fun j => l !! (start + j * step)%nat) (seq 0 (length l)).

(** [gen] of [SSD300.head]: the [loc] and the [conf] convolution for one
    source layer and its number of boxes. *)
Definition gen (num_classes : Z) (count_layer : Z * layer)
  : init_error + Conv2d * Conv2d :=
  let '(count, l) := count_layer in
  match l with
  | Conv c _ =>
      inr (conv (out_channels c) (count * 4) 3 1 1,
           conv (out_channels c) (count * num_classes) 3 1 1)
  | _ => inl AttributeError
  end.

(** [map(gen, ...)], consumed from left to right. *)
Fixpoint gen_all (num_classes : Z) (l : list (Z * layer))
  : init_error + list (Conv2d * Conv2d) :=
  match l with
  | [] => inr []
  | x :: l' =>
      match gen num_classes x with
      | inl e => inl e
      | inr p =>
          match gen_all num_classes l' with
          | inl e => inl e
          | inr ps => inr (p :: ps)
          end
      end
  end.

(** The source layers of the head: [list(backbone[21::12]) + extras[1::2]]. *)
Definition head_sources (backbone : list layer) (extras : list Conv2d)
  : list layer :=
  slice_step 21 12 backbone ++ map (fun c => Conv c 1) (slice_step 1 2 extras).

(** [SSD300.head]: the pairs are transposed by [zip] with a starred
    argument, which gives the empty tuple for no pair, and the tuple of the
    [loc] layers and of the [conf] layers otherwise. *)
Definition head (backbone : list layer) (extras : list Conv2d) (num_classes : Z)
  : init_error + list (list Conv2d) :=
  match gen_all num_classes (zip BOXES (head_sources backbone extras)) with
  | inl e => inl e
  | inr [] => inr []
  | inr pairs => inr [map fst pairs; map snd pairs]
  end.

(** [seq.add_module(str(i), m)] on a [Sequential] whose modules are named by
    their positions: an existing name is replaced in place, a new one is
    appended. *)
Definition add_module {A} (i : nat) (m : A) (modules : list A) : list A :=
  if (i <? length modules)%nat then <[i := m]> modules else modules ++ [m].

Definition SSD300_added : list layer :=
  [MaxPool2d 3 1 1; Conv (conv 512 1024 3 1 6) 6; ReLU;
   Conv (conv 1024 1024 1 1 0) 1; ReLU].

(** Lines 144-153: [vgg16().features[:-1]] and the five added modules. *)
Definition SSD300_backbone (vgg_features : list layer) : list layer :=
  fold_left (fun backbone '(i, l) => add_module i l backbone)
            (zip (seq 30 (length SSD300_added)) SSD300_added)
            (removelast vgg_features).

Section Forward.
(** Tensors and the tensor operations are outside the source file: an
    abstract type and total functions on it. *)
Context {tensor : Type}.
Variable layer_call : layer -> tensor -> tensor.
Variable conv_call : Conv2d -> tensor -> tensor.
Variable L2Norm : tensor -> tensor.
Variable relu : tensor -> tensor.
(** [source.permute(0, 2, 3, 1).contiguous()] *)
Variable refine : tensor -> tensor.
(** [torch.cat(tuple(map(lambda x: x.view(x.size(0), -1), tensor)), 1)] *)
Variable reshape : list tensor -> tensor.
(** [t.view(t.size(0), -1, k)] *)
Variable view : Z -> tensor -> tensor.
(** [self.priors.to(x.device)] *)
Variable to_device : tensor -> tensor -> tensor.
Variable Detector_call : Detector -> tensor -> tensor -> tensor -> tensor.
Variable softmax : tensor -> tensor.

(** The fields that [SSD.__init__] sets, beside the mode state [core]. *)
Record Net : Type := {
  core : SSD;
  features : list layer;
  extras : list Conv2d;
  loc : list Conv2d;
  conf : list Conv2d;
  priors : tensor
}.

Definition SSD_net_init (backbone : list layer) (extras loc conf : list Conv2d)
    (num_classes : Z) (priors : tensor) : Net :=
  {| core := SSD_init num_classes; features := backbone; extras := extras;
     loc := loc; conf := conf; priors := priors |}.

(** [SSD300.__init__], for the layers of [vgg16().features] and the priors
    of the prior-box layer. *)
Definition SSD300_init (vgg_features : list layer) (num_classes : Z)
    (priors : tensor) : init_error + Net :=
  let backbone := SSD300_backbone vgg_features in
  if (length backbone <? 2)%nat then inl (Other IndexError)
  else
    match backbone !! (length backbone - 2)%nat with
    | Some (Conv c _) =>
        match extra (in_channels c) with
        | Raise e => inl (Other e)
        | Ok extras =>
            match head backbone extras num_classes with
            | inl e => inl e
            | inr [loc; conf] =>
                inr (SSD_net_init backbone extras loc conf num_classes priors)
            | inr _ => inl (Other ValueError)
            end
        end
    | Some _ => inl AttributeError
    | None => inl (Other IndexError)
    end.

(** [reduce(f, [x, *layers])] *)
Definition apply_layers (layers : list layer) (x : tensor) : tensor :=
  fold_left (fun param l => layer_call l param) layers x.

(** The loop over [enumerate(self.extras)], lines 96-99: the state is [x]
    and the list [sources]. *)
Definition extras_step (st : tensor * list tensor) (il : nat * Conv2d)
  : tensor * list tensor :=
  let '(x, sources) := st in
  let '(i, l) := il in
  let x := relu (conv_call l x) in
  (x, if (i mod 2 =? 1)%nat then sources ++ [x] else sources).

(** Lines 88-99: the last [x] and the list [sources]. *)
Definition forward_sources (self : Net) (x : tensor) : tensor * list tensor :=
  let x := apply_layers (take 23 (features self)) x in
  let sources := [L2Norm x] in
  let x := apply_layers (drop 23 (features self)) x in
  let sources := sources ++ [x] in
  fold_left extras_step (zip (seq 0 (length (extras self))) (extras self))
            (x, sources).

(** [x] after the extra layers [ls], each followed by [F.relu]. *)
Definition apply_extras (ls : list Conv2d) (x : tensor) : tensor :=
  fold_left (fun param l => relu (conv_call l param)) ls x.

(** What [forward] returns: the triple of the training phase or the value
    of [detect]. *)
Inductive output : Type :=
| Raw (loc conf priors : tensor)
| Detections (t : tensor).

(** [SSD.forward] *)
Definition forward (self : Net) (x : tensor) : result output :=
  let '(x, sources) := forward_sources self x in
  let heads :=
    map (fun '(source, (l, c)) =>
           (refine (conv_call l source), refine (conv_call c source)))
        (zip sources (zip (loc self) (conf self))) in
  match heads with
  | [] => Raise ValueError (* [loc, conf = map(reshape, zip())] *)
  | _ =>
      let loc_t := reshape (map fst heads) in
      let conf_t := reshape (map snd heads) in
      let o_loc := view 4 loc_t in
      let o_conf := view (num_classes (core self)) conf_t in
      let o_priors := to_device (priors self) x in
      if negb (training (core self))
      then t ← detect Detector_call softmax (core self) o_loc o_conf o_priors;
           Ok (Detections t)
      else Ok (Raw o_loc o_conf o_priors)
  end.
End Forward.

(** The layers of [torchvision.models.vgg16().features], for examples. *)
Definition vgg16_features : list layer :=
  [Conv (conv 3 64 3 1 1) 1; ReLU; Conv (conv 64 64 3 1 1) 1; ReLU;
   MaxPool2d 2 2 0;
   Conv (conv 64 128 3 1 1) 1; ReLU; Conv (conv 128 128 3 1 1) 1; ReLU;
   MaxPool2d 2 2 0;
   Conv (conv 128 256 3 1 1) 1; ReLU; Conv (conv 256 256 3 1 1) 1; ReLU;
   Conv (conv 256 256 3 1 1) 1; ReLU;
   MaxPool2d 2 2 0;
   Conv (conv 256 512 3 1 1) 1; ReLU; Conv (conv 512 512 3 1 1) 1; ReLU;
   Conv (conv 512 512 3 1 1) 1; ReLU;
   MaxPool2d 2 2 0;
   Conv (conv 512 512 3 1 1) 1; ReLU; Conv (conv 512 512 3 1 1) 1; ReLU;
   Conv (conv 512 512 3 1 1) 1; ReLU;
   MaxPool2d 2 2 0].

(** Consecutive layers fit: each layer takes the channels that the layer
    before it produces, the first one [cin]. *)
Fixpoint chained (cin : Z) (ls : list Conv2d) : Prop :=
  match ls with
  | [] => True
  | l :: ls' => in_channels l = cin /\ chained (out_channels l) ls'
  end.

(** The next [n] values of [cycle((1, 3))] after [drawn] draws. *)
Definition kernel_cycle (drawn n : nat) : list Z :=
  map (fun j => if Nat.even (drawn + j) then 1 else 3) (seq 0 n).

(** The input channels of the next layer the generator yields: the running
    [in_channels], or the entry that follows an ['S']. *)
Definition expected_channels (in_ch : entry) (rest : list entry) : option Z :=
  match in_ch, rest with
  | Ch c, _ => Some c
  | S_mark, Ch c :: _ => Some c
  | S_mark, _ => None
  end.

(** Every ['S'] is followed by a channel count. *)
Definition well_marked (extras : list entry) : Prop :=
  forall i, extras !! i = Some S_mark ->
    exists c, extras !! S i = Some (Ch c).

(** A small model after [eval()], with tensors read as channel counts, for
    examples. *)
Definition example_net : @Net Z :=
  {| core := SSD_eval (SSD_init 21); features := []; extras := [];
     loc := [conv 3 16 3 1 1]; conf := [conv 3 84 3 1 1]; priors := 0 |}.

End Model.

(** ** evaluate.py *)

Module Evaluate.

(** *** Floating point values *)

Inductive fval : Type := FNum (q : Q) | PInf | NInf | NaN.

(** Float division of two finite numbers: [x/0] is an infinity of the sign
    of [x] and [0/0] is nan (numpy warns and does not raise). *)
Definition fdiv (x y : Q) : fval :=
  if Qeq_bool y 0 then
    match (x ?= 0)%Q with
    | Eq => NaN
    | Gt => PInf
    | Lt => NInf
    end
  else FNum (x / y).

Definition fneg (x : fval) : fval :=
  match x with
  | FNum q => FNum (- q)
  | PInf => NInf
  | NInf => PInf
  | NaN => NaN
  end.

Definition fadd (x y : fval) : fval :=
  match x, y with
  | NaN, _ | _, NaN => NaN
  | PInf, NInf | NInf, PInf => NaN
  | PInf, _ | _, PInf => PInf
  | NInf, _ | _, NInf => NInf
  | FNum a, FNum b => FNum (a + b)
  end.

Definition fsub (x y : fval) : fval := fadd x (fneg y).

Definition finf_of_sign (c : comparison) : fval :=
  match c with Eq => NaN | Gt => PInf | Lt => NInf end.

Definition fmul (x y : fval) : fval :=
  match x, y with
  | NaN, _ | _, NaN => NaN
  | FNum a, FNum b => FNum (a * b)
  | PInf, FNum b | FNum b, PInf => finf_of_sign (b ?= 0)%Q
  | NInf, FNum b | FNum b, NInf => finf_of_sign (0 ?= b)%Q
  | PInf, PInf | NInf, NInf => PInf
  | PInf, NInf | NInf, PInf => NInf
  end.

(** [v >= t] for a finite [t]; a comparison with nan is false. *)
Definition fge (v : fval) (t : Q) : bool :=
  match v with
  | FNum q => Qle_bool t q
  | PInf => true
  | NInf => false
  | NaN => false
  end.

(** The largest finite double, which [np.nan_to_num] puts for an infinity. *)
Definition DBL_MAX : Q := inject_Z ((2 ^ 53 - 1) * 2 ^ 971).

Definition nan_to_num (v : fval) : Q :=
  match v with
  | FNum q => q
  | PInf => DBL_MAX
  | NInf => - DBL_MAX
  | NaN => 0
  end.

(** Equality of float values, up to the representation of a rational. *)
Definition feq (x y : fval) : Prop :=
  match x, y with
  | FNum a, FNum b => (a == b)%Q
  | PInf, PInf | NInf, NInf | NaN, NaN => True
  | _, _ => False
  end.

(** *** Boxes and IoU *)

(** A row of a box array: columns 0..3. *)
Record Box : Type := { c0 : Q; c1 : Q; c2 : Q; c3 : Q }.

Definition box (a b c d : Q) : Box := {| c0 := a; c1 := b; c2 := c; c3 := d |}.

(** [compute_iou(box, boxes, box_area, boxes_area)], one vector operation per
    source line.  In the one call site [boxes_area] is the area vector of
    [boxes], so the element-wise operations meet vectors of equal length. *)
Definition compute_iou (bx : Box) (boxes : list Box) (box_area : Q)
    (boxes_area : list Q) : list fval :=
  let y1 := map (fun b => Qmax (c0 bx) (c0 b)) boxes in
  let y2 := map (fun b => Qmin (c2 bx) (c2 b)) boxes in
  let x1 := map (fun b => Qmax (c1 bx) (c1 b)) boxes in
  let x2 := map (fun b => Qmin (c3 bx) (c3 b)) boxes in
  let intersection :=
    zip_with Qmult (map (fun d => Qmax d 0) (zip_with Qminus x2 x1))
                   (map (fun d => Qmax d 0) (zip_with Qminus y2 y1)) in
  let union := zip_with Qminus (map (Qplus box_area) boxes_area) intersection in
  zip_with fdiv intersection union.

(** [(boxes[:, 2] - boxes[:, 0]) * (boxes[:, 3] - boxes[:, 1])] *)
Definition areas (boxes : list Box) : list Q :=
  zip_with Qmult (zip_with Qminus (map c2 boxes) (map c0 boxes))
                 (zip_with Qminus (map c3 boxes) (map c1 boxes)).

(** [overlaps[:, i] = col] *)
Definition set_column {A} (m : list (list A)) (i : nat) (col : list A)
  : list (list A) :=
  zip_with (fun row v => <[i := v]> row) m col.

Definition compute_overlaps (boxes1 boxes2 : list Box) : list (list fval) :=
  let area1 := areas boxes1 in
  let area2 := areas boxes2 in
  let overlaps := replicate (length boxes1) (replicate (length boxes2) (FNum 0)) in
  fold_left
    (fun overlaps i =>
       match boxes2 !! i, area2 !! i with
       | Some b, Some a => set_column overlaps i (compute_iou b boxes1 a area1)
       | _, _ => overlaps
       end)
    (seq 0 (length boxes2)) overlaps.

(** *** numpy helpers *)

(** [np.sum] of a boolean vector. *)
Fixpoint np_sum (m : list bool) : Z :=
  match m with
  | [] => 0
  | b :: m' => (if b then 1 else 0) + np_sum m'
  end.

(** [ids == klass] *)
Definition eq_mask (ids : list Z) (klass : nat) : list bool :=
  map (fun c => c =? Z.of_nat klass) ids.

(** [scores >= patch] *)
Definition ge_mask (scores : list Q) (patch : Q) : list bool :=
  map (fun s => Qle_bool patch s) scores.

(** [np.logical_and] of two vectors, with numpy's broadcasting: equal
    lengths, or one operand of length one; any other pair of shapes raises. *)
Definition logical_and (a b : list bool) : result (list bool) :=
  if (length a =? length b)%nat then Ok (zip_with andb a b)
  else match a, b with
       | [x], _ => Ok (map (andb x) b)
       | _, [y] => Ok (map (fun x => x && y) a)
       | _, _ => Raise ValueError
       end.

Fixpoint mask_filter {A} (mask : list bool) (l : list A) : list A :=
  match mask, l with
  | b :: mask', x :: l' => if b then x :: mask_filter mask' l' else mask_filter mask' l'
  | _, _ => []
  end.

(** [l[mask]] for a boolean [mask]: the shapes must agree. *)
Definition select {A} (mask : list bool) (l : list A) : result (list A) :=
  if (length mask =? length l)%nat then Ok (mask_filter mask l)
  else Raise IndexError.

(** [m[:, mask]] *)
Fixpoint select_cols {A} (mask : list bool) (m : list (list A))
  : result (list (list A)) :=
  match m with
  | [] => Ok []
  | row :: m' =>
      row' ← select mask row; m'' ← select_cols mask m'; Ok (row' :: m'')
  end.

(** [m.any(axis=0)] for a matrix with [ncols] columns. *)
Definition any_axis0 (ncols : nat) (m : list (list bool)) : list bool :=
  foldr (zip_with orb) (replicate ncols false) m.

(** [argmax] of a boolean vector: the first index holding the maximum. *)
Fixpoint argmax_from (best_i : nat) (best : bool) (i : nat) (l : list bool) : nat :=
  match l with
  | [] => best_i
  | x :: l' =>
      if negb best && x then argmax_from i x (S i) l'
      else argmax_from best_i best (S i) l'
  end.

Definition argmax (l : list bool) : result nat :=
  match l with
  | [] => Raise ValueError
  | x :: l' => Ok (argmax_from 0 x 1 l')
  end.

Fixpoint argmax_rows (m : list (list bool)) : result (list nat) :=
  match m with
  | [] => Ok []
  | row :: m' => a ← argmax row; as' ← argmax_rows m'; Ok (a :: as')
  end.

Definition bool_to_Q (b : bool) : Q := if b then 1%Q else 0%Q.

(** *** Evaluator *)

Definition wrap32 (z : Z) : Z := z mod 2 ^ 32.

Record Evaluator : Type := {
  n_class : nat;
  patch : list Q;
  threshold : Q;
  TP : list (list Z);
  FP : list (list Z);
  FN : list (list Z);
  gt_counts : list Z;
  pd_counts : list Z
}.

(** [np.linspace(0, 1, num)] *)
Definition linspace01 (num : nat) : list Q :=
  match num with
  | O => []
  | 1%nat => [0%Q]
  | _ => map (fun i => (Z.of_nat i # Pos.of_nat (num - 1))%Q) (seq 0 num)
  end.

Definition Evaluator_init (n_class sample_patch : nat) (threshold : Q) : Evaluator :=
  {| n_class := n_class;
     patch := linspace01 sample_patch;
     threshold := threshold;
     TP := replicate sample_patch (replicate n_class 0);
     FP := replicate sample_patch (replicate n_class 0);
     FN := replicate sample_patch (replicate n_class 0);
     gt_counts := replicate n_class 0;
     pd_counts := replicate n_class 0 |}.

(** [Evaluator(n_class)] with the default arguments. *)
Definition Evaluator_default (n_class : nat) : Evaluator :=
  Evaluator_init n_class 11 (1 # 2).

(** [Evaluator.compute_iou(tar_boxes, src_boxes, threshold)] *)
Definition Evaluator_compute_iou (tar_boxes src_boxes : list Box) (threshold : Q)
  : result (list (list bool)) :=
  let iou := map (map (fun v => fge v threshold)) (compute_overlaps tar_boxes src_boxes) in
  (* argmax along an axis of length zero raises, whatever the other axis *)
  argm ← (if (length src_boxes =? 0)%nat then Raise ValueError else argmax_rows iou);
  let outputs := map (map (fun _ => false)) iou in
  let outputs :=
    zip_with (fun '(orow, row) a =>
                match row !! a with
                | Some v => <[a := v]> orow
                | None => orow
                end)
             (zip outputs iou) argm in
  Ok (map (map (fun b : bool => Qle_bool threshold (bool_to_Q b))) outputs).

(** The arrays of one frame; the masks are never read. *)
Record Predictions : Type := {
  pd_class_ids : list Z;
  pd_scores : option (list Q);
  pd_bboxes : list Box
}.

Record Groundtruths : Type := {
  gt_class_ids : list Z;
  gt_bboxes : list Box
}.

(** [a[i] += d] on a [uint32] vector. *)
Definition iadd (l : list Z) (i : nat) (d : Z) : result (list Z) :=
  match l !! i with
  | Some _ => Ok (alter (fun v => wrap32 (v + d)) i l)
  | None => Raise IndexError
  end.

(** [a[p][k] += d] on a [uint32] matrix. *)
Definition iadd2 (m : list (list Z)) (p k : nat) (d : Z) : result (list (list Z)) :=
  match m !! p with
  | Some row => row' ← iadd row k d; Ok (<[p := row']> m)
  | None => Raise IndexError
  end.

Definition set_counts (g p : list Z) (self : Evaluator) : Evaluator :=
  {| n_class := n_class self; patch := patch self; threshold := threshold self;
     TP := TP self; FP := FP self; FN := FN self;
     gt_counts := g; pd_counts := p |}.

Definition set_cells (tp fp fn : list (list Z)) (self : Evaluator) : Evaluator :=
  {| n_class := n_class self; patch := patch self; threshold := threshold self;
     TP := tp; FP := fp; FN := fn;
     gt_counts := gt_counts self; pd_counts := pd_counts self |}.

Definition enumerate {A} (l : list A) : list (nat * A) := zip (seq 0 (length l)) l.

Section Update.
Variable pd_ids : list Z.
Variable scores : list Q.
Variable gt_ids : list Z.
(** [iou] is bound only when there is a predicted box. *)
Variable iou : option (list (list bool)).

(** The body of the loop over the thresholds, lines 67-78. *)
Definition update_patch (klass : nat) (gt_number : Z) (self : Evaluator)
    (pp : nat * Q) : result Evaluator :=
  let '(p, patch) := pp in
  pd_mask ← logical_and (eq_mask pd_ids klass) (ge_mask scores patch);
  let pd_number := np_sum pd_mask in
  if pd_number =? 0 then
    fn ← iadd2 (FN self) p klass gt_number;
    Ok (set_cells (TP self) (FP self) fn self)
  else
    m ← match iou with Some m => Ok m | None => Raise UnboundLocalError end;
    rows ← select pd_mask m;
    let gt_mask := eq_mask gt_ids klass in
    sub ← select_cols gt_mask rows;
    let true_positive :=
      np_sum (any_axis0 (length (mask_filter gt_mask gt_mask)) sub) in
    tp ← iadd2 (TP self) p klass true_positive;
    fp ← iadd2 (FP self) p klass (pd_number - true_positive);
    fn ← iadd2 (FN self) p klass (gt_number - true_positive);
    Ok (set_cells tp fp fn self).

(** The body of the loop over the classes, lines 61-78. *)
Definition update_class (self : Evaluator) (klass : nat) : result Evaluator :=
  let gt_number := np_sum (eq_mask gt_ids klass) in
  g ← iadd (gt_counts self) klass gt_number;
  c ← iadd (pd_counts self) klass (np_sum (eq_mask pd_ids klass));
  let self := set_counts g c self in
  for_loop (update_patch klass gt_number) self (enumerate (patch self)).
End Update.

(** [Evaluator.update(predictions, groundtruths)] *)
Definition update (self : Evaluator) (pd : Predictions) (gt : Groundtruths)
  : result Evaluator :=
  let scores :=
    match pd_scores pd with
    | None => map (fun _ => 1%Q) (pd_class_ids pd)
    | Some s => s
    end in
  iou ← (if (0 <? length (pd_bboxes pd))%nat
         then m ← Evaluator_compute_iou (pd_bboxes pd) (gt_bboxes gt) (threshold self);
              Ok (Some m)
         else Ok None);
  for_loop (update_class (pd_class_ids pd) scores (gt_class_ids gt) iou)
           self (seq 0 (n_class self)).

(** A sequence of [update] calls, one per frame, stopped by the first
    exception. *)
Definition run (self : Evaluator) (frames : list (Predictions * Groundtruths))
  : result Evaluator :=
  for_loop (fun ev '(pd, gt) => update ev pd gt) self frames.

(** Element-wise operation on two matrices of one shape. *)
Definition mat_zip {A B C} (f : A -> B -> C) : list (list A) -> list (list B) -> list (list C) :=
  zip_with (zip_with f).

(** [uint32 / uint32], a float. *)
Definition ratio (a b : Z) : fval := fdiv (inject_Z a) (inject_Z b).

(** [uint32 + uint32], a [uint32]. *)
Definition add32 (a b : Z) : Z := wrap32 (a + b).

Definition sum_axis0 (ncols : nat) (m : list (list Q)) : list Q :=
  foldr (zip_with Qplus) (replicate ncols 0%Q) m.

(** [m.mean(axis=0)]: the mean over an axis of length zero is [0/0]. *)
Definition mean_axis0 (ncols : nat) (m : list (list Q)) : list fval :=
  map (fun s => fdiv s (inject_Z (Z.of_nat (length m)))) (sum_axis0 ncols m).

(** [np.nan_to_num(self.TP / (self.TP + self.FP)).mean(axis=0)] *)
Definition precision (self : Evaluator) : list fval :=
  mean_axis0 (n_class self)
    (map (map nan_to_num) (mat_zip ratio (TP self) (mat_zip add32 (TP self) (FP self)))).

(** [np.nan_to_num(self.TP / (self.TP + self.FN)).mean(axis=0)] *)
Definition recall (self : Evaluator) : list fval :=
  mean_axis0 (n_class self)
    (map (map nan_to_num) (mat_zip ratio (TP self) (mat_zip add32 (TP self) (FN self)))).

(** A float scalar or a one-dimensional float array: [prev_recall] is an
    array before the loop of [mAP] and a scalar after its first iteration. *)
Inductive ndarray : Type := Scalar (x : fval) | Array (l : list fval).

(** [x - prev] for a scalar [x]. *)
Definition scalar_sub (x : fval) (prev : ndarray) : ndarray :=
  match prev with
  | Scalar y => Scalar (fsub x y)
  | Array l => Array (map (fsub x) l)
  end.

(** [x * v] for a scalar [x]. *)
Definition scalar_mul (x : fval) (v : ndarray) : ndarray :=
  match v with
  | Scalar y => Scalar (fmul x y)
  | Array l => Array (map (fmul x) l)
  end.

(** [ap += v] for the array [ap]. *)
Definition array_iadd (ap : list fval) (v : ndarray) : list fval :=
  match v with
  | Scalar y => map (fun a => fadd a y) ap
  | Array l => zip_with fadd ap l
  end.

(** The body of the loop of [mAP], lines 105-106; the state is
    [(ap, prev_recall)]. *)
Definition mAP_step (st : list fval * ndarray) (pr : fval * fval)
  : list fval * ndarray :=
  let '(ap, prev_recall) := st in
  let '(precision, recall) := pr in
  (array_iadd ap (scalar_mul precision (scalar_sub recall prev_recall)),
   Scalar recall).

(** [Evaluator.mAP]: the loop runs over [zip(self.precision[::-1],
    self.recall[::-1])], two vectors with one entry per class. *)
Definition mAP (self : Evaluator) : list fval :=
  let zeros := replicate (n_class self) (FNum 0) in
  fst (fold_left mAP_step
         (zip (reverse (precision self)) (reverse (recall self)))
         (zeros, Array zeros)).

Definition dump (self : Evaluator) : list fval * list fval * list fval :=
  (mAP self, precision self, recall self).

(** *** The driver [main] *)

(** One row of a detection file: columns 1 (class id), 2 (score) and 3..6
    (box). *)
Record Detection : Type := { det_class : Z; det_score : Q; det_box : Box }.

(** [np.mean] of a list of floats. *)
Definition fmean (l : list fval) : fval :=
  match foldr fadd (FNum 0) l with
  | FNum s => fdiv s (inject_Z (Z.of_nat (length l)))
  | v => v
  end.

Section Main.
(** [results]: the sorted [*.txt] files of [--dest]; [None] stands for a
    file that [pd.read_csv] fails on.  [testset]: the dataset, whose
    [pull_anno(index)] gives the boxes and the labels of a frame. *)
Variable results : list (option (list Detection)).
Variable testset : list (list Box * list Z).

(** The body of the loop over the frames, lines 129-148. *)
Definition main_frame (evaluator : Evaluator) (index : nat) : result Evaluator :=
  match results !! index with
  | Some (Some detection) =>
      match testset !! index with
      | Some (boxes, labels) =>
          if (length boxes =? 0)%nat then Ok evaluator
          else
            update evaluator
              {| pd_class_ids := map det_class detection;
                 pd_scores := Some (map det_score detection);
                 pd_bboxes := map det_box detection |}
              {| gt_class_ids := map (fun _ => 1) boxes;
                 gt_bboxes := boxes |}
      | None => Raise IndexError
      end
  | _ => Ok evaluator (* [except: continue] *)
  end.

(** The loop over the classes, lines 150-166. *)
Definition report_class (evaluator : Evaluator)
    (acc : list fval * list fval * list fval * Z * Z)
    (row : nat * (fval * (fval * fval)))
  : result (list fval * list fval * list fval * Z * Z) :=
  let '(aps, precisions, recalls, gt_total, pd_total) := acc in
  let '(klass, (ap, (precision, recall))) := row in
  if (klass =? 0)%nat then Ok acc
  else
    match gt_counts evaluator !! klass, pd_counts evaluator !! klass with
    | Some g, Some c =>
        Ok (aps ++ [ap], precisions ++ [precision], recalls ++ [recall],
            gt_total + g, pd_total + c)
    | _, _ => Raise IndexError
    end.

Definition main : result (fval * fval * fval * Z * Z) :=
  evaluator ← for_loop main_frame (Evaluator_default 2) (seq 0 (length testset));
  let '(aps, precisions, recalls) := dump evaluator in
  '(aps, precisions, recalls, gt_total, pd_total) ←
    for_loop (report_class evaluator) ([], [], [], 0, 0)
             (enumerate (zip aps (zip precisions recalls)));
  Ok (fmean aps, fmean precisions, fmean recalls, gt_total, pd_total).
End Main.

(** The fourth component of the value of [main]. *)
Definition reported_gt_total (r : fval * fval * fval * Z * Z) : Z :=
  let '(_, _, _, g, _) := r in g.

(** *** Shapes and accessors *)

(** Shapes as [__init__] sets them. *)
Record wf_ev (ev : Evaluator) : Prop := {
  wf_TP : length (TP ev) = length (patch ev);
  wf_FP : length (FP ev) = length (patch ev);
  wf_FN : length (FN ev) = length (patch ev);
  wf_TP_rows : Forall (fun r => length r = n_class ev) (TP ev);
  wf_FP_rows : Forall (fun r => length r = n_class ev) (FP ev);
  wf_FN_rows : Forall (fun r => length r = n_class ev) (FN ev);
  wf_gt_counts : length (gt_counts ev) = n_class ev;
  wf_pd_counts : length (pd_counts ev) = n_class ev
}.

(** The score vector [update] works with. *)
Definition frame_scores (pd : Predictions) : list Q :=
  match pd_scores pd with
  | None => map (fun _ => 1%Q) (pd_class_ids pd)
  | Some s => s
  end.

(** A frame whose arrays have consistent lengths. *)
Record wf_frame (pd : Predictions) (gt : Groundtruths) : Prop := {
  wf_pd_boxes : length (pd_bboxes pd) = length (pd_class_ids pd);
  wf_pd_scores : length (frame_scores pd) = length (pd_class_ids pd);
  wf_gt_boxes : length (gt_bboxes gt) = length (gt_class_ids gt)
}.

Definition shape (P C : nat) (m : list (list Z)) : Prop :=
  length m = P /\ Forall (fun r => length r = C) m.

(** The part of an evaluator that [update] never changes, and the shapes. *)
Record same_frame (ev ev' : Evaluator) : Prop := {
  sf_n_class : n_class ev' = n_class ev;
  sf_patch : patch ev' = patch ev;
  sf_threshold : threshold ev' = threshold ev;
  sf_wf : wf_ev ev -> wf_ev ev'
}.

(** Entry [(p, k)] of a counter matrix and entry [k] of a counter vector. *)
Definition cell (m : list (list Z)) (p k : nat) : Z :=
  default 0 (row ← m !! p; row !! k).

Definition entry (l : list Z) (k : nat) : Z := default 0 (l !! k).

(** The three counters of threshold [p] and class [k]. *)
Definition cells (ev : Evaluator) (p k : nat) : Z * Z * Z :=
  (cell (TP ev) p k, cell (FP ev) p k, cell (FN ev) p k).

(** *** The match matrix, step by step *)

(** IoU of one pair of boxes: intersection over union, the intersection
    height and width clamped at zero. *)
Definition box_area (b : Box) : Q := (c2 b - c0 b) * (c3 b - c1 b).

Definition box_intersection (a b : Box) : Q :=
  Qmax (Qmin (c3 a) (c3 b) - Qmax (c1 a) (c1 b)) 0
  * Qmax (Qmin (c2 a) (c2 b) - Qmax (c0 a) (c0 b)) 0.

Definition box_iou (a b : Box) : fval :=
  fdiv (box_intersection a b) (box_area a + box_area b - box_intersection a b).

(** The full pairwise IoU matrix: a row per predicted box. *)
Definition pairwise_iou (tar src : list Box) : list (list fval) :=
  map (fun t => map (fun s => box_iou s t) src) tar.

(** [j] is the argmax of [row]: no entry is larger and no earlier entry is
    as large.  On booleans: [row !! j] is the first [true], or [j = 0] when
    there is none. *)
Definition first_max (row : list bool) (j : nat) : bool :=
  forallb (fun x => implb x (default false (row !! j))) row
  && forallb (fun x => negb (eqb x (default false (row !! j)))) (take j row).

(** Keep the entry at the argmax of a row and put zero elsewhere. *)
Definition keep_argmax (row : list bool) : list bool :=
  imap (fun j x => x && first_max row j) row.

(** The match matrix as the specification words it: the full pairwise IoU
    matrix is thresholded at [>= t], each row keeps only its entry at the
    argmax, and the result is thresholded again. *)
Definition compute_iou_spec (tar src : list Box) (t : Q) : list (list bool) :=
  let thresholded := map (map (fun v => fge v t)) (pairwise_iou tar src) in
  let kept := map keep_argmax thresholded in
  map (map (fun b : bool => Qle_bool t (bool_to_Q b))) kept.

(** The index of the first [true]. *)
Fixpoint find_true (l : list bool) : option nat :=
  match l with
  | [] => None
  | x :: l' => if x then Some 0%nat else S <$> find_true l'
  end.

(** What lines 85-86 leave in one row of [outputs]. *)
Definition scatter_row (row : list bool) (a : nat) : list bool :=
  match row !! a with
  | Some v => <[a := v]> (map (fun _ => false) row)
  | None => map (fun _ => false) row
  end.

(** Two boxes with no spatial overlap: one lies entirely on one side of the
    other along an axis (touching edges included). *)
Definition disjoint (a b : Box) : Prop :=
  (c3 a <= c1 b \/ c3 b <= c1 a \/ c2 a <= c0 b \/ c2 b <= c0 a)%Q.

(** The matrix [iou] of a frame, when [update] computes it. *)
Definition frame_iou (self : Evaluator) (pd : Predictions) (gt : Groundtruths)
  : list (list bool) :=
  match Evaluator_compute_iou (pd_bboxes pd) (gt_bboxes gt) (threshold self) with
  | Ok m => m
  | Raise _ => []
  end.

(** [iou] as [update] binds it for a frame. *)
Definition frame_iou_binding (self : Evaluator) (pd : Predictions)
    (gt : Groundtruths) : option (list (list bool)) :=
  if (0 <? length (pd_bboxes pd))%nat then Some (frame_iou self pd gt) else None.

(** [iou] is unbound only without predictions, and has a row per prediction
    and a column per ground truth. *)
Definition iou_shape (iou : option (list (list bool))) (npd ngt : nat) : Prop :=
  match iou with
  | None => npd = 0%nat
  | Some m => length m = npd /\ Forall (fun r => length r = ngt) m
  end.

(** *** Counts per prediction and per ground truth *)

(** The number of indices below [n] at which [f] holds. *)
Definition count_upto (n : nat) (f : nat -> bool) : Z := np_sum (map f (seq 0 n)).

Section FrameCounts.
Variable pd_ids : list Z.
Variable scores : list Q.
Variable gt_ids : list Z.
(** The accept/reject matrix: predictions by ground truths. *)
Variable M : list (list bool).

Definition pd_of_class (klass : nat) (i : nat) : bool :=
  match pd_ids !! i with Some c => c =? Z.of_nat klass | None => false end.

Definition gt_of_class (klass : nat) (j : nat) : bool :=
  match gt_ids !! j with Some c => c =? Z.of_nat klass | None => false end.

(** Prediction [i] is of class [klass] and its score is at least [t]. *)
Definition selected (klass : nat) (t : Q) (i : nat) : bool :=
  pd_of_class klass i &&
  match scores !! i with Some s => Qle_bool t s | None => false end.

Definition accepted (i j : nat) : bool :=
  match M !! i with
  | Some row => default false (row !! j)
  | None => false
  end.

(** Ground truth [j] is of class [klass] and some selected prediction has
    an accepted match with it. *)
Definition matched (klass : nat) (t : Q) (j : nat) : bool :=
  gt_of_class klass j &&
  existsb (fun i => selected klass t i && accepted i j) (seq 0 (length pd_ids)).

Definition n_gt (klass : nat) : Z := count_upto (length gt_ids) (gt_of_class klass).
Definition n_pd (klass : nat) : Z := count_upto (length pd_ids) (pd_of_class klass).
Definition n_selected (klass : nat) (t : Q) : Z :=
  count_upto (length pd_ids) (selected klass t).
Definition n_matched (klass : nat) (t : Q) : Z :=
  count_upto (length gt_ids) (matched klass t).
End FrameCounts.

Definition col_any (rows : list (list bool)) (j : nat) : bool :=
  existsb (fun r => default false (r !! j)) rows.

(** *** The increments of one threshold of one class *)

(** What one threshold of one class adds to the three counters: nothing but
    false negatives when no prediction is selected (lines 70-72), the three
    increments of lines 76-78 otherwise. *)
Inductive delta : Type :=
| NoSelection (fn : Z)
| Selection (tp fp fn : Z).

Section Delta.
Variable pd_ids : list Z.
Variable scores : list Q.
Variable gt_ids : list Z.
Variable iou : option (list (list bool)).

(** The part of [update_patch] that reads the frame. *)
Definition patch_delta (klass : nat) (patch : Q) : result delta :=
  let gt_number := np_sum (eq_mask gt_ids klass) in
  pd_mask ← logical_and (eq_mask pd_ids klass) (ge_mask scores patch);
  let pd_number := np_sum pd_mask in
  if pd_number =? 0 then Ok (NoSelection gt_number)
  else
    m ← match iou with Some m => Ok m | None => Raise UnboundLocalError end;
    rows ← select pd_mask m;
    let gt_mask := eq_mask gt_ids klass in
    sub ← select_cols gt_mask rows;
    let true_positive :=
      np_sum (any_axis0 (length (mask_filter gt_mask gt_mask)) sub) in
    Ok (Selection true_positive (pd_number - true_positive)
                  (gt_number - true_positive)).
End Delta.

(** The part of [update_patch] that writes the counters. *)
Definition apply_delta (d : delta) (p klass : nat) (self : Evaluator)
  : result Evaluator :=
  match d with
  | NoSelection gt_number =>
      fn ← iadd2 (FN self) p klass gt_number;
      Ok (set_cells (TP self) (FP self) fn self)
  | Selection tp_d fp_d fn_d =>
      tp ← iadd2 (TP self) p klass tp_d;
      fp ← iadd2 (FP self) p klass fp_d;
      fn ← iadd2 (FN self) p klass fn_d;
      Ok (set_cells tp fp fn self)
  end.

Definition cell_after (d : delta) (c : Z * Z * Z) : Z * Z * Z :=
  let '(tp, fp, fn) := c in
  match d with
  | NoSelection g => (tp, fp, wrap32 (fn + g))
  | Selection a b g => (wrap32 (tp + a), wrap32 (fp + b), wrap32 (fn + g))
  end.

(** The ground truths of the class are split between TP and FN. *)
Definition delta_gt (g : Z) (d : delta) : Prop :=
  match d with
  | NoSelection fn => fn = g
  | Selection tp fp fn => tp + fn = g /\ 0 <= tp /\ 0 <= fn
  end.

(** No increment is negative; TP + FP is bounded by the predictions and
    TP + FN by the ground truths of the frame. *)
Definition delta_ok (npd ngt : Z) (d : delta) : Prop :=
  match d with
  | NoSelection fn => 0 <= fn <= ngt
  | Selection tp fp fn =>
      0 <= tp /\ 0 <= fp /\ 0 <= fn /\ tp + fp <= npd /\ tp + fn <= ngt
  end.

(** *** Sequences of frames *)

(** The numbers of predictions, of ground truths, and of ground truths of
    class [k], of a frame and of a sequence of frames. *)
Definition frame_pd (fr : Predictions * Groundtruths) : Z :=
  Z.of_nat (length (pd_class_ids (fst fr))).

Definition frame_gt (fr : Predictions * Groundtruths) : Z :=
  Z.of_nat (length (gt_class_ids (snd fr))).

Definition frame_gt_class (k : nat) (fr : Predictions * Groundtruths) : Z :=
  np_sum (eq_mask (gt_class_ids (snd fr)) k).

Definition total (w : Predictions * Groundtruths -> Z)
    (frames : list (Predictions * Groundtruths)) : Z :=
  foldr (fun fr n => w fr + n) 0 frames.

Definition total_pd := total frame_pd.
Definition total_gt := total frame_gt.
Definition total_gt_class (k : nat) := total (frame_gt_class k).

(** TP + FN and [gt_counts] stay equal modulo 2^32, and equal as long as
    the ground truths of the class are fewer than 2^32. *)
Definition gt_invariant (n : nat) (ts : list Q) (k : nat) (ev : Evaluator)
    (G : Z) : Prop :=
  n_class ev = n /\ patch ev = ts /\ 0 <= G /\
  (forall p t, ts !! p = Some t ->
     wrap32 (cell (TP ev) p k + cell (FN ev) p k) = entry (gt_counts ev) k) /\
  (G < 2 ^ 32 ->
     entry (gt_counts ev) k = G /\
     forall p t, ts !! p = Some t ->
       0 <= cell (TP ev) p k /\ 0 <= cell (FN ev) p k /\
       cell (TP ev) p k + cell (FN ev) p k = G).

Definition unit_interval (q : Q) : Prop := (0 <= q <= 1)%Q.

(** No counter is negative, TP + FP is at most the number of predictions
    seen and TP + FN at most the number of ground truths seen, as long as
    both numbers are below 2^32. *)
Definition range_invariant (n : nat) (ts : list Q) (ev : Evaluator)
    (s : Z * Z) : Prop :=
  n_class ev = n /\ patch ev = ts /\ (0 < threshold ev)%Q /\
  (fst s < 2 ^ 32 -> snd s < 2 ^ 32 ->
   forall p t k, ts !! p = Some t -> (k < n)%nat ->
     0 <= cell (TP ev) p k /\ 0 <= cell (FP ev) p k /\ 0 <= cell (FN ev) p k /\
     cell (TP ev) p k + cell (FP ev) p k <= fst s /\
     cell (TP ev) p k + cell (FN ev) p k <= snd s).

(** The matrix that [precision] and [recall] average. *)
Definition ratio_matrix (A B : list (list Z)) : list (list Q) :=
  map (map nan_to_num) (mat_zip ratio A (mat_zip add32 A B)).

(** An evaluator with one class and the one score threshold 0, whose three
    counters are [x], [y] and [z] modulo 2^32. *)
Definition single_cell (ev : Evaluator) (x y z : Z) : Prop :=
  wf_ev ev /\ n_class ev = 1%nat /\ patch ev = [0%Q] /\
  threshold ev = (1 # 2)%Q /\
  cells ev 0 0 = (wrap32 x, wrap32 y, wrap32 z).

(** *** The ground-truth total of the driver *)

(** The sum of the ground-truth box counts of the frames that have ground
    truth, whatever their result file. *)
Definition gt_total_all (testset : list (list Box * list Z)) : Z :=
  foldr (fun '(boxes, _) n => Z.of_nat (length boxes) + n) 0 testset.

(** The same sum over the frames whose result file (the file at the
    position of the frame in the sorted list) was read. *)
Definition frame_read (results : list (option (list Detection))) (index : nat)
  : bool :=
  match results !! index with
  | Some (Some _) => true
  | _ => false
  end.

Definition gt_counted (results : list (option (list Detection)))
    (testset : list (list Box * list Z)) (index : nat) : Z :=
  match testset !! index with
  | Some (boxes, _) =>
      if frame_read results index then Z.of_nat (length boxes) else 0
  | None => 0
  end.

Definition gt_total_read (results : list (option (list Detection)))
    (testset : list (list Box * list Z)) : Z :=
  foldr (fun index n => gt_counted results testset index + n) 0
        (seq 0 (length testset)).

(** What the loop of [main] keeps true. *)
Definition main_invariant (ev : Evaluator) (G : Z) : Prop :=
  wf_ev ev /\ n_class ev = 2%nat /\ entry (gt_counts ev) 1 = wrap32 G.

(** *** Frames and evaluators used in examples *)

(** A frame used in examples: two predictions of class 1 and one of class 0
    against two ground truths of class 1. *)
Definition example_pd : Predictions :=
  {| pd_class_ids := [1; 1; 0];
     pd_scores := Some [(1 # 2)%Q; (9 # 10)%Q; 1%Q];
     pd_bboxes := [box 0 0 10 10; box 0 0 9 10; box 1 1 2 2] |}.

Definition example_gt : Groundtruths :=
  {| gt_class_ids := [1; 1];
     gt_bboxes := [box 0 0 10 10; box 50 50 60 60] |}.

(** The evaluator after one [update] with the example frame, from three
    thresholds, two classes and IoU threshold 0.5. *)
Definition example_ev : Evaluator :=
  {| n_class := 2;
     patch := [(0 # 2)%Q; (1 # 2)%Q; (2 # 2)%Q];
     threshold := (1 # 2)%Q;
     TP := [[0; 1]; [0; 1]; [0; 0]];
     FP := [[1; 1]; [1; 1]; [1; 0]];
     FN := [[0; 1]; [0; 1]; [0; 2]];
     gt_counts := [0; 2];
     pd_counts := [1; 2] |}.

(** A frame with one predicted box and a frame side without ground truth. *)
Definition single_pd : Predictions :=
  {| pd_class_ids := [1]; pd_scores := None; pd_bboxes := [box 0 0 1 1] |}.

Definition empty_gt : Groundtruths := {| gt_class_ids := []; gt_bboxes := [] |}.

(** One predicted box against two ground truths, for an evaluator whose IoU
    threshold is zero, and the evaluator after that frame. *)
Definition overmatched_pd : Predictions :=
  {| pd_class_ids := [0]; pd_scores := None; pd_bboxes := [box 0 0 1 1] |}.

Definition overmatched_gt : Groundtruths :=
  {| gt_class_ids := [0; 0]; gt_bboxes := [box 0 0 1 1; box 5 5 6 6] |}.

Definition overmatched_ev : Evaluator :=
  {| n_class := 1; patch := [0%Q]; threshold := 0%Q;
     TP := [[2]]; FP := [[4294967295]]; FN := [[0]];
     gt_counts := [2]; pd_counts := [1] |}.

(** Two classes, class 1 detected perfectly and class 0 detected for one of
    its two ground truths, and the evaluator after that frame. *)
Definition mixed_pd : Predictions :=
  {| pd_class_ids := [1; 0]; pd_scores := None;
     pd_bboxes := [box 0 0 10 10; box 20 20 30 30] |}.

Definition mixed_gt : Groundtruths :=
  {| gt_class_ids := [0; 0; 1];
     gt_bboxes := [box 20 20 30 30; box 50 50 60 60; box 0 0 10 10] |}.

Definition mixed_ev : Evaluator :=
  {| n_class := 2;
     patch := linspace01 11;
     threshold := (1 # 2)%Q;
     TP := replicate 11 [1; 1];
     FP := replicate 11 [0; 0];
     FN := replicate 11 [1; 0];
     gt_counts := [2; 1];
     pd_counts := [1; 1] |}.

(** A frame whose prediction matches its ground truth and a frame whose
    prediction misses it, and a sequence of frames that makes the [uint32]
    counters wrap. *)
Definition hit_pd : Predictions :=
  {| pd_class_ids := [0]; pd_scores := None; pd_bboxes := [box 0 0 1 1] |}.

Definition miss_pd : Predictions :=
  {| pd_class_ids := [0]; pd_scores := None; pd_bboxes := [box 5 5 6 6] |}.

Definition one_gt : Groundtruths :=
  {| gt_class_ids := [0]; gt_bboxes := [box 0 0 1 1] |}.

Definition overflow_frames : list (Predictions * Groundtruths) :=
  replicate (Z.to_nat (2 ^ 32 - 1)) (hit_pd, one_gt)
  ++ [(miss_pd, one_gt); (miss_pd, one_gt)].

(** *** Tactics *)

Ltac unfold_bind := unfold mbind, result_bind in *.

(** What an IoU can be: nan, or a number of the unit interval. *)
Definition iou_value (v : fval) : Prop :=
  v = NaN \/ exists q, v = FNum q /\ (0 <= q <= 1)%Q.

(** The three increments (TP, FP, FN) of a [delta]. *)
Definition delta_triple (d : delta) : Z * Z * Z :=
  match d with
  | NoSelection g => (0, 0, g)
  | Selection a b c => (a, b, c)
  end.

(** What a frame adds to the counters of class [k] at score threshold [t],
    for an evaluator with the IoU threshold of [ev]. *)
Definition frame_delta (ev : Evaluator) (k : nat) (t : Q)
    (fr : Predictions * Groundtruths) : Z * Z * Z :=
  match patch_delta (pd_class_ids (fst fr)) (frame_scores (fst fr))
                    (gt_class_ids (snd fr))
                    (frame_iou_binding ev (fst fr) (snd fr)) k t with
  | Ok d => delta_triple d
  | Raise _ => (0, 0, 0)
  end.

Definition add3 (a b : Z * Z * Z) : Z * Z * Z :=
  (fst (fst a) + fst (fst b), snd (fst a) + snd (fst b), snd a + snd b).

Definition wrap3 (a : Z * Z * Z) : Z * Z * Z :=
  (wrap32 (fst (fst a)), wrap32 (snd (fst a)), wrap32 (snd a)).

Definition total3 (w : Predictions * Groundtruths -> Z * Z * Z)
    (frames : list (Predictions * Groundtruths)) : Z * Z * Z :=
  foldr (fun fr s => add3 (w fr) s) (0, 0, 0) frames.

(** The number of predictions of class [k] of a frame. *)
Definition frame_pd_class (k : nat) (fr : Predictions * Groundtruths) : Z :=
  np_sum (eq_mask (pd_class_ids (fst fr)) k).

Definition total_pd_class (k : nat) := total (frame_pd_class k).

(** The counters of an evaluator are the sums over the frames seen, modulo
    2^32. *)
Definition sum_invariant (ev0 : Evaluator) (seen : list (Predictions * Groundtruths))
    (ev : Evaluator) : Prop :=
  same_frame ev0 ev /\
  forall k, (k < n_class ev0)%nat ->
    entry (gt_counts ev) k = wrap32 (total_gt_class k seen) /\
    entry (pd_counts ev) k = wrap32 (total_pd_class k seen) /\
    forall p t, patch ev0 !! p = Some t ->
      cells ev p k = wrap3 (total3 (frame_delta ev0 k t) seen).

(** The evaluator after the example frame and the mixed frame, in either
    order, from three thresholds and two classes. *)
Definition two_frames_ev : Evaluator :=
  {| n_class := 2;
     patch := [(0 # 2)%Q; (1 # 2)%Q; (2 # 2)%Q];
     threshold := (1 # 2)%Q;
     TP := [[1; 2]; [1; 2]; [1; 1]];
     FP := [[1; 1]; [1; 1]; [1; 0]];
     FN := [[1; 1]; [1; 1]; [1; 2]];
     gt_counts := [2; 3];
     pd_counts := [2; 3] |}.

(** The number of predictions of class [k] with a score of at least [t] in
    a frame. *)
Definition frame_selected (k : nat) (t : Q) (fr : Predictions * Groundtruths) : Z :=
  n_selected (pd_class_ids (fst fr)) (frame_scores (fst fr)) k t.

(** TP + FP, as numpy adds them, is the number of selected predictions seen,
    modulo 2^32. *)
Definition selected_invariant (n : nat) (ts : list Q) (k p : nat) (t : Q)
    (ev : Evaluator) (s : Z) : Prop :=
  n_class ev = n /\ patch ev = ts /\
  add32 (cell (TP ev) p k) (cell (FP ev) p k) = wrap32 s.

(** The loop of [mAP] on scalars: the running sum and the recall of the
    class visited before. *)
Definition mAP_scalar_step (st : fval * fval) (pr : fval * fval) : fval * fval :=
  let '(acc, prev) := st in
  let '(p, r) := pr in
  (fadd acc (fmul p (fsub r prev)), r).

Definition mAP_scalar (prs : list (fval * fval)) : fval :=
  fst (fold_left mAP_scalar_step prs (FNum 0, FNum 0)).

Definition fzero (v : fval) : Prop := exists q, v = FNum q /\ (q == 0)%Q.

(** The frame that [main] passes to [update] for a dataset index: none when
    the result file at that position is absent or unreadable, or when the
    frame has no ground-truth box. *)
Definition main_frame_input (results : list (option (list Detection)))
    (testset : list (list Box * list Z)) (index : nat)
  : option (Predictions * Groundtruths) :=
  match results !! index, testset !! index with
  | Some (Some detection), Some (boxes, labels) =>
      if (length boxes =? 0)%nat then None
      else Some ({| pd_class_ids := map det_class detection;
                    pd_scores := Some (map det_score detection);
                    pd_bboxes := map det_box detection |},
                 {| gt_class_ids := map (fun _ => 1) boxes;
                    gt_bboxes := boxes |})
  | _, _ => None
  end.

Definition main_frames (results : list (option (list Detection)))
    (testset : list (list Box * list Z)) : list (Predictions * Groundtruths) :=
  omap (main_frame_input results testset) (seq 0 (length testset)).

(** The other components of the value of [main]. *)
Definition reported_pd_total (r : fval * fval * fval * Z * Z) : Z :=
  let '(_, _, _, _, c) := r in c.

Definition reported_mAP (r : fval * fval * fval * Z * Z) : fval :=
  let '(a, _, _, _, _) := r in a.

Definition reported_precision (r : fval * fval * fval * Z * Z) : fval :=
  let '(_, p, _, _, _) := r in p.

Definition reported_recall (r : fval * fval * fval * Z * Z) : fval :=
  let '(_, _, r', _, _) := r in r'.

(** The lines 150-172 of [main], for the evaluator left by the loop over
    the frames. *)
Definition main_report (evaluator : Evaluator)
  : result (fval * fval * fval * Z * Z) :=
  let '(aps, precisions, recalls) := dump evaluator in
  '(aps, precisions, recalls, gt_total, pd_total) ←
    for_loop (report_class evaluator) ([], [], [], 0, 0)
             (enumerate (zip aps (zip precisions recalls)));
  Ok (fmean aps, fmean precisions, fmean recalls, gt_total, pd_total).

(** The class-1 detections of a frame that reaches [update]. *)
Definition pd_counted (results : list (option (list Detection)))
    (testset : list (list Box * list Z)) (index : nat) : Z :=
  match results !! index, testset !! index with
  | Some (Some detection), Some (boxes, _) =>
      if (length boxes =? 0)%nat then 0
      else np_sum (eq_mask (map det_class detection) 1)
  | _, _ => 0
  end.

Definition pd_total_read (results : list (option (list Detection)))
    (testset : list (list Box * list Z)) : Z :=
  foldr (fun index n => pd_counted results testset index + n) 0
        (seq 0 (length testset)).

(** A one-frame dataset with one detection file, for examples. *)
Definition one_result : list (option (list Detection)) :=
  [Some [{| det_class := 1; det_score := (9 # 10)%Q;
            det_box := box 0 0 10 10 |}]].

Definition one_testset : list (list Box * list Z) := [([box 0 0 10 10], [1])].

(** *** Values on which the float arithmetic is exact *)

(** An integer of magnitude at most [B]. *)
Definition int_within (B : Z) (q : Q) : Prop :=
  exists z : Z, (q == inject_Z z)%Q /\ Z.abs z <= B.

(** A value that [float32] and [float64] both hold exactly: an integer of
    magnitude at most 2^24.  An operation whose exact result is such a
    value returns it without rounding. *)
Definition exact_int (q : Q) : Prop := int_within (2 ^ 24) q.

(** A box whose four coordinates are integers of magnitude at most 2^10. *)
Definition small_int_box (b : Box) : Prop :=
  int_within (2 ^ 10) (c0 b) /\ int_within (2 ^ 10) (c1 b) /\
  int_within (2 ^ 10) (c2 b) /\ int_within (2 ^ 10) (c3 b).

(** Every value that lines 24-25 and 13-18 compute for the pair of [bx]
    (a row of [boxes2]) and [b] (a row of [boxes1]): the sides and the areas,
    the corners, the sides and the area of the intersection, the sum of the
    areas and the union. *)
Definition iou_intermediates (bx b : Box) : list Q :=
  let y1 := Qmax (c0 bx) (c0 b) in
  let y2 := Qmin (c2 bx) (c2 b) in
  let x1 := Qmax (c1 bx) (c1 b) in
  let x2 := Qmin (c3 bx) (c3 b) in
  [c2 bx - c0 bx; c3 bx - c1 bx; box_area bx;
   c2 b - c0 b; c3 b - c1 b; box_area b;
   y1; y2; x1; x2; x2 - x1; y2 - y1;
   Qmax (x2 - x1) 0; Qmax (y2 - y1) 0;
   box_intersection bx b;
   box_area bx + box_area b;
   box_area bx + box_area b - box_intersection bx b]%Q.

End Evaluate.

(** * Properties of ssd/model.py *)

Module ModelFacts.
Import Model.

(** The ten iterations over [EXTRAS], whatever the first [in_channels]. *)
Lemma extra_yields_value (c : Z) :
  extra_yields c =
  Ok [Some (conv c 256 1 1 0); Some (conv 256 512 3 2 1); None;
      Some (conv 512 128 1 1 0); Some (conv 128 256 3 2 1); None;
      Some (conv 256 128 1 1 0); Some (conv 128 256 3 1 0);
      Some (conv 256 128 1 1 0); Some (conv 128 256 3 1 0)].
Proof. reflexivity. Qed.

Lemma extra_value (c : Z) :
  extra c =
  Ok [conv c 256 1 1 0; conv 256 512 3 2 1; conv 512 128 1 1 0;
      conv 128 256 3 2 1; conv 256 128 1 1 0; conv 128 256 3 1 0;
      conv 256 128 1 1 0; conv 128 256 3 1 0].
Proof. reflexivity. Qed.

(** C8, as stated, fails: the generator does not produce ten layers with
    kernel sizes (1,3,1,3,1,3,1,3,1,3); the guard [in_channels != 'S'] makes
    the two entries that follow an ['S'] produce nothing. *)
Lemma extra_not_ten_layers :
  ~ (exists ls, extra 1024 = Ok ls /\ length ls = 10%nat /\
                map kernel_size ls = [1; 3; 1; 3; 1; 3; 1; 3; 1; 3]).
Proof.
  intros (ls & Hls & Hlen & _). rewrite extra_value in Hls.
  injection Hls as <-. discriminate Hlen.
Qed.

(** C8, amended: traversing [EXTRAS], the generator produces eight layers,
    one for each entry except the two that directly follow an ['S']; their
    kernel sizes alternate (1,3,1,3,1,3,1,3); a layer generated at an ['S']
    entry has stride 2, padding 1 and the next entry as output channels, and
    every other generated layer has stride 1, padding 0 and the current
    entry as output channels. *)
Theorem extra_layers (c : Z) :
  exists ys ls,
    extra_yields c = Ok ys /\ extra c = Ok ls /\
    length ys = 10%nat /\ length ls = 8%nat /\
    map kernel_size ls = [1; 3; 1; 3; 1; 3; 1; 3] /\
    (forall i, (i < 10)%nat ->
       ys !! i = Some None <->
       exists j, i = S j /\ EXTRAS !! j = Some S_mark) /\
    (forall i e l, EXTRAS !! i = Some e -> ys !! i = Some (Some l) ->
       if is_S e
       then stride l = 2 /\ padding l = 1 /\
            EXTRAS !! S i = Some (Ch (out_channels l))
       else stride l = 1 /\ padding l = 0 /\ e = Ch (out_channels l)).
Proof.
  eexists _, _. split; [apply extra_yields_value|].
  split; [apply extra_value|].
  split; [reflexivity|]. split; [reflexivity|]. split; [reflexivity|].
  split.
  - intros i Hi. split.
    + intros H. do 10 (destruct i as [|i]; [try discriminate H; eauto|]). lia.
    + intros (j & -> & H).
      do 10 (destruct j as [|j]; [try discriminate H; try reflexivity|]).
      destruct j; discriminate H.
  - intros i e l He Hl.
    do 10 (destruct i as [|i];
           [injection He as <-; try discriminate Hl; injection Hl as <-;
            cbn; auto|]).
    destruct i; discriminate He.
Qed.

Section DetectFacts.
Context {tensor : Type}.
Variable Detector_call : Detector -> tensor -> tensor -> tensor -> tensor.
Variable softmax : tensor -> tensor.

(** [detect] raises exactly when there is no decoder. *)
Lemma detect_raises_iff (self : SSD) (loc conf prior : tensor) :
  detect Detector_call softmax self loc conf prior
    = Raise (Exception detect_message)
  <-> detector self = None.
Proof.
  unfold detect. destruct (detector self); split; congruence.
Qed.

Lemma SSD_train_detector (mode : bool) (self : SSD) :
  detector (SSD_train mode self) = None.
Proof. reflexivity. Qed.

(** [super().eval()] is [self.train(False)], which is [SSD.train]: the
    decoder that [eval] has just built is dropped again, and the module is
    left in training mode. *)
Lemma SSD_eval_state (self : SSD) :
  detector (SSD_eval self) = None /\ training (SSD_eval self) = true.
Proof. split; reflexivity. Qed.

(** On a class that does not override [train], the same [eval] body would
    keep the decoder and leave training mode: the loss of the decoder comes
    from the dispatch to [SSD.train] alone. *)
Lemma eval_without_override (self : SSD) (d : Detector) :
  detector (@Module_eval Module_class (set_detector (Some d) self)) = Some d /\
  training (@Module_eval Module_class (set_detector (Some d) self)) = false.
Proof. split; reflexivity. Qed.

(** No sequence of [eval()] and [train()] calls leaves a decoder. *)
Lemma run_calls_detector (cs : list mode_call) (self : SSD) :
  detector self = None -> detector (run_calls self cs) = None.
Proof.
  revert self. induction cs as [|c cs IH]; intros self H; [exact H|].
  apply IH. destruct c; reflexivity.
Qed.

(** C9 at the failing input: a model is built and put in evaluation mode,
    and [detect] still raises. *)
Theorem detect_after_eval_raises (n : Z) (loc conf prior : tensor) :
  detect Detector_call softmax (SSD_eval (SSD_init n)) loc conf prior
    = Raise (Exception detect_message).
Proof. reflexivity. Qed.

Lemma detect_always_raises (n : Z) (cs : list mode_call) (loc conf prior : tensor) :
  detect Detector_call softmax (run_calls (SSD_init n) cs) loc conf prior
    = Raise (Exception detect_message).
Proof. apply detect_raises_iff, run_calls_detector. reflexivity. Qed.
End DetectFacts.

(** ** SSD300: the generator on any list of entries, the head and [forward] *)

Lemma kernel_cycle_S (drawn n : nat) :
  kernel_cycle drawn (S n)
  = (if Nat.even drawn then 1 else 3) :: kernel_cycle (S drawn) n.
Proof.
  unfold kernel_cycle. cbn [seq map]. rewrite Nat.add_0_r. f_equal.
  rewrite <- seq_shift, map_map. apply map_ext. intros j.
  replace (drawn + S j)%nat with (S drawn + j)%nat by lia. reflexivity.
Qed.

Lemma result_bind_Ok {A B} (m : result A) (f : A -> result B) (b : B) :
  (x ← m; f x) = Ok b -> exists a, m = Ok a /\ f a = Ok b.
Proof.
  unfold mbind, result_bind. destruct m as [a|]; [eauto|discriminate].
Qed.

Lemma extra_body_Ok extras i feature in_ch drawn y drawn' :
  extra_body extras i feature in_ch drawn = Ok (y, drawn') ->
  match in_ch with
  | S_mark => y = None /\ drawn' = drawn
  | Ch cin =>
      drawn' = S drawn /\
      exists out,
        y = Some (conv cin out (if Nat.even drawn then 1 else 3)
                       (if is_S feature then 2 else 1)
                       (if is_S feature then 1 else 0)) /\
        (if is_S feature then extras !! (i + 1)%nat = Some (Ch out)
         else feature = Ch out)
  end.
Proof.
  unfold extra_body. destruct in_ch as [cin|].
  - intros H. apply result_bind_Ok in H. destruct H as (out & Hout & H).
    cbn in H. injection H as <- <-. split; [reflexivity|].
    exists out. split; [reflexivity|].
    destruct feature as [c|]; cbn in *.
    + injection Hout as ->. reflexivity.
    + destruct (extras !! (i + 1)%nat) as [[c|]|]; try discriminate.
      injection Hout as ->. reflexivity.
  - intros H. injection H as <- <-. split; reflexivity.
Qed.

Lemma omap_id_Some {A} (x : A) (l : list (option A)) :
  omap id (Some x :: l) = x :: omap id l.
Proof. reflexivity. Qed.

Lemma omap_id_None {A} (l : list (option A)) :
  omap id (None :: l) = omap id l.
Proof. reflexivity. Qed.

Lemma extra_loop_chained (extras : list entry) (rest : list entry) :
  forall (i : nat) (in_ch : entry) (drawn : nat) (ys : list (option Conv2d)),
  drop i extras = rest ->
  extra_loop extras i rest in_ch drawn = Ok ys ->
  match expected_channels in_ch rest with
  | Some e => chained e (omap id ys)
  | None => True
  end /\
  map kernel_size (omap id ys) = kernel_cycle drawn (length (omap id ys)).
Proof.
  induction rest as [|feature rest IH]; intros i in_ch drawn ys Hdrop H.
  - injection H as <-. cbn. split; [destruct in_ch; exact I|reflexivity].
  - cbn [extra_loop] in H.
    apply result_bind_Ok in H. destruct H as ([y drawn'] & Hbody & H).
    apply result_bind_Ok in H. destruct H as (ys' & Hloop & H).
    injection H as <-.
    assert (Hdrop' : drop (S i) extras = rest).
    { rewrite <- (Nat.add_1_r i), <- drop_drop, Hdrop. reflexivity. }
    assert (Hnext : rest = [] \/ exists e, extras !! (i + 1)%nat = Some e /\
                                           exists r, rest = e :: r).
    { destruct rest as [|e r]; [left; reflexivity|right].
      exists e. split; [|eauto]. rewrite Nat.add_1_r.
      rewrite <- (Nat.add_0_r (S i)), <- lookup_drop, Hdrop'. reflexivity. }
    destruct (IH (S i) feature drawn' ys' Hdrop' Hloop) as [Hch Hk].
    apply extra_body_Ok in Hbody. destruct in_ch as [cin|].
    + destruct Hbody as (-> & out & -> & Hout).
      rewrite omap_id_Some. cbn [expected_channels chained length map].
      rewrite kernel_cycle_S, Hk. split; [|reflexivity].
      split; [reflexivity|]. cbn [out_channels conv].
      destruct feature as [c|]; cbn in Hout, Hch.
      * injection Hout as <-. exact Hch.
      * destruct Hnext as [->|(e & He & r & ->)].
        -- injection Hloop as <-. exact I.
        -- rewrite He in Hout. injection Hout as ->. exact Hch.
    + destruct Hbody as [-> ->].
      rewrite omap_id_None. split; [|exact Hk].
      destruct feature as [c|]; [exact Hch|exact I].
Qed.

(** X18: for any list of entries (the [EXTRAS] of [SSD300] or of a subclass)
    on which the generator returns, the layers it yields fit one after the
    other: the first takes the [in_channels] argument, each next one takes
    the output channels of the layer before it, also across an ['S'] and the
    entry skipped after it; the kernel sizes alternate 1, 3, 1, 3, ... *)
Theorem extra_loop_layers (extras : list entry) (c : Z)
    (ys : list (option Conv2d)) :
  extra_loop extras 0 extras (Ch c) 0 = Ok ys ->
  chained c (omap id ys) /\
  map kernel_size (omap id ys) = kernel_cycle 0 (length (omap id ys)).
Proof.
  intros H. apply (extra_loop_chained extras extras 0 (Ch c) 0 ys eq_refl H).
Qed.

Lemma extra_loop_layers_witness :
  chained 1024
    [conv 1024 256 1 1 0; conv 256 512 3 2 1; conv 512 128 1 1 0;
     conv 128 256 3 2 1; conv 256 128 1 1 0; conv 128 256 3 1 0;
     conv 256 128 1 1 0; conv 128 256 3 1 0] /\
  [1; 3; 1; 3; 1; 3; 1; 3] = kernel_cycle 0 8.
Proof.
  exact (extra_loop_layers EXTRAS 1024 _ (extra_yields_value 1024)).
Defined.

Lemma extra_loop_is_Ok (extras : list entry) (rest : list entry) :
  forall (i : nat) (in_ch : entry) (drawn : nat),
  drop i extras = rest ->
  (in_ch = S_mark -> exists c r, rest = Ch c :: r) ->
  is_Ok (extra_loop extras i rest in_ch drawn) <->
  (forall j, (i <= j)%nat -> extras !! j = Some S_mark ->
     exists c, extras !! S j = Some (Ch c)).
Proof.
  induction rest as [|feature rest IH]; intros i in_ch drawn Hdrop Hin.
  - split; [|intros _; eexists; reflexivity].
    intros _ j Hj Hs. apply lookup_lt_Some in Hs.
    apply (f_equal length) in Hdrop. rewrite length_drop in Hdrop.
    cbn in Hdrop. lia.
  - assert (Hdrop' : drop (S i) extras = rest).
    { rewrite <- (Nat.add_1_r i), <- drop_drop, Hdrop. reflexivity. }
    assert (Hi : extras !! i = Some feature).
    { rewrite <- (Nat.add_0_r i), <- lookup_drop, Hdrop. reflexivity. }
    assert (Hnext : extras !! S i = rest !! 0%nat).
    { rewrite <- Hdrop', lookup_drop, Nat.add_0_r. reflexivity. }
    assert (Hsplit : forall P : nat -> Prop,
              (forall j, (i <= j)%nat -> P j) <->
              P i /\ forall j, (S i <= j)%nat -> P j).
    { intros P. split.
      - intros H. split; [apply H; lia|]. intros j Hj. apply H. lia.
      - intros [H0 H] j Hj. destruct (decide (j = i)) as [->|Hne];
          [exact H0|apply H; lia]. }
    rewrite (Hsplit (fun j => extras !! j = Some S_mark ->
                              exists c, extras !! S j = Some (Ch c))).
    cbn [extra_loop]. destruct in_ch as [cin|].
    + destruct feature as [c|].
      * cbn. unfold mbind, result_bind.
        specialize (IH (S i) (Ch c) (S drawn) Hdrop'
                      ltac:(intros; discriminate)).
        destruct (extra_loop extras (S i) rest (Ch c) (S drawn)) as [ys|e] eqn:E.
        -- split; [|intros _; eexists; reflexivity].
           intros _. split; [rewrite Hi; discriminate|].
           apply IH. eexists. reflexivity.
        -- split; [intros [a Ha]; discriminate|].
           intros [_ H]. apply IH in H. destruct H as [a Ha]. discriminate.
      * cbn. rewrite Nat.add_1_r.
        destruct (extras !! S i) as [[c'|]|] eqn:En; cbn.
        -- unfold mbind, result_bind.
           assert (Hr : exists c r, rest = Ch c :: r).
           { destruct rest as [|e r]; [discriminate|].
             cbn in Hnext. injection Hnext as <-. eauto. }
           specialize (IH (S i) S_mark (S drawn) Hdrop' (fun _ => Hr)).
           destruct (extra_loop extras (S i) rest S_mark (S drawn))
             as [ys|e] eqn:E.
           ++ split; [|intros _; eexists; reflexivity].
              intros _. split; [eauto|]. apply IH. eexists. reflexivity.
           ++ split; [intros [a Ha]; discriminate|].
              intros [_ H]. apply IH in H. destruct H as [a Ha]. discriminate.
        -- split; [intros [a Ha]; discriminate|].
           intros [H _]. destruct (H Hi) as [c Hc]. discriminate.
        -- split; [intros [a Ha]; discriminate|].
           intros [H _]. destruct (H Hi) as [c Hc]. discriminate.
    + destruct (Hin eq_refl) as (c & r & E). injection E as -> ->.
      cbn. unfold mbind, result_bind.
      specialize (IH (S i) (Ch c) drawn Hdrop' ltac:(intros; discriminate)).
      destruct (extra_loop extras (S i) r (Ch c) drawn) as [ys|e] eqn:E.
      * split; [|intros _; eexists; reflexivity].
        intros _. split; [rewrite Hi; discriminate|].
        apply IH. eexists. reflexivity.
      * split; [intros [a Ha]; discriminate|].
        intros [_ H]. apply IH in H. destruct H as [a Ha]. discriminate.
Qed.

(** X19: for any list of entries, the generator returns exactly when every
    ['S'] is followed by a channel count; an ['S'] that ends the list or is
    followed by another ['S'] makes it raise. *)
Theorem extra_loop_returns (extras : list entry) (c : Z) :
  is_Ok (extra_loop extras 0 extras (Ch c) 0) <-> well_marked extras.
Proof.
  rewrite (extra_loop_is_Ok extras extras 0 (Ch c) 0 eq_refl)
    by (intros; discriminate).
  unfold well_marked. split.
  - intros H j. apply H. lia.
  - intros H j _. apply H.
Qed.

Lemma run_calls_training (cs : list mode_call) (self : SSD) :
  training self = true -> training (run_calls self cs) = true.
Proof.
  revert self. induction cs as [|c cs IH]; intros self H; [exact H|].
  apply IH. destruct c; reflexivity.
Qed.

Section ForwardFacts.
Context {tensor : Type}.
Variable layer_call : layer -> tensor -> tensor.
Variable conv_call : Conv2d -> tensor -> tensor.
Variable L2Norm : tensor -> tensor.
Variable relu : tensor -> tensor.
Variable refine : tensor -> tensor.
Variable reshape : list tensor -> tensor.
Variable view : Z -> tensor -> tensor.
Variable to_device : tensor -> tensor -> tensor.
Variable Detector_call : Detector -> tensor -> tensor -> tensor -> tensor.
Variable softmax : tensor -> tensor.

Lemma extras_loop_value (ls : list Conv2d) (x : tensor) (base : list tensor) :
  fold_left (extras_step conv_call relu) (zip (seq 0 (length ls)) ls) (x, base)
  = (apply_extras conv_call relu ls x,
     base ++ map (fun j => apply_extras conv_call relu (take (2 * j + 2) ls) x)
                 (seq 0 (length ls / 2))).
Proof.
  induction ls as [|l ls IH] using rev_ind.
  - cbn. rewrite app_nil_r. reflexivity.
  - rewrite length_app. cbn [length]. rewrite Nat.add_1_r.
    rewrite seq_S, Nat.add_0_l.
    rewrite zip_with_app by (rewrite length_seq; reflexivity).
    rewrite fold_left_app, IH. cbn [zip_with fold_left extras_step].
    assert (Hout : relu (conv_call l (apply_extras conv_call relu ls x))
                   = apply_extras conv_call relu (ls ++ [l]) x).
    { unfold apply_extras. rewrite fold_left_app. reflexivity. }
    rewrite Hout. f_equal.
    assert (Htake : forall j, (j < length ls / 2)%nat ->
              take (2 * j + 2) (ls ++ [l]) = take (2 * j + 2) ls).
    { intros j Hj. apply take_app_le.
      pose proof (Nat.div_mod_eq (length ls) 2). lia. }
    assert (Hmap : map (fun j => apply_extras conv_call relu
                                   (take (2 * j + 2) (ls ++ [l])) x)
                       (seq 0 (length ls / 2))
                   = map (fun j => apply_extras conv_call relu
                                     (take (2 * j + 2) ls) x)
                         (seq 0 (length ls / 2))).
    { apply map_ext_in. intros j Hj. apply in_seq in Hj.
      rewrite Htake by lia. reflexivity. }
    pose proof (Nat.div_mod_eq (length ls) 2) as Hdm.
    pose proof (Nat.mod_upper_bound (length ls) 2 ltac:(lia)) as Hub.
    pose proof (Nat.div_mod_eq (S (length ls)) 2) as Hdm'.
    pose proof (Nat.mod_upper_bound (S (length ls)) 2 ltac:(lia)) as Hub'.
    destruct (length ls mod 2 =? 1)%nat eqn:E.
    + apply Nat.eqb_eq in E.
      assert (Hd : (S (length ls) / 2 = S (length ls / 2))%nat) by lia.
      rewrite Hd, seq_S, map_app, Hmap, app_assoc. cbn [map]. do 2 f_equal.
      rewrite Nat.add_0_l, take_ge by (rewrite length_app; cbn [length]; lia).
      reflexivity.
    + apply Nat.eqb_neq in E.
      assert (Hd : (S (length ls) / 2 = length ls / 2)%nat) by lia.
      rewrite Hd, Hmap. reflexivity.
Qed.

(** X20: [forward] collects one source after the first 23 backbone layers
    (normalised), one after the whole backbone, and one after every second
    extra layer, that is after the layers [extras[1::2]] that [head] sizes
    the heads for; the source of index [2 + j] is the output of the extra
    layers up to index [2 j + 1]. *)
Theorem forward_sources_value (self : Net) (x : tensor) :
  let x1 := apply_layers layer_call (take 23 (features self)) x in
  let x2 := apply_layers layer_call (drop 23 (features self)) x1 in
  forward_sources layer_call conv_call L2Norm relu self x
  = (apply_extras conv_call relu (extras self) x2,
     [L2Norm x1; x2]
     ++ map (fun j => apply_extras conv_call relu
                        (take (2 * j + 2) (extras self)) x2)
            (seq 0 (length (extras self) / 2))).
Proof.
  intros x1 x2. unfold forward_sources. fold x1. fold x2.
  apply extras_loop_value.
Qed.

(** X21: whatever [eval()] and [train()] calls were made on the model,
    [forward] returns the triple of the training phase, never the value of
    [detect]: every such call leaves the module in training mode. *)
Theorem forward_after_mode_calls (self : Net) (n : Z) (cs : list mode_call)
    (x : tensor) :
  core self = run_calls (SSD_init n) cs ->
  loc self <> [] -> conf self <> [] ->
  exists l c p,
    forward layer_call conv_call L2Norm relu refine reshape view to_device
            Detector_call softmax self x
    = Ok (Raw l c p).
Proof.
  intros Hcore Hloc Hconf. unfold forward, forward_sources.
  rewrite extras_loop_value. cbn [app].
  destruct (loc self) as [|l0 ls]; [congruence|].
  destruct (conf self) as [|c0 cs']; [congruence|].
  cbn [zip zip_with map].
  rewrite Hcore, (run_calls_training cs (SSD_init n) eq_refl).
  cbn [negb]. eauto.
Qed.

(** X22: for a [vgg16().features] of 31 modules whose module 21 is a
    convolution, [SSD300.__init__] returns a model in training mode without
    decoder, with the eight extra layers for 1024 input channels and six
    [loc] and six [conf] heads: head [i] takes the output channels of its
    source layer (module 21, the added 1024-channel convolution, and the
    extra layers 1, 3, 5, 7) and produces [4 * BOXES[i]] and
    [num_classes * BOXES[i]] channels; [forward] collects six sources, one
    per head. *)
Theorem SSD300_init_value (vgg_features : list layer) (num_classes : Z)
    (priors : tensor) (c21 : Conv2d) (d21 : Z) :
  length vgg_features = 31%nat ->
  vgg_features !! 21%nat = Some (Conv c21 d21) ->
  let chans := [out_channels c21; 1024; 512; 256; 256; 256] in
  exists net,
    SSD300_init vgg_features num_classes priors = inr net /\
    core net = SSD_init num_classes /\
    features net = removelast vgg_features ++ SSD300_added /\
    extra 1024 = Ok (extras net) /\
    loc net = zip_with (fun b c => conv c (b * 4) 3 1 1) BOXES chans /\
    conf net = zip_with (fun b c => conv c (b * num_classes) 3 1 1) BOXES chans /\
    forall x,
      length (snd (forward_sources layer_call conv_call L2Norm relu net x))
      = length (loc net).
Proof.
  intros Hlen H21 chans.
  do 31 (destruct vgg_features as [|? vgg_features]; [discriminate|]).
  destruct vgg_features; [|discriminate].
  cbn in H21. injection H21 as ->.
  eexists. split; [reflexivity|].
  split; [reflexivity|]. split; [reflexivity|]. split; [reflexivity|].
  split; [reflexivity|]. split; [reflexivity|].
  intros x. unfold forward_sources. rewrite extras_loop_value. reflexivity.
Qed.
End ForwardFacts.

Lemma forward_after_mode_calls_witness :
  exists l c p,
    forward (fun _ x => x) (fun c _ => out_channels c) id id id
            (fun ts => foldr Z.add 0 ts) (fun _ t => t) (fun p _ => p)
            (fun _ l _ _ => l) id example_net 3
    = Ok (Raw l c p).
Proof.
  apply (forward_after_mode_calls _ _ _ _ _ _ _ _ _ _ example_net 21 [CallEval]).
  - reflexivity.
  - discriminate.
  - discriminate.
Defined.

Lemma SSD300_init_value_witness :
  exists net : @Net Z,
    SSD300_init vgg16_features 21 0 = inr net /\
    map out_channels (loc net) = [16; 24; 24; 24; 16; 16] /\
    map out_channels (conf net) = [84; 126; 126; 126; 84; 84] /\
    map in_channels (loc net) = [512; 1024; 512; 256; 256; 256].
Proof.
  destruct (SSD300_init_value (fun _ x => x) (fun c _ => out_channels c) id id
              vgg16_features 21 0 (conv 512 512 3 1 1) 1 eq_refl eq_refl)
    as (net & H & _ & _ & _ & Hl & Hc & _).
  exists net. split; [exact H|]. rewrite Hl, Hc. repeat split.
Defined.

End ModelFacts.

(** * Properties of evaluate.py *)

Module EvaluateFacts.
Import Evaluate.

(** ** IoU *)

Lemma fdiv_num (x y : Q) : ~ (y == 0)%Q -> fdiv x y = FNum (x / y).
Proof.
  intros H. unfold fdiv. destruct (Qeq_bool y 0) eqn:E; [|reflexivity].
  apply Qeq_bool_iff in E. contradiction.
Qed.

Lemma areas_map (boxes : list Box) : areas boxes = map box_area boxes.
Proof.
  unfold areas. induction boxes as [|b boxes IH]; [reflexivity|].
  cbn. f_equal. exact IH.
Qed.

Lemma compute_iou_map (bx : Box) (boxes : list Box) :
  compute_iou bx boxes (box_area bx) (map box_area boxes)
  = map (box_iou bx) boxes.
Proof.
  unfold compute_iou. induction boxes as [|b boxes IH]; [reflexivity|].
  cbn. f_equal. exact IH.
Qed.

Lemma set_column_map {A B} (f : B -> list A) (g : B -> A) (i : nat) (l : list B) :
  set_column (map f l) i (map g l) = map (fun b => <[i := g b]> (f b)) l.
Proof.
  unfold set_column. induction l as [|b l IH]; [reflexivity|].
  cbn. f_equal. exact IH.
Qed.

(** The matrix after the first [k] columns have been assigned. *)
Lemma compute_overlaps_columns (boxes1 boxes2 : list Box) (d k : nat) :
  (k + d = length boxes2)%nat ->
  fold_left
    (fun overlaps i =>
       match boxes2 !! i, map box_area boxes2 !! i with
       | Some b, Some a =>
           set_column overlaps i (compute_iou b boxes1 a (map box_area boxes1))
       | _, _ => overlaps
       end)
    (seq k d)
    (map (fun a => map (fun s => box_iou s a) (take k boxes2)
                   ++ replicate d (FNum 0)) boxes1)
  = map (fun a => map (fun s => box_iou s a) boxes2) boxes1.
Proof.
  revert k. induction d as [|d IH]; intros k Hk.
  - cbn. apply map_ext. intros a. rewrite app_nil_r.
    rewrite take_ge by lia. reflexivity.
  - cbn [seq fold_left].
    destruct (lookup_lt_is_Some_2 boxes2 k) as [b Hb]; [lia|].
    rewrite Hb, list_lookup_fmap, Hb. cbn [fmap option_fmap option_map].
    rewrite compute_iou_map, set_column_map.
    rewrite <- (IH (S k)) by lia. f_equal.
    apply map_ext. intros a.
    rewrite (take_S_r _ _ _ Hb), map_app. cbn [map replicate].
    rewrite <- app_assoc. cbn [app].
    rewrite insert_app_r_alt; rewrite length_map, length_take; [|lia].
    replace (k - k `min` length boxes2)%nat with 0%nat by lia.
    reflexivity.
Qed.

(** [compute_overlaps] is the pairwise IoU matrix. *)
Lemma compute_overlaps_pairwise (boxes1 boxes2 : list Box) :
  compute_overlaps boxes1 boxes2 = pairwise_iou boxes1 boxes2.
Proof.
  unfold compute_overlaps, pairwise_iou. rewrite !areas_map.
  rewrite <- (compute_overlaps_columns boxes1 boxes2 (length boxes2) 0) by lia.
  f_equal. induction boxes1 as [|a l IH]; [reflexivity|].
  cbn. f_equal. exact IH.
Qed.

Lemma compute_iou_single (a b : Box) :
  compute_iou a [b] (box_area a) [box_area b] = [box_iou a b].
Proof. reflexivity. Qed.

Lemma compute_overlaps_single (a b : Box) :
  compute_overlaps [a] [b] = [[box_iou b a]].
Proof. reflexivity. Qed.

Lemma box_intersection_self (b : Box) :
  (c0 b < c2 b)%Q -> (c1 b < c3 b)%Q ->
  (box_intersection b b == box_area b)%Q.
Proof.
  intros H0 H1. unfold box_intersection, box_area.
  rewrite !Q.min_id, !Q.max_id.
  rewrite !Q.max_l by lra. ring.
Qed.

Lemma box_iou_self (b : Box) :
  (c0 b < c2 b)%Q -> (c1 b < c3 b)%Q -> feq (box_iou b b) (FNum 1).
Proof.
  intros H0 H1. unfold box_iou.
  pose proof (box_intersection_self b H0 H1) as Hi.
  assert (Ha : (0 < box_area b)%Q).
  { unfold box_area. apply Qmult_lt_0_compat; lra. }
  rewrite fdiv_num by lra. simpl. field_simplify_eq; lra.
Qed.

Lemma box_intersection_disjoint (a b : Box) :
  disjoint a b -> (box_intersection a b == 0)%Q.
Proof.
  intros H. unfold box_intersection.
  pose proof (Q.le_min_l (c3 a) (c3 b)). pose proof (Q.le_min_r (c3 a) (c3 b)).
  pose proof (Q.le_max_l (c1 a) (c1 b)). pose proof (Q.le_max_r (c1 a) (c1 b)).
  pose proof (Q.le_min_l (c2 a) (c2 b)). pose proof (Q.le_min_r (c2 a) (c2 b)).
  pose proof (Q.le_max_l (c0 a) (c0 b)). pose proof (Q.le_max_r (c0 a) (c0 b)).
  destruct H as [H|[H|[H|H]]].
  1,2: rewrite (Q.max_r (_ - _) 0) by lra; ring.
  1,2: rewrite (Q.max_r (Qmin (c2 a) (c2 b) - _) 0) by lra; ring.
Qed.

Lemma box_iou_disjoint (a b : Box) :
  disjoint a b -> ~ (box_area a + box_area b == 0)%Q ->
  feq (box_iou a b) (FNum 0).
Proof.
  intros H Hne. unfold box_iou.
  pose proof (box_intersection_disjoint a b H) as Hi.
  rewrite fdiv_num by lra. simpl. rewrite Hi. field. lra.
Qed.

Lemma disjoint_sym (a b : Box) : disjoint a b -> disjoint b a.
Proof. unfold disjoint. tauto. Qed.

(** C6, as stated, fails on boxes of zero area: the IoU of a box with
    itself is then [0/0] and not 1.0, and the IoU of two such boxes that do
    not overlap is [0/0] and not 0.0. *)
Lemma iou_zero_area_boxes :
  compute_overlaps [box 0 0 0 0] [box 0 0 0 0] = [[NaN]] /\
  compute_iou (box 0 0 0 0) [box 0 0 0 0] 0 [0%Q] = [NaN] /\
  ~ feq NaN (FNum 1) /\
  disjoint (box 0 0 0 0) (box 5 5 5 5) /\
  compute_overlaps [box 0 0 0 0] [box 5 5 5 5] = [[NaN]] /\
  ~ feq NaN (FNum 0).
Proof.
  repeat split; try (intros []); try reflexivity.
  left. discriminate.
Qed.

Lemma int_within_mono (B B' : Z) (q : Q) :
  B <= B' -> int_within B q -> int_within B' q.
Proof. intros HB (z & Hz & Hb). exists z. split; [exact Hz|lia]. Qed.

Lemma int_within_0 (B : Z) : 0 <= B -> int_within B 0.
Proof. intros HB. exists 0. split; [reflexivity|lia]. Qed.

Lemma int_within_minus (B B' : Z) (x y : Q) :
  int_within B x -> int_within B' y -> int_within (B + B') (x - y).
Proof.
  intros (a & Ha & Hba) (b & Hb & Hbb). exists (a - b). split; [|lia].
  rewrite Ha, Hb. unfold Qeq. cbn. lia.
Qed.

Lemma int_within_plus (B B' : Z) (x y : Q) :
  int_within B x -> int_within B' y -> int_within (B + B') (x + y).
Proof.
  intros (a & Ha & Hba) (b & Hb & Hbb). exists (a + b). split; [|lia].
  rewrite Ha, Hb. unfold Qeq. cbn. lia.
Qed.

Lemma int_within_mult (B B' : Z) (x y : Q) :
  int_within B x -> int_within B' y -> int_within (B * B') (x * y).
Proof.
  intros (a & Ha & Hba) (b & Hb & Hbb). exists (a * b). split.
  - rewrite Ha, Hb. unfold Qeq. cbn. lia.
  - rewrite Z.abs_mul. apply Z.mul_le_mono_nonneg; lia.
Qed.

Lemma int_within_max (B : Z) (x y : Q) :
  int_within B x -> int_within B y -> int_within B (Qmax x y).
Proof.
  intros (a & Ha & Hba) (b & Hb & Hbb).
  destruct (Q.max_spec x y) as [[_ E]|[_ E]].
  - exists b. split; [rewrite E; exact Hb|exact Hbb].
  - exists a. split; [rewrite E; exact Ha|exact Hba].
Qed.

Lemma int_within_min (B : Z) (x y : Q) :
  int_within B x -> int_within B y -> int_within B (Qmin x y).
Proof.
  intros (a & Ha & Hba) (b & Hb & Hbb).
  destruct (Q.min_spec x y) as [[_ E]|[_ E]].
  - exists a. split; [rewrite E; exact Ha|exact Hba].
  - exists b. split; [rewrite E; exact Hb|exact Hbb].
Qed.

(** On boxes with small integer coordinates no operation of the IoU
    computation rounds. *)
Lemma iou_intermediates_exact (bx b : Box) :
  small_int_box bx -> small_int_box b ->
  Forall exact_int (iou_intermediates bx b).
Proof.
  intros (X0 & X1 & X2 & X3) (B0 & B1 & B2 & B3).
  pose proof (int_within_minus _ _ _ _ X2 X0) as Hxh.
  pose proof (int_within_minus _ _ _ _ X3 X1) as Hxw.
  pose proof (int_within_minus _ _ _ _ B2 B0) as Hbh.
  pose proof (int_within_minus _ _ _ _ B3 B1) as Hbw.
  pose proof (int_within_mult _ _ _ _ Hxh Hxw) as Hxa.
  pose proof (int_within_mult _ _ _ _ Hbh Hbw) as Hba.
  pose proof (int_within_max _ _ _ X0 B0) as Hy1.
  pose proof (int_within_min _ _ _ X2 B2) as Hy2.
  pose proof (int_within_max _ _ _ X1 B1) as Hx1.
  pose proof (int_within_min _ _ _ X3 B3) as Hx2.
  pose proof (int_within_minus _ _ _ _ Hx2 Hx1) as Hdx.
  pose proof (int_within_minus _ _ _ _ Hy2 Hy1) as Hdy.
  pose proof (int_within_max _ _ _ Hdx (int_within_0 (2 ^ 10 + 2 ^ 10) ltac:(vm_compute; discriminate))) as Hcx.
  pose proof (int_within_max _ _ _ Hdy (int_within_0 (2 ^ 10 + 2 ^ 10) ltac:(vm_compute; discriminate))) as Hcy.
  pose proof (int_within_mult _ _ _ _ Hcx Hcy) as Hi.
  pose proof (int_within_plus _ _ _ _ Hxa Hba) as Hs.
  pose proof (int_within_minus _ _ _ _ Hs Hi) as Hu.
  unfold iou_intermediates, exact_int, box_area, box_intersection in *.
  repeat (apply Forall_cons; split;
          [eapply int_within_mono; [|eassumption]; vm_compute; discriminate|]).
  apply Forall_nil. exact I.
Qed.

Lemma small_int_box_intro (a b c d : Z) :
  Z.abs a <= 2 ^ 10 -> Z.abs b <= 2 ^ 10 -> Z.abs c <= 2 ^ 10 ->
  Z.abs d <= 2 ^ 10 ->
  small_int_box (box (inject_Z a) (inject_Z b) (inject_Z c) (inject_Z d)).
Proof.
  intros Ha Hb Hc Hd.
  split; [|split; [|split]]; eexists; (split; [reflexivity|assumption]).
Qed.

(** C6, amended: on boxes whose coordinates are integers of magnitude at
    most 2^10 = 1024, where every value the computation forms is an integer
    of magnitude at most 2^24 and no float operation rounds, underflows or
    overflows: for two identical boxes of positive height and width the IoU
    is 1.0; for two boxes with zero spatial overlap whose areas have a
    positive sum the IoU is 0.0 (the intersection is clamped at zero); for
    A = (0,0,10,10) and B = (0,0,5,5) the IoU is 0.25.  Both for
    [compute_iou] and for [compute_overlaps]. *)
Theorem iou_cases (b a1 a2 : Box) :
  small_int_box b -> (c0 b < c2 b)%Q -> (c1 b < c3 b)%Q ->
  small_int_box a1 -> small_int_box a2 ->
  disjoint a1 a2 -> (0 < box_area a1 + box_area a2)%Q ->
  (exists v, compute_overlaps [b] [b] = [[v]] /\
             compute_iou b [b] (box_area b) [box_area b] = [v] /\
             feq v (FNum 1) /\
             Forall exact_int (iou_intermediates b b)) /\
  (exists v, compute_overlaps [a1] [a2] = [[v]] /\
             compute_iou a2 [a1] (box_area a2) [box_area a1] = [v] /\
             feq v (FNum 0) /\ (box_intersection a2 a1 == 0)%Q /\
             Forall exact_int (iou_intermediates a2 a1)) /\
  (exists v, compute_overlaps [box 0 0 10 10] [box 0 0 5 5] = [[v]] /\
             compute_iou (box 0 0 5 5) [box 0 0 10 10] 25 [100%Q] = [v] /\
             feq v (FNum (1 # 4)) /\
             Forall exact_int
               (iou_intermediates (box 0 0 5 5) (box 0 0 10 10))).
Proof.
  intros Sb H0 H1 S1 S2 Hd Hpos. split; [|split].
  - exists (box_iou b b). split; [reflexivity|]. split; [reflexivity|].
    split; [apply box_iou_self; assumption|].
    apply iou_intermediates_exact; assumption.
  - exists (box_iou a2 a1). split; [reflexivity|]. split; [reflexivity|].
    split; [|split].
    + apply box_iou_disjoint; [apply disjoint_sym, Hd|]. lra.
    + apply box_intersection_disjoint, disjoint_sym, Hd.
    + apply iou_intermediates_exact; assumption.
  - eexists. split; [reflexivity|]. split; [reflexivity|].
    split; [reflexivity|].
    apply iou_intermediates_exact;
      [apply (small_int_box_intro 0 0 5 5)|apply (small_int_box_intro 0 0 10 10)];
      vm_compute; discriminate.
Qed.

Lemma iou_cases_witness :
  (exists v, compute_overlaps [box 0 0 10 10] [box 0 0 10 10] = [[v]] /\
             feq v (FNum 1)) /\
  (exists v, compute_overlaps [box 0 0 1 1] [box 2 2 3 3] = [[v]] /\
             feq v (FNum 0)).
Proof.
  destruct (iou_cases (box 0 0 10 10) (box 0 0 1 1) (box 2 2 3 3))
    as ((v & Hv & _ & Hv1 & _) & (w & Hw & _ & Hw0 & _) & _).
  - apply (small_int_box_intro 0 0 10 10); vm_compute; discriminate.
  - reflexivity.
  - reflexivity.
  - apply (small_int_box_intro 0 0 1 1); vm_compute; discriminate.
  - apply (small_int_box_intro 2 2 3 3); vm_compute; discriminate.
  - left. discriminate.
  - reflexivity.
  - split; [exists v | exists w]; split; assumption.
Defined.

(** ** The match matrix *)

Lemma find_true_Some (l : list bool) (k : nat) :
  find_true l = Some k ->
  l !! k = Some true /\ forall j, (j < k)%nat -> l !! j = Some false.
Proof.
  revert k. induction l as [|x l IH]; intros k H; [discriminate|].
  cbn in H. destruct x.
  - injection H as <-. split; [reflexivity|]. intros j Hj. lia.
  - destruct (find_true l) as [k'|]; [|discriminate].
    injection H as <-. destruct (IH k' eq_refl) as [H1 H2].
    split; [exact H1|]. intros [|j] Hj; [reflexivity|]. apply H2. lia.
Qed.

Lemma find_true_None (l : list bool) (j : nat) (x : bool) :
  find_true l = None -> l !! j = Some x -> x = false.
Proof.
  revert j. induction l as [|y l IH]; intros j H Hj; [discriminate|].
  cbn in H. destruct y; [discriminate|].
  destruct (find_true l) eqn:E; [discriminate|].
  destruct j as [|j]; [injection Hj as <-; reflexivity|].
  apply (IH j eq_refl Hj).
Qed.

Lemma argmax_from_find (bi : nat) (best : bool) (i : nat) (l : list bool) :
  argmax_from bi best i l
  = if best then bi else default bi ((fun k => (i + k)%nat) <$> find_true l).
Proof.
  revert bi best i. induction l as [|x l IH]; intros bi best i.
  - destruct best; reflexivity.
  - cbn [argmax_from find_true]. destruct best, x; cbn [negb andb]; rewrite IH.
    + reflexivity.
    + reflexivity.
    + cbn. f_equal. lia.
    + destruct (find_true l); cbn; [f_equal; lia|reflexivity].
Qed.

Lemma argmax_find (l : list bool) :
  l <> [] -> argmax l = Ok (default 0%nat (find_true l)).
Proof.
  destruct l as [|x l]; [congruence|]. intros _.
  cbn [argmax find_true]. rewrite argmax_from_find.
  destruct x; [reflexivity|]. destruct (find_true l); reflexivity.
Qed.

Lemma first_max_at_first_true (row : list bool) (k : nat) :
  find_true row = Some k -> first_max row k = true.
Proof.
  intros H. destruct (find_true_Some row k H) as [Hk Hlt].
  unfold first_max. rewrite Hk. cbn [default from_option id].
  apply andb_true_intro. split; apply forallb_forall; intros x Hx.
  - destruct x; reflexivity.
  - apply list_elem_of_In, list_elem_of_lookup in Hx. destruct Hx as [j Hj].
    pose proof (lookup_lt_Some _ _ _ Hj) as Hlen. rewrite length_take in Hlen.
    rewrite lookup_take_lt in Hj by lia. rewrite Hlt in Hj by lia.
    injection Hj as <-. reflexivity.
Qed.

Lemma first_max_after_first_true (row : list bool) (k j : nat) :
  find_true row = Some k -> (k < j)%nat -> row !! j = Some true ->
  first_max row j = false.
Proof.
  intros H Hkj Hj. destruct (find_true_Some row k H) as [Hk _].
  unfold first_max. rewrite Hj. cbn [default from_option id].
  apply andb_false_intro2. apply not_true_is_false. intros Hall.
  rewrite forallb_forall in Hall.
  specialize (Hall true). cbn in Hall.
  assert (In true (take j row)) as Hin.
  { apply list_elem_of_In, list_elem_of_lookup. exists k.
    rewrite lookup_take_lt by lia. exact Hk. }
  specialize (Hall Hin). discriminate.
Qed.

Lemma keep_argmax_scatter (row : list bool) :
  keep_argmax row = scatter_row row (default 0%nat (find_true row)).
Proof.
  apply list_eq. intros j. unfold keep_argmax, scatter_row.
  rewrite list_lookup_imap.
  destruct (find_true row) as [k|] eqn:E; cbn [default from_option id].
  - destruct (find_true_Some row k E) as [Hk Hlt]. rewrite Hk.
    destruct (decide (j = k)) as [->|Hne].
    + rewrite list_lookup_insert_eq
        by (rewrite length_map; eapply lookup_lt_Some, Hk).
      rewrite Hk. cbn. rewrite (first_max_at_first_true row k E). reflexivity.
    + rewrite list_lookup_insert_ne by congruence.
      rewrite list_lookup_fmap.
      destruct (row !! j) as [x|] eqn:Hj; [|reflexivity]. cbn. f_equal.
      destruct x; [|reflexivity]. cbn.
      destruct (Nat.lt_ge_cases j k) as [Hlt'|Hge].
      * rewrite Hlt in Hj by exact Hlt'. discriminate.
      * apply (first_max_after_first_true row k j E); [lia|exact Hj].
  - assert (Hall : forall i x, row !! i = Some x -> x = false)
      by (intros i x; apply find_true_None, E).
    assert (Hrhs : (match row !! 0%nat with
                    | Some v => <[0%nat := v]> (map (fun _ => false) row)
                    | None => map (fun _ => false) row
                    end) !! j = (fun _ => false) <$> row !! j).
    { destruct (row !! 0%nat) as [v|] eqn:H0.
      - rewrite (Hall _ _ H0).
        destruct (decide (j = 0%nat)) as [->|Hne].
        + rewrite list_lookup_insert_eq
            by (rewrite length_map; eapply lookup_lt_Some, H0).
          rewrite H0. reflexivity.
        + rewrite list_lookup_insert_ne by congruence.
          apply list_lookup_fmap.
      - apply list_lookup_fmap. }
    rewrite Hrhs. destruct (row !! j) as [x|] eqn:Hj; [|reflexivity].
    rewrite (Hall _ _ Hj). reflexivity.
Qed.

Lemma argmax_rows_find (m : list (list bool)) :
  Forall (fun row => row <> []) m ->
  argmax_rows m = Ok (map (fun row => default 0%nat (find_true row)) m).
Proof.
  induction 1 as [|row m Hrow _ IH]; [reflexivity|].
  cbn [argmax_rows]. rewrite (argmax_find row Hrow). cbn. rewrite IH.
  reflexivity.
Qed.

Lemma scatter_rows (m : list (list bool)) :
  zip_with (fun '(orow, row) a =>
              match row !! a with
              | Some v => <[a := v]> orow
              | None => orow
              end)
           (zip (map (map (fun _ => false)) m) m)
           (map (fun row => default 0%nat (find_true row)) m)
  = map keep_argmax m.
Proof.
  induction m as [|row m IH]; [reflexivity|].
  cbn. rewrite IH. f_equal. rewrite keep_argmax_scatter. reflexivity.
Qed.

Lemma Evaluator_compute_iou_value (tar src : list Box) (t : Q) :
  src <> [] ->
  Evaluator_compute_iou tar src t = Ok (compute_iou_spec tar src t).
Proof.
  intros Hsrc. unfold Evaluator_compute_iou, compute_iou_spec.
  rewrite compute_overlaps_pairwise.
  destruct src as [|s src]; [congruence|]. cbn [length Nat.eqb].
  rewrite argmax_rows_find.
  - cbn. rewrite scatter_rows. reflexivity.
  - unfold pairwise_iou. rewrite Forall_fmap, Forall_fmap.
    apply Forall_forall. intros b _. discriminate.
Qed.

(** C2: for a non-empty array of ground truths (and any array of predicted
    boxes), [Evaluator.compute_iou] returns the matrix obtained by
    thresholding the pairwise IoU matrix at [>= t], keeping in each row only
    the entry at the argmax of the thresholded row (the lowest index among
    ties) and re-thresholding. *)
Theorem compute_iou_refines (tar src : list Box) (t : Q) :
  src <> [] ->
  Evaluator_compute_iou tar src t = Ok (compute_iou_spec tar src t).
Proof.
  intros Hsrc. unfold Evaluator_compute_iou, compute_iou_spec.
  (* line 83: the thresholded pairwise matrix *)
  rewrite compute_overlaps_pairwise.
  set (thresholded := map (map (fun v => fge v t)) (pairwise_iou tar src)).
  assert (Hrows : Forall (fun row => row <> []) thresholded).
  { unfold thresholded, pairwise_iou. rewrite !Forall_fmap.
    apply Forall_forall. intros b _. destruct src; [congruence|discriminate]. }
  (* line 84: the axis is not empty, argmax is the first maximum of each row *)
  destruct src as [|s src]; [congruence|]. cbn [length Nat.eqb].
  rewrite (argmax_rows_find thresholded Hrows). cbn.
  (* lines 85-86: the scatter keeps the argmax entry of each row *)
  rewrite scatter_rows. reflexivity.
Qed.

Lemma compute_iou_refines_witness :
  Evaluator_compute_iou [box 0 0 10 10] [box 0 0 5 5; box 0 0 10 10] (1 # 2)
  = Ok [[false; true]].
Proof.
  rewrite (compute_iou_refines [box 0 0 10 10] [box 0 0 5 5; box 0 0 10 10]
             (1 # 2)); [reflexivity|discriminate].
Defined.

(** The argmax is that of the thresholded row: of two ground truths that
    both reach the threshold the first is kept, also when the second has the
    larger IoU (here 9/10 against 1). *)
Lemma first_match_kept :
  compute_overlaps [box 0 0 10 10] [box 0 0 9 10; box 0 0 10 10]
    = [[FNum (90 # 100); FNum (100 # 100)]] /\
  Evaluator_compute_iou [box 0 0 10 10] [box 0 0 9 10; box 0 0 10 10] (1 # 2)
    = Ok [[true; false]].
Proof. split; vm_compute; reflexivity. Qed.

(** For a threshold in (0, 1] the result is the thresholded matrix with all
    but the first [true] of each row cleared. *)
Lemma compute_iou_spec_entry (tar src : list Box) (t : Q) (i j : nat)
    (row : list fval) (v : fval) :
  (0 < t)%Q -> (t <= 1)%Q ->
  pairwise_iou tar src !! i = Some row -> row !! j = Some v ->
  exists out,
    compute_iou_spec tar src t !! i = Some out /\
    out !! j = Some (fge v t && first_max (map (fun w => fge w t) row) j).
Proof.
  intros H0 H1 Hrow Hv. unfold compute_iou_spec.
  rewrite !list_lookup_fmap, Hrow. cbn. eexists. split; [reflexivity|].
  unfold keep_argmax. rewrite list_lookup_fmap, list_lookup_imap.
  rewrite list_lookup_fmap, Hv. cbn. f_equal.
  destruct (fge v t && first_max _ j); cbn.
  - apply Qle_bool_iff. exact H1.
  - destruct (Qle_bool t 0) eqn:E; [|reflexivity].
    apply Qle_bool_iff in E. lra.
Qed.


(** ** The counters *)

Lemma update_patch_split ids scores gids iou k ev p t :
  update_patch ids scores gids iou k (np_sum (eq_mask gids k)) ev (p, t)
  = d ← patch_delta ids scores gids iou k t; apply_delta d p k ev.
Proof.
  unfold update_patch, patch_delta, apply_delta. unfold_bind.
  destruct (logical_and _ _) as [mask|]; [|reflexivity].
  destruct (np_sum mask =? 0); [reflexivity|].
  destruct iou as [m|]; [|reflexivity].
  destruct (select mask m) as [rows|]; [|reflexivity].
  destruct (select_cols _ rows) as [sub|]; reflexivity.
Qed.

Lemma iadd_Ok (l l' : list Z) (i : nat) (d : Z) :
  iadd l i d = Ok l' ->
  length l' = length l /\
  entry l' i = wrap32 (entry l i + d) /\
  forall j, j <> i -> entry l' j = entry l j.
Proof.
  unfold iadd, entry. destruct (l !! i) as [v|] eqn:E; [|discriminate].
  intros H. injection H as <-. split; [apply length_alter|]. split.
  - rewrite list_lookup_alter_eq, E. reflexivity.
  - intros j Hj. rewrite list_lookup_alter_ne by congruence. reflexivity.
Qed.

Lemma iadd_total (l : list Z) (i : nat) (d : Z) :
  (i < length l)%nat -> is_Ok (iadd l i d).
Proof.
  intros H. unfold iadd.
  destruct (lookup_lt_is_Some_2 l i H) as [v ->]. eexists. reflexivity.
Qed.

Lemma iadd2_Ok (m m' : list (list Z)) (p k : nat) (d : Z) :
  iadd2 m p k d = Ok m' ->
  cell m' p k = wrap32 (cell m p k + d) /\
  (forall p' k', (p', k') <> (p, k) -> cell m' p' k' = cell m p' k') /\
  (forall P C, shape P C m -> shape P C m').
Proof.
  unfold iadd2. destruct (m !! p) as [row|] eqn:E; [|discriminate].
  unfold_bind. destruct (iadd row k d) as [row'|] eqn:Er; [|discriminate].
  intros H. injection H as <-.
  destruct (iadd_Ok _ _ _ _ Er) as (Hlen & Hk & Hother).
  pose proof (lookup_lt_Some _ _ _ E) as Hp.
  unfold cell, entry in *. split; [|split].
  - rewrite list_lookup_insert_eq by exact Hp. rewrite E. cbn. exact Hk.
  - intros p' k' Hne. destruct (decide (p' = p)) as [->|Hp'].
    + rewrite list_lookup_insert_eq by exact Hp. rewrite E. cbn.
      apply Hother. congruence.
    + rewrite list_lookup_insert_ne by congruence. reflexivity.
  - intros P C [HP HC]. split; [rewrite length_insert; exact HP|].
    apply Forall_insert; [exact HC|].
    rewrite Hlen. eapply Forall_lookup_1 in HC; [exact HC|exact E].
Qed.

Lemma iadd2_total (m : list (list Z)) (P C p k : nat) (d : Z) :
  shape P C m -> (p < P)%nat -> (k < C)%nat -> is_Ok (iadd2 m p k d).
Proof.
  intros [HP HC] Hp Hk. unfold iadd2.
  destruct (lookup_lt_is_Some_2 m p) as [row E]; [lia|]. rewrite E.
  destruct (iadd_total row k d) as [row' Er].
  { eapply Forall_lookup_1 in HC; [|exact E]. cbn in HC. lia. }
  unfold_bind. rewrite Er. eexists. reflexivity.
Qed.

Lemma same_frame_refl ev : same_frame ev ev.
Proof. split; auto. Qed.

Lemma same_frame_trans ev1 ev2 ev3 :
  same_frame ev1 ev2 -> same_frame ev2 ev3 -> same_frame ev1 ev3.
Proof.
  intros [] []. split; try congruence. auto.
Qed.

Lemma wf_ev_shapes ev :
  wf_ev ev <->
  shape (length (patch ev)) (n_class ev) (TP ev) /\
  shape (length (patch ev)) (n_class ev) (FP ev) /\
  shape (length (patch ev)) (n_class ev) (FN ev) /\
  length (gt_counts ev) = n_class ev /\ length (pd_counts ev) = n_class ev.
Proof.
  unfold shape. split.
  - intros []. tauto.
  - intros ((? & ?) & (? & ?) & (? & ?) & ? & ?). split; assumption.
Qed.

Lemma apply_delta_Ok (d : delta) (p k : nat) (ev ev' : Evaluator) :
  apply_delta d p k ev = Ok ev' ->
  same_frame ev ev' /\
  gt_counts ev' = gt_counts ev /\ pd_counts ev' = pd_counts ev /\
  cells ev' p k = cell_after d (cells ev p k) /\
  forall p' k', (p', k') <> (p, k) -> cells ev' p' k' = cells ev p' k'.
Proof.
  unfold apply_delta, cells. unfold_bind. destruct d as [g|a b g].
  - destruct (iadd2 (FN ev) p k g) as [fn|] eqn:Efn; [|discriminate].
    intros H. injection H as <-.
    destruct (iadd2_Ok _ _ _ _ _ Efn) as (H1 & H2 & H3).
    split; [|split; [reflexivity|split; [reflexivity|split]]].
    + split; try reflexivity. rewrite !wf_ev_shapes. cbn.
      intros (? & ? & ? & ? & ?). auto 10.
    + cbn. rewrite H1. reflexivity.
    + intros p' k' Hne. cbn. rewrite H2 by exact Hne. reflexivity.
  - destruct (iadd2 (TP ev) p k a) as [tp|] eqn:Etp; [|discriminate].
    destruct (iadd2 (FP ev) p k b) as [fp|] eqn:Efp; [|discriminate].
    destruct (iadd2 (FN ev) p k g) as [fn|] eqn:Efn; [|discriminate].
    intros H. injection H as <-.
    destruct (iadd2_Ok _ _ _ _ _ Etp) as (T1 & T2 & T3).
    destruct (iadd2_Ok _ _ _ _ _ Efp) as (P1 & P2 & P3).
    destruct (iadd2_Ok _ _ _ _ _ Efn) as (N1 & N2 & N3).
    split; [|split; [reflexivity|split; [reflexivity|split]]].
    + split; try reflexivity. rewrite !wf_ev_shapes. cbn.
      intros (? & ? & ? & ? & ?). auto 10.
    + cbn. rewrite T1, P1, N1. reflexivity.
    + intros p' k' Hne. cbn.
      rewrite T2, P2, N2 by exact Hne. reflexivity.
Qed.

Lemma apply_delta_total (d : delta) (p k : nat) (ev : Evaluator) :
  wf_ev ev -> (p < length (patch ev))%nat -> (k < n_class ev)%nat ->
  is_Ok (apply_delta d p k ev).
Proof.
  rewrite wf_ev_shapes. intros (HT & HP & HN & _) Hp Hk.
  unfold apply_delta. unfold_bind. destruct d as [g|a b g].
  - destruct (iadd2_total _ _ _ p k g HN Hp Hk) as [fn ->]. eexists; reflexivity.
  - destruct (iadd2_total _ _ _ p k a HT Hp Hk) as [tp ->].
    destruct (iadd2_total _ _ _ p k b HP Hp Hk) as [fp ->].
    destruct (iadd2_total _ _ _ p k g HN Hp Hk) as [fn ->].
    eexists; reflexivity.
Qed.

Lemma bind_Ok {A B} (m : result A) (f : A -> result B) (b : B) :
  (x ← m; f x) = Ok b -> exists a, m = Ok a /\ f a = Ok b.
Proof. unfold_bind. destruct m as [a|]; [eauto|discriminate]. Qed.

Section Loops.
Variable ids : list Z.
Variable scores : list Q.
Variable gids : list Z.
Variable iou : option (list (list bool)).

Lemma patch_loop_Ok (k : nat) (ts : list Q) :
  forall (s : nat) (ev ev' : Evaluator),
  for_loop (update_patch ids scores gids iou k (np_sum (eq_mask gids k)))
           ev (zip (seq s (length ts)) ts) = Ok ev' ->
  same_frame ev ev' /\
  gt_counts ev' = gt_counts ev /\ pd_counts ev' = pd_counts ev /\
  (forall p k', (k' <> k \/ p < s \/ s + length ts <= p)%nat ->
                cells ev' p k' = cells ev p k') /\
  (forall i t, ts !! i = Some t ->
     exists d, patch_delta ids scores gids iou k t = Ok d /\
               cells ev' (s + i) k = cell_after d (cells ev (s + i) k)).
Proof.
  induction ts as [|t ts IH]; intros s ev ev' H.
  - injection H as <-. split; [apply same_frame_refl|].
    repeat split; try reflexivity. intros i t Hi. discriminate.
  - cbn [length seq zip zip_with for_loop] in H.
    apply bind_Ok in H. destruct H as (ev1 & H1 & H).
    rewrite update_patch_split in H1.
    apply bind_Ok in H1. destruct H1 as (d & Hd & H1).
    apply apply_delta_Ok in H1. destruct H1 as (F1 & G1 & P1 & C1 & O1).
    apply IH in H. destruct H as (F2 & G2 & P2 & O2 & C2).
    split; [eapply same_frame_trans; eassumption|].
    split; [congruence|]. split; [congruence|]. split.
    + intros p k' Hout. rewrite O2 by (cbn in Hout; lia).
      apply O1. intros E. injection E as -> ->. cbn in Hout. lia.
    + intros [|i] t' Hi.
      * injection Hi as <-. exists d. split; [exact Hd|].
        rewrite Nat.add_0_r. rewrite O2 by lia. exact C1.
      * destruct (C2 i t' Hi) as (d' & Hd' & Hc). exists d'.
        split; [exact Hd'|].
        replace (s + S i)%nat with (S s + i)%nat by lia.
        rewrite Hc. f_equal. apply O1. intros E. injection E as E. lia.
Qed.

Lemma patch_loop_total (k : nat) (ts : list Q) :
  forall (s : nat) (ev : Evaluator),
  wf_ev ev -> (k < n_class ev)%nat -> (s + length ts <= length (patch ev))%nat ->
  (forall t, t ∈ ts -> is_Ok (patch_delta ids scores gids iou k t)) ->
  is_Ok (for_loop (update_patch ids scores gids iou k (np_sum (eq_mask gids k)))
                  ev (zip (seq s (length ts)) ts)).
Proof.
  induction ts as [|t ts IH]; intros s ev Hwf Hk Hs Hd.
  - eexists. reflexivity.
  - cbn [length seq zip zip_with for_loop]. cbn [length] in Hs.
    rewrite update_patch_split.
    destruct (Hd t) as [d Ed]; [left|]. rewrite Ed. unfold_bind.
    destruct (apply_delta_total d s k ev Hwf) as [ev1 E1]; [lia|exact Hk|].
    rewrite E1. destruct (apply_delta_Ok _ _ _ _ _ E1) as ([Fn Fp Ft Fw] & _).
    apply IH.
    + auto.
    + rewrite Fn. exact Hk.
    + rewrite Fp. lia.
    + intros t' Ht'. apply Hd. right. exact Ht'.
Qed.

Lemma set_counts_same_frame ev g c :
  length g = length (gt_counts ev) -> length c = length (pd_counts ev) ->
  same_frame ev (set_counts g c ev).
Proof.
  intros Hg Hc. split; try reflexivity. rewrite !wf_ev_shapes. cbn.
  intros (? & ? & ? & ? & ?). repeat split; try congruence; unfold shape in *; tauto.
Qed.

Lemma update_class_Ok (k : nat) (ev ev' : Evaluator) :
  update_class ids scores gids iou ev k = Ok ev' ->
  same_frame ev ev' /\
  entry (gt_counts ev') k
    = wrap32 (entry (gt_counts ev) k + np_sum (eq_mask gids k)) /\
  entry (pd_counts ev') k
    = wrap32 (entry (pd_counts ev) k + np_sum (eq_mask ids k)) /\
  (forall k', k' <> k ->
     entry (gt_counts ev') k' = entry (gt_counts ev) k' /\
     entry (pd_counts ev') k' = entry (pd_counts ev) k' /\
     forall p, cells ev' p k' = cells ev p k') /\
  (forall p t, patch ev !! p = Some t ->
     exists d, patch_delta ids scores gids iou k t = Ok d /\
               cells ev' p k = cell_after d (cells ev p k)).
Proof.
  unfold update_class. intros H.
  apply bind_Ok in H. destruct H as (g & Hg & H).
  apply bind_Ok in H. destruct H as (c & Hc & H).
  apply iadd_Ok in Hg. destruct Hg as (Lg & Eg & Og).
  apply iadd_Ok in Hc. destruct Hc as (Lc & Ec & Oc).
  unfold enumerate in H. cbn [patch set_counts] in H.
  apply patch_loop_Ok in H. destruct H as (F & G & P & O & C).
  cbn [gt_counts pd_counts set_counts] in G, P.
  split; [eapply same_frame_trans;
          [apply (set_counts_same_frame ev g c Lg Lc)|exact F]|].
  rewrite G, P. split; [exact Eg|]. split; [exact Ec|]. split.
  - intros k' Hk'. split; [apply Og, Hk'|]. split; [apply Oc, Hk'|].
    intros p. rewrite O by (left; exact Hk'). reflexivity.
  - intros p t Hp. destruct (C p t Hp) as (d & Hd & Hcell).
    exists d. split; [exact Hd|]. exact Hcell.
Qed.

Lemma update_class_total (k : nat) (ev : Evaluator) :
  wf_ev ev -> (k < n_class ev)%nat ->
  (forall t, t ∈ patch ev -> is_Ok (patch_delta ids scores gids iou k t)) ->
  is_Ok (update_class ids scores gids iou ev k).
Proof.
  intros Hwf Hk Hd. unfold update_class.
  pose proof (wf_gt_counts _ Hwf) as Lg. pose proof (wf_pd_counts _ Hwf) as Lc.
  destruct (iadd_total (gt_counts ev) k (np_sum (eq_mask gids k))) as [g Eg];
    [lia|].
  destruct (iadd_total (pd_counts ev) k (np_sum (eq_mask ids k))) as [c Ec];
    [lia|].
  rewrite Eg, Ec. unfold_bind. unfold enumerate. cbn [patch set_counts].
  apply iadd_Ok in Eg. apply iadd_Ok in Ec.
  apply patch_loop_total.
  - apply (set_counts_same_frame ev g c); [tauto|tauto|exact Hwf].
  - exact Hk.
  - cbn. lia.
  - exact Hd.
Qed.

Lemma class_loop_Ok (n : nat) :
  forall (s : nat) (ev ev' : Evaluator),
  for_loop (update_class ids scores gids iou) ev (seq s n) = Ok ev' ->
  same_frame ev ev' /\
  (forall k, (s <= k < s + n)%nat ->
     entry (gt_counts ev') k
       = wrap32 (entry (gt_counts ev) k + np_sum (eq_mask gids k)) /\
     entry (pd_counts ev') k
       = wrap32 (entry (pd_counts ev) k + np_sum (eq_mask ids k)) /\
     forall p t, patch ev !! p = Some t ->
       exists d, patch_delta ids scores gids iou k t = Ok d /\
                 cells ev' p k = cell_after d (cells ev p k)) /\
  (forall k, (k < s \/ s + n <= k)%nat ->
     entry (gt_counts ev') k = entry (gt_counts ev) k /\
     entry (pd_counts ev') k = entry (pd_counts ev) k /\
     forall p, cells ev' p k = cells ev p k).
Proof.
  induction n as [|n IH]; intros s ev ev' H.
  - injection H as <-. split; [apply same_frame_refl|]. split.
    + intros k Hk. lia.
    + intros k _. auto.
  - cbn [seq for_loop] in H.
    apply bind_Ok in H. destruct H as (ev1 & H1 & H).
    apply update_class_Ok in H1. destruct H1 as (F1 & G1 & P1 & O1 & C1).
    apply IH in H. destruct H as (F2 & In2 & Out2).
    split; [eapply same_frame_trans; eassumption|]. split.
    + intros k Hk. destruct (decide (k = s)) as [->|Hne].
      * destruct (Out2 s) as (g & c & Hcells); [lia|].
        rewrite g, c. split; [exact G1|]. split; [exact P1|].
        intros p t Hp. rewrite Hcells. apply C1, Hp.
      * destruct (In2 k) as (g & c & Hcells); [lia|].
        destruct (O1 k Hne) as (g1 & c1 & Hcells1).
        rewrite g, c, g1, c1. split; [reflexivity|]. split; [reflexivity|].
        intros p t Hp. rewrite <- Hcells1. apply Hcells.
        rewrite (sf_patch _ _ F1). exact Hp.
    + intros k Hk. destruct (Out2 k) as (g & c & Hcells); [lia|].
      destruct (O1 k) as (g1 & c1 & Hcells1); [lia|].
      rewrite g, c. split; [exact g1|]. split; [exact c1|].
      intros p. rewrite Hcells. apply Hcells1.
Qed.

Lemma class_loop_total (n : nat) :
  forall (s : nat) (ev : Evaluator),
  wf_ev ev -> (s + n <= n_class ev)%nat ->
  (forall k t, is_Ok (patch_delta ids scores gids iou k t)) ->
  is_Ok (for_loop (update_class ids scores gids iou) ev (seq s n)).
Proof.
  induction n as [|n IH]; intros s ev Hwf Hs Hd.
  - eexists. reflexivity.
  - cbn [seq for_loop].
    destruct (update_class_total s ev Hwf) as [ev1 E1]; [lia|auto|].
    rewrite E1. unfold_bind.
    destruct (update_class_Ok _ _ _ E1) as ([Fn Fp Ft Fw] & _).
    apply IH; [auto|rewrite Fn; lia|exact Hd].
Qed.
End Loops.

(** ** Shapes of the match matrix and totality of the frame reading *)

Lemma select_Ok {A} (mask : list bool) (l l' : list A) :
  select mask l = Ok l' <-> length mask = length l /\ l' = mask_filter mask l.
Proof.
  unfold select. destruct (length mask =? length l)%nat eqn:E.
  - apply Nat.eqb_eq in E. split; [intros H; injection H as <-; auto|].
    intros [_ ->]. reflexivity.
  - apply Nat.eqb_neq in E. split; [discriminate|]. intros [H _]. contradiction.
Qed.

Lemma select_cols_Ok {A} (mask : list bool) (m m' : list (list A)) :
  select_cols mask m = Ok m' <->
  Forall (fun r => length r = length mask) m /\ m' = map (mask_filter mask) m.
Proof.
  revert m'. induction m as [|row m IH]; intros m'.
  - cbn. split; [intros H; injection H as <-; auto|]. intros [_ ->]. reflexivity.
  - cbn [select_cols map]. split.
    + intros H. apply bind_Ok in H. destruct H as (row' & Hr & H).
      apply bind_Ok in H. destruct H as (m'' & Hm & H). injection H as <-.
      apply select_Ok in Hr. destruct Hr as [Hl ->].
      apply IH in Hm. destruct Hm as [Hf ->]. split; [|reflexivity].
      constructor; [symmetry; exact Hl|exact Hf].
    + intros [Hf ->]. inversion Hf as [|? ? Hl Hf']; subst.
      assert (select mask row = Ok (mask_filter mask row)) as ->
        by (apply select_Ok; split; [symmetry; exact Hl|reflexivity]).
      assert (select_cols mask m = Ok (map (mask_filter mask) m)) as ->
        by (apply IH; split; [exact Hf'|reflexivity]).
      reflexivity.
Qed.

Lemma logical_and_same_length (a b : list bool) :
  length a = length b -> logical_and a b = Ok (zip_with andb a b).
Proof. intros H. unfold logical_and. rewrite H, Nat.eqb_refl. reflexivity. Qed.

Lemma np_sum_bounds (m : list bool) : 0 <= np_sum m <= Z.of_nat (length m).
Proof.
  induction m as [|b m IH]; cbn [np_sum length]; [lia|]. destruct b; lia.
Qed.

Lemma mask_filter_Forall {A} (P : A -> Prop) (mask : list bool) (l : list A) :
  Forall P l -> Forall P (mask_filter mask l).
Proof.
  intros H. revert mask. induction H as [|x l Hx _ IH]; intros [|b mask];
    cbn; try constructor.
  destruct b; [constructor; [exact Hx|]|]; apply IH.
Qed.

Lemma patch_delta_inv ids scores gids iou k t d :
  patch_delta ids scores gids iou k t = Ok d ->
  exists mask,
    logical_and (eq_mask ids k) (ge_mask scores t) = Ok mask /\
    ((np_sum mask = 0 /\ d = NoSelection (np_sum (eq_mask gids k))) \/
     (np_sum mask <> 0 /\
      exists m, iou = Some m /\ length mask = length m /\
        Forall (fun r => length r = length (eq_mask gids k)) (mask_filter mask m) /\
        let tp := np_sum (any_axis0
                            (length (mask_filter (eq_mask gids k) (eq_mask gids k)))
                            (map (mask_filter (eq_mask gids k)) (mask_filter mask m))) in
        d = Selection tp (np_sum mask - tp) (np_sum (eq_mask gids k) - tp))).
Proof.
  unfold patch_delta. intros H.
  apply bind_Ok in H. destruct H as (mask & Hmask & H). exists mask.
  split; [exact Hmask|].
  destruct (np_sum mask =? 0) eqn:E.
  - left. apply Z.eqb_eq in E. injection H as <-. auto.
  - right. apply Z.eqb_neq in E. split; [exact E|].
    apply bind_Ok in H. destruct H as (m & Hm & H).
    destruct iou as [m'|]; [|discriminate]. injection Hm as ->.
    apply bind_Ok in H. destruct H as (rows & Hrows & H).
    apply bind_Ok in H. destruct H as (sub & Hsub & H).
    apply select_Ok in Hrows. destruct Hrows as [Hl ->].
    apply select_cols_Ok in Hsub. destruct Hsub as [Hf ->].
    injection H as <-. exists m. auto.
Qed.

Lemma patch_delta_total ids scores gids iou k t :
  length scores = length ids ->
  iou_shape iou (length ids) (length gids) ->
  is_Ok (patch_delta ids scores gids iou k t).
Proof.
  intros Hs Hiou. unfold patch_delta.
  rewrite logical_and_same_length
    by (unfold eq_mask, ge_mask; rewrite !length_map; congruence).
  unfold_bind.
  set (mask := zip_with andb (eq_mask ids k) (ge_mask scores t)).
  assert (Hlen : length mask = length ids).
  { unfold mask, eq_mask, ge_mask. rewrite length_zip_with, !length_map. lia. }
  destruct (np_sum mask =? 0) eqn:E; [eexists; reflexivity|].
  apply Z.eqb_neq in E.
  destruct iou as [m|]; cbn in Hiou.
  - destruct Hiou as [Hm Hrows].
    assert (select mask m = Ok (mask_filter mask m)) as ->
      by (apply select_Ok; split; [congruence|reflexivity]).
    assert (select_cols (eq_mask gids k) (mask_filter mask m)
            = Ok (map (mask_filter (eq_mask gids k)) (mask_filter mask m))) as ->.
    { apply select_cols_Ok. split; [|reflexivity].
      apply mask_filter_Forall. unfold eq_mask. rewrite length_map. exact Hrows. }
    eexists. reflexivity.
  - exfalso. apply E. destruct mask; [reflexivity|]. cbn in Hlen. lia.
Qed.

Lemma compute_iou_spec_shape (tar src : list Box) (t : Q) :
  length (compute_iou_spec tar src t) = length tar /\
  Forall (fun r => length r = length src) (compute_iou_spec tar src t).
Proof.
  unfold compute_iou_spec, pairwise_iou. split.
  - rewrite !length_map. reflexivity.
  - rewrite !Forall_fmap. apply Forall_forall. intros b _. cbn.
    unfold keep_argmax. rewrite length_map, length_imap, !length_map.
    reflexivity.
Qed.

Lemma frame_iou_binding_shape ev pd gt :
  wf_frame pd gt -> (pd_bboxes pd = [] \/ gt_bboxes gt <> []) ->
  iou_shape (frame_iou_binding ev pd gt)
            (length (pd_class_ids pd)) (length (gt_class_ids gt)).
Proof.
  intros [Hb Hs Hg] Hcase. unfold frame_iou_binding.
  destruct (pd_bboxes pd) as [|b bs] eqn:E; cbn [length Nat.ltb Nat.leb].
  - cbn. rewrite <- Hb. reflexivity.
  - destruct Hcase as [?|Hne]; [discriminate|]. cbn.
    unfold frame_iou. rewrite E, (Evaluator_compute_iou_value _ _ _ Hne).
    rewrite <- Hb, <- Hg. apply compute_iou_spec_shape.
Qed.

(** ** One call of [update] *)

Lemma update_loop ev pd gt ev' :
  update ev pd gt = Ok ev' ->
  for_loop (update_class (pd_class_ids pd) (frame_scores pd) (gt_class_ids gt)
                         (frame_iou_binding ev pd gt))
           ev (seq 0 (n_class ev)) = Ok ev'.
Proof.
  unfold update, frame_iou_binding, frame_iou. intros H.
  apply bind_Ok in H. destruct H as (iou & Hiou & H).
  destruct (0 <? length (pd_bboxes pd))%nat.
  - apply bind_Ok in Hiou. destruct Hiou as (m & Hm & Hiou).
    injection Hiou as <-. rewrite Hm. exact H.
  - injection Hiou as <-. exact H.
Qed.

(** What a call that returns does to every counter. *)
Lemma update_Ok ev pd gt ev' :
  update ev pd gt = Ok ev' ->
  same_frame ev ev' /\
  forall k, (k < n_class ev)%nat ->
    entry (gt_counts ev') k
      = wrap32 (entry (gt_counts ev) k + np_sum (eq_mask (gt_class_ids gt) k)) /\
    entry (pd_counts ev') k
      = wrap32 (entry (pd_counts ev) k + np_sum (eq_mask (pd_class_ids pd) k)) /\
    forall p t, patch ev !! p = Some t ->
      exists d,
        patch_delta (pd_class_ids pd) (frame_scores pd) (gt_class_ids gt)
                    (frame_iou_binding ev pd gt) k t = Ok d /\
        cells ev' p k = cell_after d (cells ev p k).
Proof.
  intros H. apply update_loop, class_loop_Ok in H.
  destruct H as (F & In & _). split; [exact F|].
  intros k Hk. apply In. lia.
Qed.

(** With predictions and without ground truths, [argmax] meets an axis of
    length zero. *)
Lemma update_raises ev pd gt :
  pd_bboxes pd <> [] -> gt_bboxes gt = [] -> update ev pd gt = Raise ValueError.
Proof.
  intros Hpd Hgt. unfold update, Evaluator_compute_iou. rewrite Hgt.
  destruct (pd_bboxes pd); [congruence|]. reflexivity.
Qed.

Lemma update_total ev pd gt :
  wf_ev ev -> wf_frame pd gt -> (pd_bboxes pd = [] \/ gt_bboxes gt <> []) ->
  is_Ok (update ev pd gt).
Proof.
  intros Hwf Hfr Hcase.
  pose proof (frame_iou_binding_shape ev pd gt Hfr Hcase) as Hshape.
  assert (Hloop : is_Ok (for_loop
            (update_class (pd_class_ids pd) (frame_scores pd) (gt_class_ids gt)
                          (frame_iou_binding ev pd gt))
            ev (seq 0 (n_class ev)))).
  { apply class_loop_total; [exact Hwf|lia|].
    intros k t. apply patch_delta_total; [apply Hfr|exact Hshape]. }
  revert Hloop. unfold update, frame_iou_binding, frame_iou.
  destruct (pd_bboxes pd) as [|b bs] eqn:E; cbn [length Nat.ltb Nat.leb].
  - unfold_bind. auto.
  - destruct Hcase as [?|Hne]; [discriminate|].
    rewrite (Evaluator_compute_iou_value _ _ _ Hne). unfold_bind. auto.
Qed.

Lemma Evaluator_init_wf n sp t : wf_ev (Evaluator_init n sp t).
Proof.
  assert (Hl : length (linspace01 sp) = sp).
  { destruct sp as [|[|sp]]; [reflexivity..|].
    unfold linspace01. rewrite length_map, length_seq. reflexivity. }
  split; cbn; rewrite ?length_replicate; try (symmetry; exact Hl);
    try reflexivity.
  all: apply Forall_replicate, length_replicate.
Qed.

(** ** Bounds on what a frame adds *)

Lemma np_sum_mask_filter_self (g : list bool) :
  Z.of_nat (length (mask_filter g g)) = np_sum g.
Proof.
  induction g as [|b g IH]; [reflexivity|].
  cbn [mask_filter np_sum]. destruct b; cbn [length]; lia.
Qed.

Lemma length_mask_filter {A} (mask : list bool) (l : list A) :
  length mask = length l -> Z.of_nat (length (mask_filter mask l)) = np_sum mask.
Proof.
  revert l. induction mask as [|b mask IH]; intros [|x l] H;
    try discriminate; [reflexivity|].
  cbn [mask_filter np_sum]. injection H as H. specialize (IH l H).
  destruct b; cbn [length]; lia.
Qed.

Lemma length_any_axis0 (n : nat) (rows : list (list bool)) :
  (length (any_axis0 n rows) <= n)%nat.
Proof.
  unfold any_axis0. induction rows as [|r rows IH]; cbn [foldr].
  - rewrite length_replicate. lia.
  - rewrite length_zip_with. lia.
Qed.

Lemma np_sum_zip_with_orb (a b : list bool) :
  np_sum (zip_with orb a b) <= np_sum a + np_sum b.
Proof.
  revert b. induction a as [|x a IH]; intros [|y b]; cbn [zip_with np_sum].
  - lia.
  - pose proof (np_sum_bounds b). destruct y; lia.
  - pose proof (np_sum_bounds a). destruct x; lia.
  - specialize (IH b). destruct x, y; cbn; lia.
Qed.

Lemma np_sum_replicate_false (n : nat) : np_sum (replicate n false) = 0.
Proof. induction n as [|n IH]; [reflexivity|]. cbn. exact IH. Qed.

Lemma np_sum_mask_filter_le (g r : list bool) :
  np_sum (mask_filter g r) <= np_sum r.
Proof.
  revert r. induction g as [|b g IH]; intros [|x r]; cbn [mask_filter np_sum];
    try lia.
  - pose proof (np_sum_bounds r). destruct x; lia.
  - specialize (IH r). destruct b; cbn [np_sum]; destruct x; lia.
Qed.

(** With at most one [true] per row, the columns holding a [true] are no
    more than the rows. *)
Lemma np_sum_any_axis0_rows (n : nat) (g : list bool) (rows : list (list bool)) :
  Forall (fun r => np_sum r <= 1) rows ->
  np_sum (any_axis0 n (map (mask_filter g) rows)) <= Z.of_nat (length rows).
Proof.
  unfold any_axis0. induction 1 as [|r rows Hr _ IH]; cbn [map foldr length].
  - rewrite np_sum_replicate_false. lia.
  - pose proof (np_sum_zip_with_orb (mask_filter g r)
                  (foldr (zip_with orb) (replicate n false)
                         (map (mask_filter g) rows))).
    pose proof (np_sum_mask_filter_le g r). lia.
Qed.

Lemma patch_delta_balance ids scores gids iou k t d :
  patch_delta ids scores gids iou k t = Ok d ->
  delta_gt (np_sum (eq_mask gids k)) d.
Proof.
  intros H. apply patch_delta_inv in H.
  destruct H as (mask & _ & [[_ ->]|(_ & m & _ & _ & _ & ->)]); cbn.
  - reflexivity.
  - set (g := eq_mask gids k).
    set (sub := map (mask_filter g) (mask_filter mask m)).
    pose proof (np_sum_bounds (any_axis0 (length (mask_filter g g)) sub)).
    pose proof (length_any_axis0 (length (mask_filter g g)) sub).
    pose proof (np_sum_mask_filter_self g). lia.
Qed.

Lemma patch_delta_bounds ids scores gids iou k t d :
  length scores = length ids ->
  (forall m, iou = Some m -> Forall (fun r => np_sum r <= 1) m) ->
  patch_delta ids scores gids iou k t = Ok d ->
  delta_ok (Z.of_nat (length ids)) (Z.of_nat (length gids)) d.
Proof.
  intros Hs Hrows H. pose proof (patch_delta_balance _ _ _ _ _ _ _ H) as Hb.
  apply patch_delta_inv in H.
  pose proof (np_sum_bounds (eq_mask gids k)) as Hg.
  assert (length (eq_mask gids k) = length gids) as Hgl
    by (unfold eq_mask; apply length_map).
  rewrite Hgl in Hg.
  destruct H as (mask & Hmask & [[_ ->]|(_ & m & -> & Hl & _ & ->)]).
  - cbn. lia.
  - cbn in Hb |- *.
    rewrite logical_and_same_length in Hmask
      by (unfold eq_mask, ge_mask; rewrite !length_map; congruence).
    injection Hmask as Hmask.
    pose proof (np_sum_bounds mask) as Hm.
    assert (length mask = length ids) as Hlen.
    { rewrite <- Hmask. unfold eq_mask, ge_mask.
      rewrite length_zip_with, !length_map. lia. }
    pose proof (np_sum_any_axis0_rows
                  (length (mask_filter (eq_mask gids k) (eq_mask gids k)))
                  (eq_mask gids k) (mask_filter mask m)
                  (mask_filter_Forall _ mask m (Hrows m eq_refl))) as Hrows'.
    rewrite (length_mask_filter mask m Hl) in Hrows'.
    lia.
Qed.

Lemma np_sum_all_false (l : list bool) : np_sum (map (fun _ => false) l) = 0.
Proof. induction l as [|x l IH]; [reflexivity|]. cbn. exact IH. Qed.

Lemma np_sum_insert_all_false (l : list bool) (a : nat) (v : bool) :
  np_sum (<[a := v]> (map (fun _ => false) l)) <= 1.
Proof.
  revert a. induction l as [|x l IH]; intros a; [destruct a; cbn; lia|].
  destruct a as [|a]; cbn.
  - rewrite np_sum_all_false. destruct v; lia.
  - apply IH.
Qed.

Lemma np_sum_keep_argmax (row : list bool) : np_sum (keep_argmax row) <= 1.
Proof.
  rewrite keep_argmax_scatter. unfold scatter_row.
  destruct (row !! _); [apply np_sum_insert_all_false|].
  rewrite np_sum_all_false. lia.
Qed.

Lemma np_sum_rethreshold (t : Q) (l : list bool) :
  (0 < t)%Q ->
  np_sum (map (fun b : bool => Qle_bool t (bool_to_Q b)) l) <= np_sum l.
Proof.
  intros Ht. induction l as [|b l IH]; [reflexivity|]. cbn [map np_sum].
  destruct b; cbn [bool_to_Q].
  - destruct (Qle_bool t 1); lia.
  - destruct (Qle_bool t 0) eqn:E; [|lia].
    apply Qle_bool_iff in E. lra.
Qed.

(** For a positive threshold each prediction is matched with at most one
    ground truth. *)
Lemma compute_iou_spec_rows (tar src : list Box) (t : Q) :
  (0 < t)%Q -> Forall (fun r => np_sum r <= 1) (compute_iou_spec tar src t).
Proof.
  intros Ht. unfold compute_iou_spec. rewrite !Forall_fmap.
  apply Forall_forall. intros r _. cbn.
  pose proof (np_sum_rethreshold t (keep_argmax (map (fun v => fge v t) r)) Ht).
  pose proof (np_sum_keep_argmax (map (fun v => fge v t) r)). lia.
Qed.

Lemma frame_iou_binding_rows ev pd gt m :
  (0 < threshold ev)%Q -> frame_iou_binding ev pd gt = Some m ->
  Forall (fun r => np_sum r <= 1) m.
Proof.
  intros Ht. unfold frame_iou_binding, frame_iou.
  destruct (0 <? _)%nat; [|discriminate]. intros H. injection H as <-.
  destruct (gt_bboxes gt) as [|b bs] eqn:E.
  - unfold Evaluator_compute_iou. cbn. constructor.
  - rewrite Evaluator_compute_iou_value by discriminate.
    apply compute_iou_spec_rows, Ht.
Qed.

(** ** The increments, counted per prediction and per ground truth *)

Lemma map_seq_lookup {A B} (l : list A) (f : A -> B) (g : nat -> B) :
  (forall j x, l !! j = Some x -> g j = f x) ->
  map g (seq 0 (length l)) = map f l.
Proof.
  intros H. apply list_eq. intros j. rewrite !list_lookup_fmap.
  destruct (l !! j) as [x|] eqn:E.
  - rewrite lookup_seq_lt by (eapply lookup_lt_Some, E). cbn.
    f_equal. apply H. exact E.
  - rewrite lookup_seq_ge by (apply lookup_ge_None, E). reflexivity.
Qed.

Lemma np_sum_eq_mask_gt (gids : list Z) (k : nat) :
  np_sum (eq_mask gids k) = n_gt gids k.
Proof.
  unfold n_gt, count_upto, eq_mask. f_equal. symmetry.
  apply map_seq_lookup. intros j x E. unfold gt_of_class. rewrite E. reflexivity.
Qed.

Lemma np_sum_eq_mask_pd (ids : list Z) (k : nat) :
  np_sum (eq_mask ids k) = n_pd ids k.
Proof.
  unfold n_pd, count_upto, eq_mask. f_equal. symmetry.
  apply map_seq_lookup. intros j x E. unfold pd_of_class. rewrite E. reflexivity.
Qed.

Lemma selected_mask (ids : list Z) (scores : list Q) (k : nat) (t : Q) :
  length scores = length ids ->
  zip_with andb (eq_mask ids k) (ge_mask scores t)
  = map (selected ids scores k t) (seq 0 (length ids)).
Proof.
  intros Hl. apply list_eq. intros j.
  rewrite lookup_zip_with, list_lookup_fmap. unfold eq_mask, ge_mask.
  rewrite !list_lookup_fmap. unfold selected, pd_of_class.
  destruct (ids !! j) as [c|] eqn:E.
  - rewrite lookup_seq_lt by (eapply lookup_lt_Some, E).
    destruct (lookup_lt_is_Some_2 scores j) as [s Es].
    { rewrite Hl. eapply lookup_lt_Some, E. }
    rewrite Es. cbn. rewrite E, Es. reflexivity.
  - rewrite lookup_seq_ge by (apply lookup_ge_None, E). reflexivity.
Qed.

Lemma mask_filter_replicate_false (g : list bool) :
  replicate (length (mask_filter g g)) false
  = mask_filter g (replicate (length g) false).
Proof.
  induction g as [|b g IH]; [reflexivity|].
  cbn. destruct b; cbn; rewrite IH; reflexivity.
Qed.

Lemma mask_filter_zip_with_orb (g r acc : list bool) :
  zip_with orb (mask_filter g r) (mask_filter g acc)
  = mask_filter g (zip_with orb r acc).
Proof.
  revert r acc. induction g as [|b g IH]; intros r acc; [reflexivity|].
  destruct r as [|x r]; [reflexivity|].
  destruct acc as [|y acc].
  - cbn. destruct b; [reflexivity|]. apply zip_with_nil_r.
  - cbn. destruct b; cbn; rewrite IH; reflexivity.
Qed.

Lemma any_axis0_mask_filter (g : list bool) (rows : list (list bool)) :
  any_axis0 (length (mask_filter g g)) (map (mask_filter g) rows)
  = mask_filter g (any_axis0 (length g) rows).
Proof.
  unfold any_axis0. induction rows as [|r rows IH]; cbn [map foldr].
  - apply mask_filter_replicate_false.
  - rewrite IH. apply mask_filter_zip_with_orb.
Qed.

Lemma np_sum_mask_filter (g v : list bool) :
  np_sum (mask_filter g v) = np_sum (zip_with andb g v).
Proof.
  revert v. induction g as [|b g IH]; intros [|x v]; try reflexivity.
  cbn. destruct b; cbn; rewrite IH; reflexivity.
Qed.

Lemma any_axis0_columns (G : nat) (rows : list (list bool)) :
  Forall (fun r => length r = G) rows ->
  any_axis0 G rows = map (col_any rows) (seq 0 G).
Proof.
  unfold any_axis0. induction 1 as [|r rows Hr _ IH]; cbn [foldr].
  - apply list_eq. intros j. rewrite list_lookup_fmap.
    destruct (Nat.lt_ge_cases j G).
    + rewrite lookup_replicate_2, lookup_seq_lt by lia. reflexivity.
    + rewrite lookup_seq_ge by lia. apply lookup_ge_None.
      rewrite length_replicate. lia.
  - rewrite IH. apply list_eq. intros j.
    rewrite lookup_zip_with, !list_lookup_fmap.
    destruct (Nat.lt_ge_cases j G).
    + rewrite lookup_seq_lt by lia.
      destruct (lookup_lt_is_Some_2 r j) as [x Ex]; [lia|].
      unfold col_any. cbn. rewrite Ex. reflexivity.
    + rewrite lookup_seq_ge by lia.
      destruct (r !! j); reflexivity.
Qed.

Lemma existsb_seq_S (f : nat -> bool) (n s : nat) :
  existsb f (seq (S s) n) = existsb (fun i => f (S i)) (seq s n).
Proof.
  revert s. induction n as [|n IH]; intros s; [reflexivity|].
  cbn. rewrite IH. reflexivity.
Qed.

Lemma existsb_ext_seq (f g : nat -> bool) (n : nat) :
  (forall i, (i < n)%nat -> f i = g i) ->
  existsb f (seq 0 n) = existsb g (seq 0 n).
Proof.
  revert f g. induction n as [|n IH]; intros f g H; [reflexivity|].
  cbn. rewrite H by lia. f_equal. rewrite !existsb_seq_S.
  apply IH. intros i Hi. apply H. lia.
Qed.

Lemma col_any_mask_filter (mask : list bool) (m : list (list bool)) (j : nat) :
  length mask = length m ->
  col_any (mask_filter mask m) j
  = existsb (fun i => default false (mask !! i) && accepted m i j)
            (seq 0 (length m)).
Proof.
  revert m. induction mask as [|b mask IH]; intros [|r m] Hl; try discriminate;
    [reflexivity|].
  injection Hl as Hl. cbn [length seq existsb]. rewrite existsb_seq_S.
  cbn [mask_filter].
  rewrite (existsb_ext_seq
             (fun i => default false ((b :: mask) !! S i) && accepted (r :: m) (S i) j)
             (fun i => default false (mask !! i) && accepted m i j))
    by (intros; reflexivity).
  rewrite <- (IH m Hl). destruct b; reflexivity.
Qed.

(** The code's [true_positive] is the number of ground truths of the class
    with an accepted match among the selected predictions. *)
Lemma true_positive_count (ids gids : list Z) (scores : list Q)
    (m : list (list bool)) (k : nat) (t : Q) :
  length scores = length ids -> length m = length ids ->
  Forall (fun r => length r = length gids) m ->
  let g := eq_mask gids k in
  let mask := zip_with andb (eq_mask ids k) (ge_mask scores t) in
  np_sum (any_axis0 (length (mask_filter g g))
                    (map (mask_filter g) (mask_filter mask m)))
  = n_matched ids scores gids m k t.
Proof.
  intros Hs Hm Hrows g mask.
  assert (Hg : length g = length gids) by (unfold g, eq_mask; apply length_map).
  rewrite any_axis0_mask_filter, np_sum_mask_filter.
  rewrite any_axis0_columns
    by (apply mask_filter_Forall; rewrite Hg; exact Hrows).
  unfold n_matched, count_upto. f_equal. rewrite Hg.
  apply list_eq. intros j. rewrite lookup_zip_with, !list_lookup_fmap.
  unfold g, eq_mask. rewrite list_lookup_fmap.
  destruct (gids !! j) as [c|] eqn:E.
  - rewrite lookup_seq_lt by (eapply lookup_lt_Some, E). cbn.
    unfold matched, gt_of_class. rewrite E. do 2 f_equal.
    assert (Hmask : length mask = length m).
    { unfold mask, eq_mask, ge_mask. rewrite length_zip_with, !length_map. lia. }
    rewrite (col_any_mask_filter mask m j Hmask). rewrite Hm.
    apply existsb_ext_seq. intros i Hi. f_equal.
    unfold mask. rewrite (selected_mask ids scores k t Hs).
    rewrite list_lookup_fmap, lookup_seq_lt by exact Hi. reflexivity.
  - rewrite lookup_seq_ge by (apply lookup_ge_None, E). reflexivity.
Qed.

(** The increments of a frame with consistent lengths, in the words of the
    specification. *)
Lemma patch_delta_counts ev pd gt k t d :
  wf_frame pd gt ->
  patch_delta (pd_class_ids pd) (frame_scores pd) (gt_class_ids gt)
              (frame_iou_binding ev pd gt) k t = Ok d ->
  let sel := n_selected (pd_class_ids pd) (frame_scores pd) k t in
  let tp := n_matched (pd_class_ids pd) (frame_scores pd) (gt_class_ids gt)
                      (frame_iou ev pd gt) k t in
  let g := n_gt (gt_class_ids gt) k in
  (sel = 0 -> d = NoSelection g) /\
  (sel <> 0 -> d = Selection tp (sel - tp) (g - tp)).
Proof.
  intros [Hb Hs Hg] H sel tp g.
  apply patch_delta_inv in H. destruct H as (mask & Hmask & H).
  rewrite logical_and_same_length in Hmask
    by (unfold eq_mask, ge_mask; rewrite !length_map; congruence).
  injection Hmask as Hmask.
  assert (Hsel : np_sum mask = sel).
  { rewrite <- Hmask, (selected_mask _ _ k t Hs). reflexivity. }
  rewrite Hsel, np_sum_eq_mask_gt in H. fold g in H.
  destruct H as [[H0 ->]|(Hne & m & Hiou & Hl & Hrows & ->)].
  - split; [reflexivity|]. intros Hc. contradiction.
  - split; [intros Hc; contradiction|]. intros _.
    unfold frame_iou_binding in Hiou.
    destruct (0 <? length (pd_bboxes pd))%nat; [|discriminate].
    injection Hiou as Hiou.
    assert (Hlm : length m = length (pd_class_ids pd)).
    { rewrite <- Hl, <- Hmask. unfold eq_mask, ge_mask.
      rewrite length_zip_with, !length_map. lia. }
    assert (Hcols : Forall (fun r => length r = length (gt_class_ids gt)) m).
    { subst m. unfold frame_iou. destruct (gt_bboxes gt) as [|b bs] eqn:E.
      - unfold Evaluator_compute_iou. cbn. constructor.
      - rewrite Evaluator_compute_iou_value by discriminate.
        rewrite <- Hg. apply compute_iou_spec_shape. }
    rewrite <- Hmask.
    rewrite (true_positive_count _ _ _ m k t Hs Hlm Hcols).
    unfold tp. rewrite Hiou. reflexivity.
Qed.

(** ** Claims about one call of [update] *)

Lemma example_wf_frame : wf_frame example_pd example_gt.
Proof. split; reflexivity. Qed.

(** C1, as stated, fails: on a frame with one predicted box of class 1 and
    no ground-truth box, whose arrays have consistent lengths, the claim
    predicts [pd_counts[1] += 1] and, the prediction being selected at each
    of the eleven thresholds, [FP[p][1] += 1]; the call raises [ValueError]
    (line 58 calls [compute_iou], whose [argmax] runs along an axis of
    length zero) and returns no evaluator. *)
Lemma update_counts_fails_without_groundtruths :
  wf_ev (Evaluator_default 2) /\ wf_frame single_pd empty_gt /\
  n_pd (pd_class_ids single_pd) 1 = 1 /\
  (forall p t, patch (Evaluator_default 2) !! p = Some t ->
     n_selected (pd_class_ids single_pd) (frame_scores single_pd) 1 t = 1) /\
  update (Evaluator_default 2) single_pd empty_gt = Raise ValueError /\
  ~ (exists ev', update (Evaluator_default 2) single_pd empty_gt = Ok ev' /\
                 entry (pd_counts ev') 1 = 1).
Proof.
  split; [apply Evaluator_init_wf|]. split; [split; reflexivity|].
  split; [reflexivity|]. split; [|split; [reflexivity|]].
  - intros p t Hp.
    do 11 (destruct p as [|p]; [injection Hp as <-; reflexivity|]).
    discriminate Hp.
  - intros (ev' & H & _). discriminate H.
Qed.

(** C1, amended: a call of [update] on an evaluator with the shapes of
    [__init__] and a frame whose arrays have consistent lengths either
    raises [ValueError], exactly when there is a predicted box and no
    ground-truth box, or returns, and then for each class [k] and each
    threshold index [p]: [gt_counts[k]] and [pd_counts[k]] grow by the
    numbers of ground truths and of predictions of the class; with no
    selected prediction, [FN[p][k]] grows by the number of ground truths of
    the class and [TP[p][k]], [FP[p][k]] keep their values; otherwise
    [TP[p][k]] grows by the number of ground truths of the class with an
    accepted match among the selected predictions, [FP[p][k]] by the
    selected count minus that number and [FN[p][k]] by the ground-truth
    count minus that number.  The counters are [uint32]: every sum is taken
    modulo 2^32. *)
Theorem update_counts (ev : Evaluator) (pd : Predictions) (gt : Groundtruths) :
  wf_ev ev -> wf_frame pd gt ->
  match update ev pd gt with
  | Raise e => e = ValueError /\ pd_bboxes pd <> [] /\ gt_bboxes gt = []
  | Ok ev' =>
      (pd_bboxes pd = [] \/ gt_bboxes gt <> []) /\
      forall k, (k < n_class ev)%nat ->
        let ids := pd_class_ids pd in
        let scores := frame_scores pd in
        let gids := gt_class_ids gt in
        entry (gt_counts ev') k = wrap32 (entry (gt_counts ev) k + n_gt gids k) /\
        entry (pd_counts ev') k = wrap32 (entry (pd_counts ev) k + n_pd ids k) /\
        forall p t, patch ev !! p = Some t ->
          let sel := n_selected ids scores k t in
          let tp := n_matched ids scores gids (frame_iou ev pd gt) k t in
          (sel = 0 ->
             cell (FN ev') p k = wrap32 (cell (FN ev) p k + n_gt gids k) /\
             cell (TP ev') p k = cell (TP ev) p k /\
             cell (FP ev') p k = cell (FP ev) p k) /\
          (sel <> 0 ->
             cell (TP ev') p k = wrap32 (cell (TP ev) p k + tp) /\
             cell (FP ev') p k = wrap32 (cell (FP ev) p k + (sel - tp)) /\
             cell (FN ev') p k = wrap32 (cell (FN ev) p k + (n_gt gids k - tp)))
  end.
Proof.
  intros Hwf Hfr.
  assert (Hcase : (pd_bboxes pd <> [] /\ gt_bboxes gt = []) \/
                  (pd_bboxes pd = [] \/ gt_bboxes gt <> [])).
  { destruct (pd_bboxes pd); [right; left; reflexivity|].
    destruct (gt_bboxes gt); [left; split; [discriminate|reflexivity]|].
    right. right. discriminate. }
  destruct Hcase as [[Hpd Hgt]|Hcase].
  - (* line 58 raises before the loop over the classes *)
    rewrite (update_raises ev pd gt Hpd Hgt). auto.
  - destruct (update_total ev pd gt Hwf Hfr Hcase) as [ev' H]. rewrite H.
    split; [exact Hcase|]. intros k Hk ids scores gids.
    destruct (update_Ok _ _ _ _ H) as (_ & Hall).
    destruct (Hall k Hk) as (Hg & Hp & Hcells).
    rewrite np_sum_eq_mask_gt in Hg. rewrite np_sum_eq_mask_pd in Hp.
    split; [exact Hg|]. split; [exact Hp|].
    intros p t Hpt sel tp.
    destruct (Hcells p t Hpt) as (d & Hd & Hc).
    destruct (patch_delta_counts ev pd gt k t d Hfr Hd) as [H0 H1].
    unfold cells in Hc. split; intros Hsel.
    + rewrite (H0 Hsel) in Hc. cbn in Hc. injection Hc as -> -> ->. auto.
    + rewrite (H1 Hsel) in Hc. cbn in Hc. injection Hc as -> -> ->. auto.
Qed.

Lemma example_update :
  update (Evaluator_init 2 3 (1 # 2)) example_pd example_gt = Ok example_ev.
Proof. vm_compute. reflexivity. Qed.

Lemma update_counts_witness :
  update (Evaluator_init 2 3 (1 # 2)) example_pd example_gt = Ok example_ev /\
  entry (gt_counts example_ev) 1
    = wrap32 (0 + n_gt (gt_class_ids example_gt) 1) /\
  entry (pd_counts example_ev) 1
    = wrap32 (0 + n_pd (pd_class_ids example_pd) 1).
Proof.
  split; [exact example_update|].
  pose proof (update_counts (Evaluator_init 2 3 (1 # 2)) example_pd example_gt
                (Evaluator_init_wf 2 3 (1 # 2)) example_wf_frame) as H.
  rewrite example_update in H. destruct H as [_ H].
  destruct (H 1%nat) as (Hg & Hp & _).
  - cbn. lia.
  - split; [exact Hg|exact Hp].
Defined.

(** C4, as stated, fails: with a predicted box and no ground-truth box,
    [update] raises; [argmax] is taken along an axis of length zero. *)
Lemma update_raises_without_groundtruths :
  wf_ev (Evaluator_default 2) /\ wf_frame single_pd empty_gt /\
  update (Evaluator_default 2) single_pd empty_gt = Raise ValueError.
Proof.
  split; [apply Evaluator_init_wf|]. split; [split; reflexivity|reflexivity].
Qed.

(** C4, amended: on an evaluator with the shapes of [__init__] and a frame
    whose arrays have consistent lengths, [update] raises no exception
    exactly when there is no predicted box or there is a ground-truth box;
    this covers zero predicted boxes and boxes of zero area. *)
Theorem update_no_exception (ev : Evaluator) (pd : Predictions) (gt : Groundtruths) :
  wf_ev ev -> wf_frame pd gt ->
  (is_Ok (update ev pd gt) <-> pd_bboxes pd = [] \/ gt_bboxes gt <> []).
Proof.
  intros Hwf Hfr. split.
  - intros [ev' H]. destruct (pd_bboxes pd) as [|b bs] eqn:Epd; [auto|].
    destruct (gt_bboxes gt) as [|c cs] eqn:Egt; [|right; discriminate].
    rewrite update_raises in H; [discriminate|congruence|exact Egt].
  - apply update_total; assumption.
Qed.

Lemma update_no_exception_witness :
  is_Ok (update (Evaluator_default 2)
           {| pd_class_ids := []; pd_scores := None; pd_bboxes := [] |}
           {| gt_class_ids := [1]; gt_bboxes := [box 0 0 0 0] |}) /\
  is_Ok (update (Evaluator_default 2)
           {| pd_class_ids := [1]; pd_scores := None; pd_bboxes := [box 3 3 3 3] |}
           {| gt_class_ids := [1]; gt_bboxes := [box 0 0 0 0] |}).
Proof.
  split.
  - apply (update_no_exception (Evaluator_default 2));
      [apply Evaluator_init_wf|split; reflexivity|left; reflexivity].
  - apply (update_no_exception (Evaluator_default 2));
      [apply Evaluator_init_wf|split; reflexivity|right; discriminate].
Defined.

(** ** Sequences of calls *)

Lemma run_cons ev fr frames ev' :
  run ev (fr :: frames) = Ok ev' ->
  exists ev1, update ev (fst fr) (snd fr) = Ok ev1 /\ run ev1 frames = Ok ev'.
Proof.
  unfold run. cbn [for_loop]. intros H. apply bind_Ok in H.
  destruct fr as [pd gt]. exact H.
Qed.

(** Induction over a sequence of calls, with a quantity [w] summed over the
    frames. *)
Lemma run_total_ind {S : Type} (f : S -> Predictions * Groundtruths -> S)
    (Q : Predictions * Groundtruths -> Prop) (P : Evaluator -> S -> Prop) :
  (forall ev s fr ev',
     Q fr -> P ev s -> update ev (fst fr) (snd fr) = Ok ev' -> P ev' (f s fr)) ->
  forall frames ev s ev',
    Forall Q frames ->
    P ev s -> run ev frames = Ok ev' -> P ev' (fold_left f frames s).
Proof.
  intros Hstep. induction frames as [|fr frames IH]; intros ev s ev' HQ HP H.
  - injection H as <-. exact HP.
  - apply run_cons in H. destruct H as (ev1 & H1 & H).
    inversion HQ as [|? ? Hfr HQ']; subst.
    cbn [fold_left]. eapply IH; [exact HQ'| |exact H].
    eapply Hstep; eassumption.
Qed.

Lemma fold_left_total (w : Predictions * Groundtruths -> Z) frames s :
  fold_left (fun s fr => s + w fr) frames s = s + total w frames.
Proof.
  revert s. induction frames as [|fr frames IH]; intros s; cbn; [lia|].
  rewrite IH. unfold total. lia.
Qed.

Lemma total_nonneg (w : Predictions * Groundtruths -> Z) frames :
  (forall fr, 0 <= w fr) -> 0 <= total w frames.
Proof.
  intros Hw. induction frames as [|fr frames IH]; cbn; [lia|].
  specialize (Hw fr). unfold total in IH. lia.
Qed.

Lemma run_same_frame frames : forall ev ev',
  run ev frames = Ok ev' -> same_frame ev ev'.
Proof.
  induction frames as [|fr frames IH]; intros ev ev' H.
  - injection H as <-. apply same_frame_refl.
  - apply run_cons in H. destruct H as (ev1 & H1 & H).
    eapply same_frame_trans; [apply (update_Ok _ _ _ _ H1)|apply IH, H].
Qed.

Lemma wrap32_add_l (a b : Z) : wrap32 (wrap32 a + b) = wrap32 (a + b).
Proof. unfold wrap32. apply Zplus_mod_idemp_l. Qed.

Lemma wrap32_add_r (a b : Z) : wrap32 (a + wrap32 b) = wrap32 (a + b).
Proof. unfold wrap32. apply Zplus_mod_idemp_r. Qed.

Lemma wrap32_small (a : Z) : 0 <= a < 2 ^ 32 -> wrap32 a = a.
Proof. apply Z.mod_small. Qed.

Lemma gt_invariant_step n ts k ev G fr ev' :
  (k < n)%nat ->
  gt_invariant n ts k ev G -> update ev (fst fr) (snd fr) = Ok ev' ->
  gt_invariant n ts k ev' (G + frame_gt_class k fr).
Proof.
  intros Hk (Hn & Hts & HG0 & Hmod & Hex) H.
  destruct (update_Ok _ _ _ _ H) as ([Fn Fp _ _] & Hall).
  destruct (Hall k) as (Hg & _ & Hcells); [lia|]. fold (frame_gt_class k fr) in Hg.
  pose proof (np_sum_bounds (eq_mask (gt_class_ids (snd fr)) k)) as Hgb.
  fold (frame_gt_class k fr) in Hgb.
  split; [congruence|]. split; [congruence|]. split; [lia|]. split.
  - intros p t Hp. rewrite <- Hts in Hp.
    destruct (Hcells p t Hp) as (d & Hd & Hc).
    apply patch_delta_balance in Hd. fold (frame_gt_class k fr) in Hd.
    rewrite Hg. rewrite Hts in Hp. rewrite <- (Hmod p t Hp).
    unfold cells in Hc. destruct d as [g|a b g]; cbn in Hc, Hd;
      injection Hc as HT HF HN; rewrite HT, HN.
    + subst g. rewrite wrap32_add_r, wrap32_add_l. f_equal. lia.
    + destruct Hd as (<- & _ & _).
      rewrite wrap32_add_r, wrap32_add_l, wrap32_add_l. f_equal. lia.
  - intros HG. destruct Hex as [HgG Hexact]; [lia|].
    split; [rewrite Hg, HgG; apply wrap32_small; lia|].
    intros p t Hp. destruct (Hexact p t Hp) as (H1 & H2 & H3).
    rewrite <- Hts in Hp. destruct (Hcells p t Hp) as (d & Hd & Hc).
    apply patch_delta_balance in Hd. fold (frame_gt_class k fr) in Hd.
    unfold cells in Hc. destruct d as [g|a b g]; cbn in Hc, Hd;
      injection Hc as HT HF HN; rewrite HT, HN.
    + subst g. rewrite wrap32_small by lia. lia.
    + destruct Hd as (Hd & ? & ?).
      rewrite !wrap32_small by lia. lia.
Qed.

Lemma cell_replicate_0 (P C p k : nat) : cell (replicate P (replicate C 0)) p k = 0.
Proof.
  unfold cell. destruct (Nat.lt_ge_cases p P).
  - rewrite lookup_replicate_2 by lia. cbn.
    destruct (Nat.lt_ge_cases k C).
    + rewrite lookup_replicate_2 by lia. reflexivity.
    + rewrite (proj2 (lookup_ge_None _ _)) by (rewrite length_replicate; lia).
      reflexivity.
  - rewrite (proj2 (lookup_ge_None _ _)) by (rewrite length_replicate; lia).
    reflexivity.
Qed.

Lemma entry_replicate_0 (C k : nat) : entry (replicate C 0) k = 0.
Proof.
  unfold entry. destruct (Nat.lt_ge_cases k C).
  - rewrite lookup_replicate_2 by lia. reflexivity.
  - rewrite (proj2 (lookup_ge_None _ _)) by (rewrite length_replicate; lia).
    reflexivity.
Qed.

Lemma gt_invariant_run n sp t k frames ev :
  (k < n)%nat ->
  run (Evaluator_init n sp t) frames = Ok ev ->
  gt_invariant n (linspace01 sp) k ev (total_gt_class k frames).
Proof.
  intros Hk H.
  pose proof (run_total_ind (fun s fr => s + frame_gt_class k fr)
                (fun _ => True)
                (gt_invariant n (linspace01 sp) k)) as Hind.
  specialize (Hind (fun ev s fr ev' _ => gt_invariant_step n _ k ev s fr ev' Hk)).
  specialize (Hind frames (Evaluator_init n sp t) 0 ev).
  rewrite fold_left_total in Hind.
  apply Hind; [apply Forall_forall; auto| |exact H].
  split; [reflexivity|]. split; [reflexivity|]. split; [lia|]. cbn.
  split; [|intros _; split].
  - intros p t' _. rewrite !cell_replicate_0, entry_replicate_0. reflexivity.
  - apply entry_replicate_0.
  - intros p t' _. rewrite !cell_replicate_0. lia.
Qed.

(** C10: after any sequence of [update] calls that do not raise, for every
    threshold index [p] and class [k], [TP[p][k] + FN[p][k] == gt_counts[k]]
    in [uint32] arithmetic; the two sides are equal as integers, and equal to
    the number of ground truths of the class seen so far, as long as that
    number is below 2^32. *)
Theorem tp_fn_gt_counts (n sp : nat) (t : Q)
    (frames : list (Predictions * Groundtruths)) (ev : Evaluator) :
  run (Evaluator_init n sp t) frames = Ok ev ->
  forall p k, (p < sp)%nat -> (k < n)%nat ->
    add32 (cell (TP ev) p k) (cell (FN ev) p k) = entry (gt_counts ev) k /\
    (total_gt_class k frames < 2 ^ 32 ->
       cell (TP ev) p k + cell (FN ev) p k = entry (gt_counts ev) k /\
       entry (gt_counts ev) k = total_gt_class k frames).
Proof.
  intros H p k Hp Hk.
  destruct (gt_invariant_run n sp t k frames ev Hk H) as (_ & _ & _ & Hmod & Hex).
  assert (Hl : length (linspace01 sp) = sp).
  { pose proof (Evaluator_init_wf n sp t) as Hwf.
    pose proof (wf_TP _ Hwf) as Hlen. cbn in Hlen.
    rewrite length_replicate in Hlen. symmetry. exact Hlen. }
  destruct (lookup_lt_is_Some_2 (linspace01 sp) p) as [t' Ht']; [lia|].
  split; [exact (Hmod p t' Ht')|].
  intros HG. destruct (Hex HG) as [HgG Hexact].
  destruct (Hexact p t' Ht') as (_ & _ & Hsum). split; congruence.
Qed.

Lemma example_run :
  run (Evaluator_init 2 3 (1 # 2)) [(example_pd, example_gt)] = Ok example_ev.
Proof. vm_compute. reflexivity. Qed.

Lemma tp_fn_gt_counts_witness :
  add32 (cell (TP example_ev) 0 1) (cell (FN example_ev) 0 1)
  = entry (gt_counts example_ev) 1.
Proof.
  refine (proj1 (tp_fn_gt_counts 2 3 (1 # 2) [(example_pd, example_gt)]
                   example_ev example_run 0%nat 1%nat _ _)); lia.
Defined.

(** ** Range of precision and recall *)

Lemma range_invariant_step n ts ev s fr ev' :
  wf_frame (fst fr) (snd fr) ->
  range_invariant n ts ev s -> update ev (fst fr) (snd fr) = Ok ev' ->
  range_invariant n ts ev' (fst s + frame_pd fr, snd s + frame_gt fr).
Proof.
  intros Hfr (Hn & Hts & Ht & Hinv) H.
  destruct (update_Ok _ _ _ _ H) as ([Fn Fp Fth _] & Hall).
  split; [congruence|]. split; [congruence|]. split; [rewrite Fth; exact Ht|].
  cbn [fst snd]. unfold frame_pd, frame_gt. intros H1 H2 p t k Hp Hk.
  destruct (Hinv ltac:(lia) ltac:(lia) p t k Hp Hk) as (T & F & N & TF & TN).
  destruct (Hall k) as (_ & _ & Hcells); [lia|].
  rewrite <- Hts in Hp. destruct (Hcells p t Hp) as (d & Hd & Hc).
  apply patch_delta_bounds in Hd;
    [|apply Hfr|intros m; apply frame_iou_binding_rows, Ht].
  unfold cells in Hc. destruct d as [g|a b g]; cbn in Hc, Hd;
    injection Hc as -> -> ->.
  - rewrite wrap32_small by lia. lia.
  - rewrite !wrap32_small by lia. lia.
Qed.

Lemma fold_left_totals frames a b :
  fold_left (fun s fr => (fst s + frame_pd fr, snd s + frame_gt fr)) frames (a, b)
  = (a + total_pd frames, b + total_gt frames).
Proof.
  revert a b. induction frames as [|fr frames IH]; intros a b; cbn.
  - f_equal; lia.
  - rewrite IH. unfold total_pd, total_gt, total. cbn. f_equal; lia.
Qed.

Lemma range_invariant_run n sp t frames ev :
  (0 < t)%Q -> Forall (fun fr => wf_frame (fst fr) (snd fr)) frames ->
  run (Evaluator_init n sp t) frames = Ok ev ->
  range_invariant n (linspace01 sp) ev (total_pd frames, total_gt frames).
Proof.
  intros Ht Hfr H.
  pose proof (run_total_ind
                (fun s fr => (fst s + frame_pd fr, snd s + frame_gt fr))
                (fun fr => wf_frame (fst fr) (snd fr))
                (range_invariant n (linspace01 sp))) as Hind.
  specialize (Hind (fun ev s fr ev' Hq => range_invariant_step n _ ev s fr ev' Hq)).
  specialize (Hind frames (Evaluator_init n sp t) (0, 0) ev Hfr).
  rewrite fold_left_totals in Hind.
  apply Hind; [|exact H].
  split; [reflexivity|]. split; [reflexivity|]. split; [exact Ht|].
  cbn. intros _ _ p t' k _ _. rewrite !cell_replicate_0. lia.
Qed.

Lemma ratio_range (a b : Z) :
  0 <= a -> 0 <= b -> a + b < 2 ^ 32 ->
  unit_interval (nan_to_num (ratio a (add32 a b))).
Proof.
  intros Ha Hb Hab. unfold add32. rewrite wrap32_small by lia.
  unfold ratio, fdiv, unit_interval.
  destruct (Qeq_bool (inject_Z (a + b)) 0) eqn:E.
  - apply Qeq_bool_iff in E. unfold Qeq in E. cbn in E.
    assert (a = 0) as -> by lia.
    replace (inject_Z 0 ?= 0)%Q with Eq by reflexivity. cbn [nan_to_num]. lra.
  - apply Qeq_bool_neq in E. cbn [nan_to_num].
    assert (Hpos : (0 < inject_Z (a + b))%Q).
    { change 0%Q with (inject_Z 0). rewrite <- Zlt_Qlt.
      assert (a + b <> 0); [|lia]. intros E0. apply E. rewrite E0. reflexivity. }
    assert (Ha' : (0 <= inject_Z a)%Q).
    { change 0%Q with (inject_Z 0). rewrite <- Zle_Qle. exact Ha. }
    assert (Hle : (inject_Z a <= inject_Z (a + b))%Q).
    { rewrite <- Zle_Qle. lia. }
    split.
    + apply Qle_shift_div_l; [exact Hpos|]. lra.
    + apply Qle_shift_div_r; [exact Hpos|]. lra.
Qed.

Lemma ratio_matrix_lookup (A B : list (list Z)) (p k : nat) (row : list Q) (q : Q) :
  ratio_matrix A B !! p = Some row -> row !! k = Some q ->
  exists ra rb a b,
    A !! p = Some ra /\ B !! p = Some rb /\ ra !! k = Some a /\ rb !! k = Some b /\
    q = nan_to_num (ratio a (add32 a b)).
Proof.
  unfold ratio_matrix, mat_zip. rewrite list_lookup_fmap, !lookup_zip_with.
  destruct (A !! p) as [ra|] eqn:Ea; [|discriminate]. cbn.
  destruct (B !! p) as [rb|] eqn:Eb; [|discriminate]. cbn.
  intros H. injection H as <-.
  rewrite list_lookup_fmap, !lookup_zip_with.
  destruct (ra !! k) as [a|] eqn:Eka; [|discriminate]. cbn.
  destruct (rb !! k) as [b|] eqn:Ekb; [|discriminate]. cbn.
  intros H. injection H as <-. exists ra, rb, a, b. auto.
Qed.

Lemma ratio_matrix_shape (P C : nat) (A B : list (list Z)) :
  shape P C A -> shape P C B ->
  length (ratio_matrix A B) = P /\
  Forall (fun r => length r = C) (ratio_matrix A B).
Proof.
  intros [HA HAr] [HB HBr]. unfold ratio_matrix, mat_zip. split.
  - rewrite length_map, length_zip_with, length_zip_with. lia.
  - apply Forall_lookup. intros p row Hrow.
    rewrite list_lookup_fmap, !lookup_zip_with in Hrow.
    destruct (A !! p) as [ra|] eqn:Ea; [|discriminate]. cbn in Hrow.
    destruct (B !! p) as [rb|] eqn:Eb; [|discriminate]. cbn in Hrow.
    injection Hrow as <-.
    rewrite length_map, length_zip_with, length_zip_with.
    eapply Forall_lookup_1 in HAr; [|exact Ea].
    eapply Forall_lookup_1 in HBr; [|exact Eb]. cbn in *. lia.
Qed.

Lemma sum_axis0_range (C : nat) (m : list (list Q)) :
  Forall (fun r => length r = C /\ Forall unit_interval r) m ->
  length (sum_axis0 C m) = C /\
  Forall (fun s => (0 <= s <= inject_Z (Z.of_nat (length m)))%Q) (sum_axis0 C m).
Proof.
  unfold sum_axis0. induction 1 as [|r m [Hlen Hr] _ [IHl IH]]; cbn [foldr length].
  - rewrite length_replicate. split; [reflexivity|].
    apply Forall_replicate. change (inject_Z (Z.of_nat 0)) with 0%Q. lra.
  - split; [rewrite length_zip_with; lia|].
    apply Forall_lookup. intros j s Hs. rewrite lookup_zip_with in Hs.
    destruct (r !! j) as [x|] eqn:Ex; [|discriminate]. cbn in Hs.
    destruct (foldr _ _ m !! j) as [y|] eqn:Ey; [|discriminate]. cbn in Hs.
    injection Hs as <-.
    eapply Forall_lookup_1 in Hr; [|exact Ex].
    eapply Forall_lookup_1 in IH; [|exact Ey]. cbn in IH.
    rewrite Nat2Z.inj_succ, <- Z.add_1_r, inject_Z_plus.
    unfold unit_interval in Hr. cbn [inject_Z]. change (inject_Z 1) with 1%Q.
    lra.
Qed.

Lemma mean_axis0_range (C : nat) (m : list (list Q)) :
  m <> [] ->
  Forall (fun r => length r = C /\ Forall unit_interval r) m ->
  length (mean_axis0 C m) = C /\
  Forall (fun v => exists q, v = FNum q /\ unit_interval q) (mean_axis0 C m).
Proof.
  intros Hne Hm. destruct (sum_axis0_range C m Hm) as [Hl Hs].
  unfold mean_axis0. split; [rewrite length_map; exact Hl|].
  rewrite Forall_fmap. eapply Forall_impl; [exact Hs|].
  intros s [H0 H1]. cbn.
  assert (Hpos : (0 < inject_Z (Z.of_nat (length m)))%Q).
  { change 0%Q with (inject_Z 0). rewrite <- Zlt_Qlt.
    destruct m; [congruence|]. cbn [length]. lia. }
  rewrite fdiv_num by lra. eexists. split; [reflexivity|]. split.
  - apply Qle_shift_div_l; [exact Hpos|]. lra.
  - apply Qle_shift_div_r; [exact Hpos|]. lra.
Qed.

Lemma cell_lookup (A : list (list Z)) (p k : nat) (ra : list Z) (a : Z) :
  A !! p = Some ra -> ra !! k = Some a -> cell A p k = a.
Proof. intros Hp Hk. unfold cell. rewrite Hp. cbn. rewrite Hk. reflexivity. Qed.

(** The mean over the thresholds of the sanitized ratios [A / (A + B)]. *)
Lemma mean_ratio_range (P C : nat) (A B : list (list Z)) :
  (0 < P)%nat -> shape P C A -> shape P C B ->
  (forall p k, (p < P)%nat -> (k < C)%nat ->
     0 <= cell A p k /\ 0 <= cell B p k /\ cell A p k + cell B p k < 2 ^ 32) ->
  length (mean_axis0 C (ratio_matrix A B)) = C /\
  Forall (fun v => exists q, v = FNum q /\ unit_interval q)
         (mean_axis0 C (ratio_matrix A B)).
Proof.
  intros HP HA HB Hcells.
  destruct (ratio_matrix_shape P C A B HA HB) as [Hlen Hrows].
  apply mean_axis0_range.
  - intros E. rewrite E in Hlen. cbn in Hlen. lia.
  - apply Forall_lookup. intros p row Hrow. split.
    + eapply Forall_lookup_1 in Hrows; [exact Hrows|exact Hrow].
    + apply Forall_lookup. intros k q Hq.
      destruct (ratio_matrix_lookup A B p k row q Hrow Hq)
        as (ra & rb & a & b & Ea & Eb & Eka & Ekb & ->).
      pose proof (lookup_lt_Some _ _ _ Ea) as Hp.
      pose proof (lookup_lt_Some _ _ _ Eka) as Hk.
      destruct HA as [HAl HAr].
      eapply Forall_lookup_1 in HAr; [|exact Ea]. cbn in HAr.
      destruct (Hcells p k) as (H1 & H2 & H3); [lia..|].
      rewrite (cell_lookup A p k ra a Ea Eka) in *.
      rewrite (cell_lookup B p k rb b Eb Ekb) in *.
      apply ratio_range; assumption.
Qed.

Lemma run_wf n sp t frames ev :
  run (Evaluator_init n sp t) frames = Ok ev -> wf_ev ev.
Proof.
  intros H. apply (sf_wf _ _ (run_same_frame _ _ _ H)), Evaluator_init_wf.
Qed.

Lemma linspace01_length sp : length (linspace01 sp) = sp.
Proof.
  destruct sp as [|[|sp]]; [reflexivity..|].
  unfold linspace01. rewrite length_map, length_seq. reflexivity.
Qed.

(** C7, as stated, fails: with an IoU threshold of zero the re-thresholding
    accepts every pair, one prediction is matched with two ground truths,
    FP receives -1 and wraps to 2^32 - 1, and the precision is 2. *)
Lemma precision_above_one :
  wf_frame overmatched_pd overmatched_gt /\
  run (Evaluator_init 1 1 0) [(overmatched_pd, overmatched_gt)]
    = Ok overmatched_ev /\
  precision overmatched_ev = [FNum 2] /\ ~ (2 <= 1)%Q.
Proof.
  split; [split; reflexivity|]. split; [vm_compute; reflexivity|].
  split; [vm_compute; reflexivity|]. unfold Qle. cbn. lia.
Qed.

(** Without thresholds the mean over the thresholds is [0/0]. *)
Lemma precision_nan_without_thresholds :
  precision (Evaluator_init 2 0 (1 # 2)) = [NaN; NaN].
Proof. vm_compute. reflexivity. Qed.

(** C7, amended: for an evaluator with a positive IoU threshold and at least
    one score threshold, after any sequence of [update] calls that return,
    on frames with consistent lengths that hold fewer than 2^32 predictions
    and fewer than 2^32 ground truths in total, [precision] and [recall]
    have one entry per class, and every entry is a number in [0,1], never
    nan. *)
Theorem precision_recall_range (n sp : nat) (t : Q)
    (frames : list (Predictions * Groundtruths)) (ev : Evaluator) :
  (0 < t)%Q -> (0 < sp)%nat ->
  Forall (fun fr => wf_frame (fst fr) (snd fr)) frames ->
  total_pd frames < 2 ^ 32 -> total_gt frames < 2 ^ 32 ->
  run (Evaluator_init n sp t) frames = Ok ev ->
  length (precision ev) = n /\ length (recall ev) = n /\
  forall v, v ∈ precision ev ++ recall ev ->
    exists q, v = FNum q /\ (0 <= q <= 1)%Q.
Proof.
  intros Ht Hsp Hfr Hpd Hgt H.
  destruct (range_invariant_run n sp t frames ev Ht Hfr H)
    as (Hn & Hts & _ & Hinv).
  specialize (Hinv Hpd Hgt).
  pose proof (run_wf _ _ _ _ _ H) as Hwf. apply wf_ev_shapes in Hwf.
  rewrite Hn, Hts, linspace01_length in Hwf.
  destruct Hwf as (HT & HP & HN & _).
  assert (Hcell : forall p k, (p < sp)%nat -> (k < n)%nat ->
            0 <= cell (TP ev) p k /\ 0 <= cell (FP ev) p k /\
            0 <= cell (FN ev) p k /\
            cell (TP ev) p k + cell (FP ev) p k < 2 ^ 32 /\
            cell (TP ev) p k + cell (FN ev) p k < 2 ^ 32).
  { intros p k Hp Hk.
    destruct (lookup_lt_is_Some_2 (linspace01 sp) p) as [t' Ht'];
      [rewrite linspace01_length; exact Hp|].
    specialize (Hinv p t' k Ht' Hk). cbn [fst snd] in Hinv. lia. }
  destruct (mean_ratio_range sp n (TP ev) (FP ev) Hsp HT HP) as [Lp Fp].
  { intros p k Hp Hk. specialize (Hcell p k Hp Hk). lia. }
  destruct (mean_ratio_range sp n (TP ev) (FN ev) Hsp HT HN) as [Lr Fr].
  { intros p k Hp Hk. specialize (Hcell p k Hp Hk). lia. }
  unfold precision, recall. fold (ratio_matrix (TP ev) (FP ev)).
  fold (ratio_matrix (TP ev) (FN ev)). rewrite Hn.
  split; [exact Lp|]. split; [exact Lr|].
  intros v Hv. apply elem_of_app in Hv.
  rewrite Forall_forall in Fp. rewrite Forall_forall in Fr.
  destruct Hv as [Hv|Hv]; [apply Fp, Hv|apply Fr, Hv].
Qed.

Lemma precision_recall_range_witness :
  length (precision example_ev) = 2%nat /\
  length (recall example_ev) = 2%nat.
Proof.
  destruct (precision_recall_range 2 3 (1 # 2) [(example_pd, example_gt)]
              example_ev) as (Hp & Hr & _).
  - reflexivity.
  - lia.
  - repeat constructor.
  - reflexivity.
  - reflexivity.
  - exact example_run.
  - split; [exact Hp|exact Hr].
Defined.

(** ** mAP *)

(** What the loop of [mAP] computes for two classes: one value, built from
    the pairs of both classes, stored in every entry. *)
Lemma mAP_two_classes (ev : Evaluator) (p0 p1 r0 r1 : fval) :
  n_class ev = 2%nat -> precision ev = [p0; p1] -> recall ev = [r0; r1] ->
  let first := fadd (FNum 0) (fmul p1 (fsub r1 (FNum 0))) in
  let v := fadd first (fmul p0 (fsub r0 r1)) in
  mAP ev = [v; v].
Proof.
  intros Hn Hp Hr. unfold mAP. rewrite Hn, Hp, Hr. reflexivity.
Qed.

Lemma mixed_run :
  run (Evaluator_default 2) [(mixed_pd, mixed_gt)] = Ok mixed_ev.
Proof. vm_compute. reflexivity. Qed.

(** C3 at the failing input: class 1 has TP equal to its ground truths and
    FP = FN = 0 at every threshold, and its mAP entry is 1/2; the loop of
    [mAP] runs over the classes, not over the thresholds. *)
Theorem mAP_perfect_class_not_one :
  run (Evaluator_default 2) [(mixed_pd, mixed_gt)] = Ok mixed_ev /\
  entry (gt_counts mixed_ev) 1 = 1 /\
  map (fun p => cells mixed_ev p 1) (seq 0 11) = replicate 11 (1, 0, 0) /\
  exists v0 v1, mAP mixed_ev = [v0; v1] /\ feq v1 (FNum (1 # 2)) /\
                ~ feq v1 (FNum 1).
Proof.
  split; [exact mixed_run|]. split; [reflexivity|].
  split; [vm_compute; reflexivity|].
  eexists _, _. split; [vm_compute; reflexivity|].
  split; [reflexivity|]. cbn. unfold Qeq. cbn. lia.
Qed.

(** ** The driver *)

Lemma np_sum_all_ones {A} (l : list A) :
  np_sum (eq_mask (map (fun _ => 1) l) 1) = Z.of_nat (length l).
Proof.
  unfold eq_mask. induction l as [|x l IH]; [reflexivity|].
  cbn [map length np_sum]. rewrite IH.
  change (1 =? Z.of_nat 1) with true. lia.
Qed.

Section MainFacts.
Variable results : list (option (list Detection)).
Variable testset : list (list Box * list Z).

Lemma main_frame_step (ev : Evaluator) (G : Z) (i : nat) :
  main_invariant ev G -> (i < length testset)%nat ->
  exists ev', main_frame results testset ev i = Ok ev' /\
              main_invariant ev' (G + gt_counted results testset i).
Proof.
  intros (Hwf & Hn & Hg) Hi. unfold main_frame, gt_counted, frame_read.
  destruct (lookup_lt_is_Some_2 testset i Hi) as [[boxes labels] Et].
  rewrite Et.
  destruct (results !! i) as [[detection|]|] eqn:Er;
    try (exists ev; rewrite Z.add_0_r; split; [reflexivity|];
         split; [exact Hwf|]; split; assumption).
  destruct boxes as [|b boxes].
  - exists ev. cbn. rewrite Z.add_0_r. split; [reflexivity|].
    split; [exact Hwf|]. split; assumption.
  - cbn [length Nat.eqb].
    set (pd := {| pd_class_ids := map det_class detection;
                  pd_scores := Some (map det_score detection);
                  pd_bboxes := map det_box detection |}).
    set (gt := {| gt_class_ids := map (fun _ => 1) (b :: boxes);
                  gt_bboxes := b :: boxes |}).
    assert (Hfr : wf_frame pd gt).
    { split; unfold frame_scores; cbn; rewrite ?length_map; reflexivity. }
    destruct (update_total ev pd gt Hwf Hfr) as [ev' H];
      [right; discriminate|].
    exists ev'. split; [exact H|].
    destruct (update_Ok _ _ _ _ H) as ([Fn _ _ Fw] & Hall).
    destruct (Hall 1%nat) as (Hg' & _); [lia|].
    split; [auto|]. split; [congruence|].
    rewrite Hg', Hg. unfold gt. cbn [gt_class_ids].
    rewrite (np_sum_all_ones (b :: boxes)). apply wrap32_add_l.
Qed.

Lemma main_loop (n : nat) :
  forall (s : nat) (ev : Evaluator) (G : Z),
  main_invariant ev G -> (s + n <= length testset)%nat ->
  exists ev',
    for_loop (main_frame results testset) ev (seq s n) = Ok ev' /\
    main_invariant ev'
      (G + foldr (fun i acc => gt_counted results testset i + acc) 0 (seq s n)).
Proof.
  induction n as [|n IH]; intros s ev G Hinv Hs.
  - exists ev. split; [reflexivity|]. cbn. rewrite Z.add_0_r. exact Hinv.
  - cbn [seq for_loop foldr].
    destruct (main_frame_step ev G s Hinv) as (ev1 & H1 & Hinv1); [lia|].
    rewrite H1. unfold_bind.
    destruct (IH (S s) ev1 _ Hinv1) as (ev' & H & Hinv'); [lia|].
    exists ev'. split; [exact H|]. rewrite Z.add_assoc. exact Hinv'.
Qed.
End MainFacts.

Lemma sum_axis0_length (C : nat) (m : list (list Q)) :
  Forall (fun r => length r = C) m -> length (sum_axis0 C m) = C.
Proof.
  unfold sum_axis0. induction 1 as [|r m Hr _ IH]; cbn [foldr].
  - apply length_replicate.
  - rewrite length_zip_with. lia.
Qed.

Lemma precision_length (ev : Evaluator) :
  wf_ev ev -> length (precision ev) = n_class ev.
Proof.
  intros Hwf. apply wf_ev_shapes in Hwf. destruct Hwf as (HT & HP & _).
  unfold precision, mean_axis0. rewrite length_map.
  apply sum_axis0_length. apply (ratio_matrix_shape _ _ _ _ HT HP).
Qed.

Lemma recall_length (ev : Evaluator) :
  wf_ev ev -> length (recall ev) = n_class ev.
Proof.
  intros Hwf. apply wf_ev_shapes in Hwf. destruct Hwf as (HT & _ & HN & _).
  unfold recall, mean_axis0. rewrite length_map.
  apply sum_axis0_length. apply (ratio_matrix_shape _ _ _ _ HT HN).
Qed.

Lemma mAP_loop_length (n : nat) (prs : list (fval * fval)) :
  forall (ap : list fval) (prev : ndarray),
  length ap = n ->
  match prev with Array l => length l = n | Scalar _ => True end ->
  length (fst (fold_left mAP_step prs (ap, prev))) = n.
Proof.
  induction prs as [|[p r] prs IH]; intros ap prev Hap Hprev; [exact Hap|].
  cbn [fold_left mAP_step]. apply IH; [|exact I].
  destruct prev as [y|l]; cbn.
  - rewrite length_map. exact Hap.
  - rewrite length_zip_with, !length_map. lia.
Qed.

Lemma mAP_length (ev : Evaluator) : length (mAP ev) = n_class ev.
Proof.
  unfold mAP. apply mAP_loop_length; apply length_replicate.
Qed.

Lemma report_value (ev : Evaluator) :
  wf_ev ev -> n_class ev = 2%nat ->
  exists a p r c,
    (let '(aps, precisions, recalls) := dump ev in
     '(aps, precisions, recalls, gt_total, pd_total) ←
       for_loop (report_class ev) ([], [], [], 0, 0)
                (enumerate (zip aps (zip precisions recalls)));
     Ok (fmean aps, fmean precisions, fmean recalls, gt_total, pd_total))
    = Ok (a, p, r, entry (gt_counts ev) 1, c).
Proof.
  intros Hwf Hn. unfold dump.
  pose proof (mAP_length ev) as La. pose proof (precision_length ev Hwf) as Lp.
  pose proof (recall_length ev Hwf) as Lr. rewrite Hn in La, Lp, Lr.
  pose proof (wf_gt_counts _ Hwf) as Lg. pose proof (wf_pd_counts _ Hwf) as Lc.
  rewrite Hn in Lg, Lc.
  destruct (mAP ev) as [|a0 [|a1 [|]]]; try discriminate.
  destruct (precision ev) as [|p0 [|p1 [|]]]; try discriminate.
  destruct (recall ev) as [|r0 [|r1 [|]]]; try discriminate.
  unfold entry.
  destruct (gt_counts ev) as [|g0 [|g1 [|]]] eqn:Eg; try discriminate.
  destruct (pd_counts ev) as [|c0 [|c1 [|]]] eqn:Ec; try discriminate.
  eexists _, _, _, _.
  unfold enumerate. cbn [length seq zip zip_with for_loop report_class Nat.eqb].
  unfold_bind. unfold report_class. cbn [Nat.eqb]. rewrite Eg, Ec. reflexivity.
Qed.

(** C5, as stated, fails: a frame with ground truth and no readable result
    file is skipped before [update], and its ground truth is not counted. *)
Lemma main_skips_unread_frames :
  exists r, main [] [([box 0 0 1 1], [1])] = Ok r /\
            reported_gt_total r = 0 /\
            gt_total_all [([box 0 0 1 1], [1])] = 1.
Proof.
  eexists. split; [vm_compute; reflexivity|]. split; reflexivity.
Qed.

(** C5, amended: [main] returns, and the total ground-truth count it reports
    is the sum, modulo 2^32, of the ground-truth box counts of exactly the
    frames whose result file was read (a frame with an absent or unreadable
    result file is skipped entirely; a frame without ground truth adds
    nothing). *)
Theorem main_gt_total (results : list (option (list Detection)))
    (testset : list (list Box * list Z)) :
  exists r, main results testset = Ok r /\
            reported_gt_total r = wrap32 (gt_total_read results testset).
Proof.
  unfold main.
  destruct (main_loop results testset (length testset) 0 (Evaluator_default 2) 0)
    as (ev & H & Hwf & Hn & Hg).
  - split; [apply Evaluator_init_wf|]. split; reflexivity.
  - lia.
  - rewrite H. unfold_bind.
    destruct (report_value ev Hwf Hn) as (a & p & r & c & Hr).
    unfold_bind. rewrite Hr. eexists. split; [reflexivity|].
    cbn. rewrite Hg. reflexivity.
Qed.

(** ** Wrap-around of the counters *)

Lemma for_loop_app {S A} (body : S -> A -> result S) (s : S) (l1 l2 : list A) :
  for_loop body s (l1 ++ l2) = s' ← for_loop body s l1; for_loop body s' l2.
Proof.
  revert s. induction l1 as [|x l1 IH]; intros s; [reflexivity|].
  cbn [app for_loop]. unfold_bind. destruct (body s x); [apply IH|reflexivity].
Qed.

Lemma wrap32_idem (a : Z) : wrap32 (wrap32 a) = wrap32 a.
Proof. unfold wrap32. apply Z.mod_mod. lia. Qed.

Lemma single_cell_update (ev : Evaluator) (pd : Predictions) (x y z a b c : Z) :
  pd_class_ids pd = [0] -> pd_scores pd = None -> length (pd_bboxes pd) = 1%nat ->
  (forall ev0, threshold ev0 = (1 # 2)%Q ->
     patch_delta [0] [1%Q] [0] (frame_iou_binding ev0 pd one_gt) 0 0
     = Ok (Selection a b c)) ->
  single_cell ev x y z ->
  exists ev', update ev pd one_gt = Ok ev' /\
              single_cell ev' (x + a) (y + b) (z + c).
Proof.
  intros Hids Hsc Hbx Hd (Hwf & Hn & Hp & Ht & Hc).
  assert (Hfr : wf_frame pd one_gt).
  { split; unfold frame_scores; rewrite ?Hsc, ?Hids, ?Hbx; reflexivity. }
  destruct (update_total ev pd one_gt Hwf Hfr) as [ev' H]; [right; discriminate|].
  exists ev'. split; [exact H|].
  destruct (update_Ok _ _ _ _ H) as ([Fn Fp Ft Fw] & Hall).
  destruct (Hall 0%nat) as (_ & _ & Hcells); [lia|].
  destruct (Hcells 0%nat 0%Q) as (d & Hd' & Hc'); [rewrite Hp; reflexivity|].
  unfold frame_scores in Hd'. rewrite Hsc, Hids in Hd'. cbn [map gt_class_ids one_gt] in Hd'.
  rewrite (Hd ev Ht) in Hd'. injection Hd' as <-.
  split; [auto|]. split; [congruence|]. split; [congruence|].
  split; [congruence|].
  rewrite Hc', Hc. cbn [cell_after]. rewrite !wrap32_add_l. reflexivity.
Qed.

Lemma single_cell_hit (ev : Evaluator) (x y z : Z) :
  single_cell ev x y z ->
  exists ev', update ev hit_pd one_gt = Ok ev' /\ single_cell ev' (x + 1) y z.
Proof.
  intros H.
  destruct (single_cell_update ev hit_pd x y z 1 0 0) as (ev' & Hu & Hs);
    try reflexivity; [|exact H|].
  - intros ev0 Ht. unfold frame_iou_binding, frame_iou. rewrite Ht.
    vm_compute. reflexivity.
  - exists ev'. split; [exact Hu|]. rewrite !Z.add_0_r in Hs. exact Hs.
Qed.

Lemma single_cell_miss (ev : Evaluator) (x y z : Z) :
  single_cell ev x y z ->
  exists ev', update ev miss_pd one_gt = Ok ev' /\
              single_cell ev' x (y + 1) (z + 1).
Proof.
  intros H.
  destruct (single_cell_update ev miss_pd x y z 0 1 1) as (ev' & Hu & Hs);
    try reflexivity; [|exact H|].
  - intros ev0 Ht. unfold frame_iou_binding, frame_iou. rewrite Ht.
    vm_compute. reflexivity.
  - exists ev'. split; [exact Hu|]. rewrite Z.add_0_r in Hs. exact Hs.
Qed.

Lemma single_cell_hits (N : nat) :
  forall (ev : Evaluator) (x y z : Z),
  single_cell ev x y z ->
  exists ev', run ev (replicate N (hit_pd, one_gt)) = Ok ev' /\
              single_cell ev' (x + Z.of_nat N) y z.
Proof.
  induction N as [|N IH]; intros ev x y z H.
  - exists ev. split; [reflexivity|]. rewrite Z.add_0_r. exact H.
  - destruct (single_cell_hit ev x y z H) as (ev1 & H1 & Hs1).
    destruct (IH ev1 _ _ _ Hs1) as (ev' & H' & Hs').
    exists ev'. split.
    + cbn [replicate]. unfold run in *. cbn [for_loop]. rewrite H1. exact H'.
    + replace (x + Z.of_nat (S N)) with (x + 1 + Z.of_nat N) by lia. exact Hs'.
Qed.

Lemma precision_after_wrap_frames (N : nat) :
  Z.of_nat N = 2 ^ 32 - 1 ->
  exists ev,
    run (Evaluator_init 1 1 (1 # 2))
        (replicate N (hit_pd, one_gt) ++ [(miss_pd, one_gt); (miss_pd, one_gt)])
      = Ok ev /\
    cells ev 0 0 = (4294967295, 2, 2) /\
    precision ev = [FNum (4294967295 / 1)].
Proof.
  intros HN.
  assert (H0 : single_cell (Evaluator_init 1 1 (1 # 2)) 0 0 0).
  { split; [apply Evaluator_init_wf|]. repeat split; reflexivity. }
  destruct (single_cell_hits N _ _ _ _ H0) as (ev1 & H1 & Hs1).
  rewrite HN in Hs1.
  destruct (single_cell_miss ev1 _ _ _ Hs1) as (ev2 & H2 & Hs2).
  destruct (single_cell_miss ev2 _ _ _ Hs2) as (ev3 & H3 & Hs3).
  exists ev3. split.
  - unfold run in *. rewrite for_loop_app, H1.
    cbn [for_loop]. unfold_bind. rewrite H2, H3. reflexivity.
  - clear H0 H1 H2 H3 Hs1 Hs2. destruct Hs3 as (Hwf & Hn & Hp & Ht & Hc).
    change (wrap32 (0 + (2 ^ 32 - 1))) with 4294967295 in Hc.
    change (wrap32 (0 + 1 + 1)) with 2 in Hc.
    split; [exact Hc|].
    apply wf_ev_shapes in Hwf. rewrite Hn, Hp in Hwf.
    destruct Hwf as ((LT & RT) & (LF & RF) & _).
    unfold cells, cell in Hc. unfold precision. rewrite Hn.
    destruct (TP ev3) as [|rt [|]]; try discriminate.
    destruct (FP ev3) as [|rf [|]]; try discriminate.
    inversion RT as [|? ? Lrt _]; subst. inversion RF as [|? ? Lrf _]; subst.
    destruct rt as [|a [|]]; try discriminate.
    destruct rf as [|b [|]]; try discriminate.
    cbn in Hc. injection Hc as -> -> _. reflexivity.
Qed.

(** More than 2^32 counted boxes: 2^32 - 1 frames with a true positive and
    two frames with a false positive leave TP = 2^32 - 1 and FP = 2, the
    [uint32] sum TP + FP wraps to 1, and the precision is 2^32 - 1. *)
Lemma precision_after_wrap :
  exists ev, run (Evaluator_init 1 1 (1 # 2)) overflow_frames = Ok ev /\
             cells ev 0 0 = (4294967295, 2, 2) /\
             precision ev = [FNum (4294967295 / 1)].
Proof.
  apply (precision_after_wrap_frames (Z.to_nat (2 ^ 32 - 1))).
  apply Z2Nat.id. discriminate.
Qed.

(** ** More on the IoU matrix *)

Lemma fdiv_feq (x x' y y' : Q) :
  (x == x')%Q -> (y == y')%Q -> feq (fdiv x y) (fdiv x' y').
Proof.
  intros Hx Hy. unfold fdiv.
  destruct (Qeq_bool y 0) eqn:E; destruct (Qeq_bool y' 0) eqn:E'.
  - rewrite <- (Qcompare_comp x x' Hx 0%Q 0%Q (Qeq_refl 0%Q)).
    destruct (x ?= 0)%Q; exact I.
  - apply Qeq_bool_iff in E. apply Qeq_bool_neq in E'. exfalso. apply E'.
    rewrite <- Hy. exact E.
  - apply Qeq_bool_iff in E'. apply Qeq_bool_neq in E. exfalso. apply E.
    rewrite Hy. exact E'.
  - cbn. apply Qeq_bool_neq in E'. rewrite Hx, Hy. reflexivity.
Qed.

Lemma box_intersection_sym (a b : Box) :
  (box_intersection a b == box_intersection b a)%Q.
Proof.
  unfold box_intersection.
  rewrite (Q.min_comm (c3 a) (c3 b)), (Q.max_comm (c1 a) (c1 b)).
  rewrite (Q.min_comm (c2 a) (c2 b)), (Q.max_comm (c0 a) (c0 b)).
  reflexivity.
Qed.

Lemma box_iou_sym (a b : Box) : feq (box_iou a b) (box_iou b a).
Proof.
  unfold box_iou. apply fdiv_feq.
  - apply box_intersection_sym.
  - rewrite (box_intersection_sym a b). ring.
Qed.

Lemma pairwise_iou_lookup (tar src : list Box) (i j : nat) (row : list fval)
    (v : fval) :
  pairwise_iou tar src !! i = Some row -> row !! j = Some v ->
  exists a b, tar !! i = Some a /\ src !! j = Some b /\ v = box_iou b a.
Proof.
  unfold pairwise_iou. rewrite list_lookup_fmap.
  destruct (tar !! i) as [a|] eqn:Ea; [|discriminate]. cbn.
  intros H. injection H as <-. rewrite list_lookup_fmap.
  destruct (src !! j) as [b|] eqn:Eb; [|discriminate]. cbn.
  intros H. injection H as <-. eauto.
Qed.

(** X1: [compute_overlaps(boxes1, boxes2)] has a row per box of [boxes1] and
    a column per box of [boxes2], also when one of the arrays is empty, and
    its entry [(i, j)] is the intersection over union of [boxes1[i]] and
    [boxes2[j]]. *)
Theorem compute_overlaps_entries (boxes1 boxes2 : list Box) :
  length (compute_overlaps boxes1 boxes2) = length boxes1 /\
  Forall (fun row => length row = length boxes2) (compute_overlaps boxes1 boxes2) /\
  forall i j a b, boxes1 !! i = Some a -> boxes2 !! j = Some b ->
    exists row, compute_overlaps boxes1 boxes2 !! i = Some row /\
                row !! j = Some (fdiv (box_intersection b a)
                                      (box_area b + box_area a
                                       - box_intersection b a)).
Proof.
  rewrite compute_overlaps_pairwise. unfold pairwise_iou.
  split; [apply length_map|]. split.
  - rewrite Forall_fmap. apply Forall_forall. intros a _. cbn. apply length_map.
  - intros i j a b Ha Hb. eexists. rewrite list_lookup_fmap, Ha. cbn.
    split; [reflexivity|]. rewrite list_lookup_fmap, Hb. reflexivity.
Qed.

(** X2: [compute_overlaps] is symmetric up to transposition: entry [(i, j)]
    of [compute_overlaps(A, B)] and entry [(j, i)] of
    [compute_overlaps(B, A)] are the same value (both nan, or equal
    numbers). *)
Theorem compute_overlaps_transpose (A B : list Box) (i j : nat)
    (ra rb : list fval) (x y : fval) :
  compute_overlaps A B !! i = Some ra -> ra !! j = Some x ->
  compute_overlaps B A !! j = Some rb -> rb !! i = Some y ->
  feq x y.
Proof.
  rewrite !compute_overlaps_pairwise. intros Hra Hx Hrb Hy.
  destruct (pairwise_iou_lookup _ _ _ _ _ _ Hra Hx) as (a & b & Ha & Hb & ->).
  destruct (pairwise_iou_lookup _ _ _ _ _ _ Hrb Hy) as (b' & a' & Hb' & Ha' & ->).
  assert (a' = a) as -> by congruence. assert (b' = b) as -> by congruence.
  apply box_iou_sym.
Qed.

Lemma compute_overlaps_transpose_witness :
  feq (FNum (25 # 100)) (FNum (25 # 100)).
Proof.
  apply (compute_overlaps_transpose [box 0 0 10 10] [box 0 0 5 5] 0 0
           [FNum (25 # 100)] [FNum (25 # 100)]); reflexivity.
Defined.

Lemma clamp_bounds (lo1 hi1 lo2 hi2 : Q) :
  (lo1 <= hi1)%Q -> (lo2 <= hi2)%Q ->
  (0 <= Qmax (Qmin hi1 hi2 - Qmax lo1 lo2) 0)%Q /\
  (Qmax (Qmin hi1 hi2 - Qmax lo1 lo2) 0 <= hi1 - lo1)%Q /\
  (Qmax (Qmin hi1 hi2 - Qmax lo1 lo2) 0 <= hi2 - lo2)%Q.
Proof.
  intros H1 H2.
  pose proof (Q.le_min_l hi1 hi2). pose proof (Q.le_min_r hi1 hi2).
  pose proof (Q.le_max_l lo1 lo2). pose proof (Q.le_max_r lo1 lo2).
  destruct (Q.max_spec (Qmin hi1 hi2 - Qmax lo1 lo2) 0) as [[? ->]|[? ->]];
    repeat split; lra.
Qed.

Lemma box_intersection_bounds (a b : Box) :
  (c0 a <= c2 a)%Q -> (c1 a <= c3 a)%Q -> (c0 b <= c2 b)%Q -> (c1 b <= c3 b)%Q ->
  (0 <= box_intersection a b)%Q /\
  (box_intersection a b <= box_area a)%Q /\
  (box_intersection a b <= box_area b)%Q.
Proof.
  intros Ha0 Ha1 Hb0 Hb1. unfold box_intersection, box_area.
  destruct (clamp_bounds (c1 a) (c3 a) (c1 b) (c3 b) Ha1 Hb1) as (W0 & Wa & Wb).
  destruct (clamp_bounds (c0 a) (c2 a) (c0 b) (c2 b) Ha0 Hb0) as (H0 & Ha & Hb).
  set (w := Qmax (Qmin (c3 a) (c3 b) - Qmax (c1 a) (c1 b)) 0) in *.
  set (h := Qmax (Qmin (c2 a) (c2 b) - Qmax (c0 a) (c0 b)) 0) in *.
  split; [apply Qmult_le_0_compat; assumption|]. split.
  - rewrite (Qmult_comm (c2 a - c0 a)).
    apply Qmult_le_compat_nonneg; split; assumption.
  - rewrite (Qmult_comm (c2 b - c0 b)).
    apply Qmult_le_compat_nonneg; split; assumption.
Qed.

Lemma fdiv_zero_numerator (x y : Q) : (x == 0)%Q -> iou_value (fdiv x y).
Proof.
  intros Hx. unfold fdiv. destruct (Qeq_bool y 0) eqn:E.
  - left. apply Qeq_alt in Hx. rewrite Hx. reflexivity.
  - right. eexists. split; [reflexivity|].
    assert (H : (x / y == 0)%Q) by (rewrite Hx; unfold Qdiv; ring).
    rewrite H. split; [apply Qle_refl|discriminate].
Qed.

Lemma box_iou_range (a b : Box) : iou_value (box_iou a b).
Proof.
  unfold box_iou.
  destruct (Q.max_spec (Qmin (c3 a) (c3 b) - Qmax (c1 a) (c1 b)) 0)
    as [[Hw Ew]|[Hw Ew]];
    [apply fdiv_zero_numerator; unfold box_intersection; rewrite Ew; ring|].
  destruct (Q.max_spec (Qmin (c2 a) (c2 b) - Qmax (c0 a) (c0 b)) 0)
    as [[Hh Eh]|[Hh Eh]];
    [apply fdiv_zero_numerator; unfold box_intersection; rewrite Eh; ring|].
  destruct (Qle_lt_or_eq _ _ Hw) as [Hw'|Hw'];
    [|apply fdiv_zero_numerator; unfold box_intersection;
      rewrite Ew, <- Hw'; ring].
  destruct (Qle_lt_or_eq _ _ Hh) as [Hh'|Hh'];
    [|apply fdiv_zero_numerator; unfold box_intersection;
      rewrite Eh, <- Hh'; ring].
  pose proof (Q.le_min_l (c3 a) (c3 b)). pose proof (Q.le_min_r (c3 a) (c3 b)).
  pose proof (Q.le_max_l (c1 a) (c1 b)). pose proof (Q.le_max_r (c1 a) (c1 b)).
  pose proof (Q.le_min_l (c2 a) (c2 b)). pose proof (Q.le_min_r (c2 a) (c2 b)).
  pose proof (Q.le_max_l (c0 a) (c0 b)). pose proof (Q.le_max_r (c0 a) (c0 b)).
  destruct (box_intersection_bounds a b) as (I0 & Ia & Ib); try lra.
  assert (Ipos : (0 < box_intersection a b)%Q).
  { unfold box_intersection. rewrite Ew, Eh.
    apply Qmult_lt_0_compat; assumption. }
  right. rewrite fdiv_num by lra. eexists. split; [reflexivity|]. split.
  - apply Qle_shift_div_l; lra.
  - apply Qle_shift_div_r; lra.
Qed.

(** X3: whatever the boxes (zero-area, inverted), every entry of
    [compute_overlaps] is nan or a number in [0,1]: the clamped intersection
    is positive only for two boxes of positive height and width, and is then
    at most each area. *)
Theorem compute_overlaps_range (boxes1 boxes2 : list Box) :
  Forall (Forall iou_value) (compute_overlaps boxes1 boxes2).
Proof.
  rewrite compute_overlaps_pairwise. unfold pairwise_iou.
  rewrite Forall_fmap. apply Forall_forall. intros a _. cbn.
  rewrite Forall_fmap. apply Forall_forall. intros b _. cbn.
  apply box_iou_range.
Qed.

Lemma forallb_take_fmap {A B} (g : B -> bool) (f : A -> B) (j : nat)
    (l : list A) :
  forallb g (take j (map f l)) = forallb (fun a => g (f a)) (take j l).
Proof.
  revert j. induction l as [|a l IH]; intros [|j]; cbn; try reflexivity.
  rewrite IH. reflexivity.
Qed.

Lemma first_max_earlier (row : list bool) (j : nat) (x : bool) :
  row !! j = Some x ->
  x && first_max row j = x && forallb negb (take j row).
Proof.
  intros Hj. destruct x; [|reflexivity]. cbn [andb].
  unfold first_max. rewrite Hj. cbn [default from_option id].
  replace (forallb (fun x => implb x true) row) with true.
  - cbn [andb]. generalize (take j row). intros l.
    induction l as [|[] l IH]; cbn; [reflexivity|reflexivity|exact IH].
  - symmetry. apply forallb_forall. intros []; reflexivity.
Qed.

(** Entry [(i, j)] of the match matrix, for any threshold. *)
Lemma Evaluator_compute_iou_entry (tar src : list Box) (t : Q) (i j : nat)
    (a b : Box) :
  tar !! i = Some a -> src !! j = Some b ->
  exists m row,
    Evaluator_compute_iou tar src t = Ok m /\ m !! i = Some row /\
    row !! j = Some (Qle_bool t (bool_to_Q
      (fge (box_iou b a) t &&
       forallb (fun b' => negb (fge (box_iou b' a) t)) (take j src)))).
Proof.
  intros Ha Hb.
  assert (Hsrc : src <> []) by (intros ->; discriminate).
  rewrite (Evaluator_compute_iou_value tar src t Hsrc).
  unfold compute_iou_spec, pairwise_iou. do 2 eexists. split; [reflexivity|].
  rewrite !list_lookup_fmap, Ha. cbn. split; [reflexivity|].
  unfold keep_argmax. rewrite list_lookup_fmap, list_lookup_imap.
  rewrite !list_lookup_fmap, Hb. cbn. do 3 f_equal.
  rewrite first_max_earlier
    by (rewrite !list_lookup_fmap, Hb; reflexivity).
  f_equal. rewrite !forallb_take_fmap. reflexivity.
Qed.

(** X4: [Evaluator.compute_iou] raises [ValueError] exactly when there is no
    source (ground-truth) box, whatever the target boxes; otherwise it
    returns a boolean matrix with a row per target box and a column per
    source box. *)
Theorem Evaluator_compute_iou_shape (tar src : list Box) (t : Q) :
  match Evaluator_compute_iou tar src t with
  | Ok m => src <> [] /\ length m = length tar /\
            Forall (fun r => length r = length src) m
  | Raise e => src = [] /\ e = ValueError
  end.
Proof.
  destruct src as [|s src].
  - unfold Evaluator_compute_iou. cbn. split; reflexivity.
  - rewrite Evaluator_compute_iou_value by discriminate.
    split; [discriminate|]. apply compute_iou_spec_shape.
Qed.

(** X5: for a threshold in (0, 1], target [i] is matched to source [j]
    exactly when their IoU reaches the threshold and no source before [j]
    does: a target is matched to the first source that reaches the
    threshold, not to the one of largest IoU. *)
Theorem Evaluator_compute_iou_first_match (tar src : list Box) (t : Q)
    (i j : nat) (a b : Box) :
  (0 < t)%Q -> (t <= 1)%Q ->
  tar !! i = Some a -> src !! j = Some b ->
  exists m row,
    Evaluator_compute_iou tar src t = Ok m /\ m !! i = Some row /\
    row !! j = Some (fge (box_iou b a) t &&
                     forallb (fun b' => negb (fge (box_iou b' a) t)) (take j src)).
Proof.
  intros H0 H1 Ha Hb.
  destruct (Evaluator_compute_iou_entry tar src t i j a b Ha Hb)
    as (m & row & Hm & Hrow & Hj).
  exists m, row. split; [exact Hm|]. split; [exact Hrow|].
  rewrite Hj. f_equal.
  destruct (fge (box_iou b a) t && _); cbn.
  - apply Qle_bool_iff. exact H1.
  - destruct (Qle_bool t 0) eqn:E; [|reflexivity].
    apply Qle_bool_iff in E. lra.
Qed.

Lemma Evaluator_compute_iou_first_match_witness :
  exists m row,
    Evaluator_compute_iou [box 0 0 10 10] [box 0 0 9 10; box 0 0 10 10] (1 # 2)
      = Ok m /\ m !! 0%nat = Some row /\ row !! 1%nat = Some false.
Proof.
  apply (Evaluator_compute_iou_first_match
           [box 0 0 10 10] [box 0 0 9 10; box 0 0 10 10] (1 # 2) 0 1
           (box 0 0 10 10) (box 0 0 10 10));
    [reflexivity|discriminate|reflexivity|reflexivity].
Defined.

(** X6: the second comparison [outputs >= threshold] is made on booleans,
    so a threshold outside (0, 1] decides the whole matrix: with a threshold
    of zero or less every pair is a match, with a threshold above one no
    pair is. *)
Theorem Evaluator_compute_iou_degenerate (tar src : list Box) (t : Q)
    (i j : nat) (a b : Box) :
  (t <= 0 \/ 1 < t)%Q ->
  tar !! i = Some a -> src !! j = Some b ->
  exists m row,
    Evaluator_compute_iou tar src t = Ok m /\ m !! i = Some row /\
    row !! j = Some (Qle_bool t 0).
Proof.
  intros Ht Ha Hb.
  destruct (Evaluator_compute_iou_entry tar src t i j a b Ha Hb)
    as (m & row & Hm & Hrow & Hj).
  exists m, row. split; [exact Hm|]. split; [exact Hrow|].
  rewrite Hj. f_equal.
  destruct (fge (box_iou b a) t && _); cbn; [|reflexivity].
  destruct Ht as [Ht|Ht].
  - transitivity true; [|symmetry]; apply Qle_bool_iff; lra.
  - transitivity false; [|symmetry]; apply not_true_is_false;
      intros E; apply Qle_bool_iff in E; lra.
Qed.

Lemma Evaluator_compute_iou_degenerate_witness :
  exists m row,
    Evaluator_compute_iou [box 0 0 10 10] [box 20 20 30 30] 0 = Ok m /\
    m !! 0%nat = Some row /\ row !! 0%nat = Some true.
Proof.
  apply (Evaluator_compute_iou_degenerate
           [box 0 0 10 10] [box 20 20 30 30] 0 0 0
           (box 0 0 10 10) (box 20 20 30 30));
    [left; discriminate|reflexivity|reflexivity].
Defined.

(** X7: with a positive threshold every target box is matched to at most one
    source box: each row of the result holds at most one [True]. *)
Theorem Evaluator_compute_iou_one_match (tar src : list Box) (t : Q)
    (m : list (list bool)) :
  (0 < t)%Q -> Evaluator_compute_iou tar src t = Ok m ->
  Forall (fun row => np_sum row <= 1) m.
Proof.
  intros Ht Hm. destruct src as [|s src]; [discriminate|].
  rewrite Evaluator_compute_iou_value in Hm by discriminate.
  injection Hm as <-. apply compute_iou_spec_rows, Ht.
Qed.

Lemma Evaluator_compute_iou_one_match_witness :
  Forall (fun row => np_sum row <= 1) [[true; false]].
Proof.
  exact (Evaluator_compute_iou_one_match
           [box 0 0 10 10] [box 0 0 9 10; box 0 0 10 10] (1 # 2)
           [[true; false]] eq_refl eq_refl).
Defined.

Lemma frame_iou_binding_threshold ev ev' pd gt :
  threshold ev' = threshold ev ->
  frame_iou_binding ev' pd gt = frame_iou_binding ev pd gt.
Proof.
  intros H. unfold frame_iou_binding, frame_iou. rewrite H. reflexivity.
Qed.

Lemma add3_comm a b : add3 a b = add3 b a.
Proof. unfold add3. f_equal; [f_equal|]; lia. Qed.

Lemma add3_assoc a b c : add3 a (add3 b c) = add3 (add3 a b) c.
Proof. unfold add3. cbn. f_equal; [f_equal|]; lia. Qed.

Lemma cell_after_wrap3 d s :
  cell_after d (wrap3 s) = wrap3 (add3 s (delta_triple d)).
Proof.
  destruct s as [[x y] z]. destruct d as [g|a b g]; unfold wrap3, add3; cbn.
  - rewrite !Z.add_0_r, wrap32_add_l. reflexivity.
  - rewrite !wrap32_add_l. reflexivity.
Qed.

Lemma total_app (w : Predictions * Groundtruths -> Z) l l' :
  total w (l ++ l') = total w l + total w l'.
Proof.
  unfold total. induction l as [|fr l IH]; cbn; [lia|]. rewrite IH. lia.
Qed.

Lemma total3_app w l l' : total3 w (l ++ l') = add3 (total3 w l) (total3 w l').
Proof.
  unfold total3. induction l as [|fr l IH]; cbn.
  - destruct (foldr _ _ l') as [[x y] z]. reflexivity.
  - rewrite IH. apply add3_assoc.
Qed.

Lemma sum_invariant_step ev0 seen ev fr ev' :
  sum_invariant ev0 seen ev -> update ev (fst fr) (snd fr) = Ok ev' ->
  sum_invariant ev0 (seen ++ [fr]) ev'.
Proof.
  intros (F & Hall) H.
  destruct (update_Ok _ _ _ _ H) as (F' & Hall').
  split; [eapply same_frame_trans; eassumption|].
  intros k Hk. destruct F as [Fn Fp Ft _].
  destruct (Hall k Hk) as (Hg & Hp & Hc).
  destruct (Hall' k) as (Hg' & Hp' & Hc'); [lia|].
  split; [|split].
  - rewrite Hg', Hg, wrap32_add_l. unfold total_gt_class.
    rewrite total_app. cbn. f_equal. unfold frame_gt_class. lia.
  - rewrite Hp', Hp, wrap32_add_l. unfold total_pd_class.
    rewrite total_app. cbn. f_equal. unfold frame_pd_class. lia.
  - intros p t Hpt. destruct (Hc' p t) as (d & Hd & Hcell); [congruence|].
    rewrite Hcell, (Hc p t Hpt), cell_after_wrap3, total3_app. do 2 f_equal.
    unfold total3. cbn [foldr]. unfold frame_delta.
    rewrite <- (frame_iou_binding_threshold ev0 ev) by exact Ft.
    rewrite Hd. destruct (delta_triple d) as [[x y] z].
    unfold add3. cbn. rewrite !Z.add_0_r. reflexivity.
Qed.

Lemma sum_invariant_run frames : forall ev0 seen ev ev',
  sum_invariant ev0 seen ev -> run ev frames = Ok ev' ->
  sum_invariant ev0 (seen ++ frames) ev'.
Proof.
  induction frames as [|fr frames IH]; intros ev0 seen ev ev' Hinv H.
  - injection H as <-. rewrite app_nil_r. exact Hinv.
  - apply run_cons in H. destruct H as (ev1 & H1 & H).
    replace (seen ++ fr :: frames) with ((seen ++ [fr]) ++ frames)
      by (rewrite <- app_assoc; reflexivity).
    eapply IH; [|exact H]. eapply sum_invariant_step; eassumption.
Qed.

Lemma sum_invariant_init n sp t :
  sum_invariant (Evaluator_init n sp t) [] (Evaluator_init n sp t).
Proof.
  split; [apply same_frame_refl|]. intros k Hk. cbn.
  rewrite entry_replicate_0. split; [reflexivity|]. split; [reflexivity|].
  intros p t' _. unfold cells. cbn. rewrite cell_replicate_0. reflexivity.
Qed.

Lemma total_Permutation (w : Predictions * Groundtruths -> Z) l l' :
  Permutation l l' -> total w l = total w l'.
Proof.
  unfold total. induction 1; cbn; lia.
Qed.

Lemma total3_Permutation w l l' :
  Permutation l l' -> total3 w l = total3 w l'.
Proof.
  unfold total3. induction 1 as [|x l l' _ IH|x y l|l l' l'' _ IH1 _ IH2]; cbn.
  - reflexivity.
  - rewrite IH. reflexivity.
  - rewrite !add3_assoc, (add3_comm (w y)). reflexivity.
  - congruence.
Qed.

Lemma vector_ext (C : nat) (a b : list Z) :
  length a = C -> length b = C ->
  (forall k, (k < C)%nat -> entry a k = entry b k) -> a = b.
Proof.
  intros Ha Hb H. apply list_eq. intros k.
  destruct (Nat.lt_ge_cases k C) as [Hk|Hk].
  - specialize (H k Hk). unfold entry in H.
    destruct (lookup_lt_is_Some_2 a k) as [x Hx]; [lia|].
    destruct (lookup_lt_is_Some_2 b k) as [y Hy]; [lia|].
    rewrite Hx, Hy in *. cbn in H. congruence.
  - rewrite !(proj2 (lookup_ge_None _ _)) by lia. reflexivity.
Qed.

Lemma matrix_ext (P C : nat) (A B : list (list Z)) :
  shape P C A -> shape P C B ->
  (forall p k, (p < P)%nat -> (k < C)%nat -> cell A p k = cell B p k) -> A = B.
Proof.
  intros [HA HAr] [HB HBr] H. apply list_eq. intros p.
  destruct (Nat.lt_ge_cases p P) as [Hp|Hp].
  - destruct (lookup_lt_is_Some_2 A p) as [ra Hra]; [lia|].
    destruct (lookup_lt_is_Some_2 B p) as [rb Hrb]; [lia|].
    rewrite Hra, Hrb. f_equal.
    apply (vector_ext C).
    + apply (proj1 (Forall_lookup _ _) HAr p ra Hra).
    + apply (proj1 (Forall_lookup _ _) HBr p rb Hrb).
    + intros k Hk. specialize (H p k Hp Hk). unfold cell in H.
      rewrite Hra, Hrb in H. exact H.
  - rewrite !(proj2 (lookup_ge_None _ _)) by lia. reflexivity.
Qed.

Lemma evaluator_ext (e1 e2 : Evaluator) :
  wf_ev e1 -> wf_ev e2 ->
  n_class e2 = n_class e1 -> patch e2 = patch e1 -> threshold e2 = threshold e1 ->
  (forall k, (k < n_class e1)%nat ->
     entry (gt_counts e1) k = entry (gt_counts e2) k /\
     entry (pd_counts e1) k = entry (pd_counts e2) k /\
     forall p, (p < length (patch e1))%nat -> cells e1 p k = cells e2 p k) ->
  e1 = e2.
Proof.
  intros W1 W2 Hn Hp Ht H.
  apply wf_ev_shapes in W1. apply wf_ev_shapes in W2.
  rewrite Hn, Hp in W2.
  destruct W1 as (T1 & F1 & N1 & G1 & D1), W2 as (T2 & F2 & N2 & G2 & D2).
  assert (TP e1 = TP e2) as ET.
  { apply (matrix_ext _ _ _ _ T1 T2). intros p k Hp' Hk.
    destruct (H k Hk) as (_ & _ & Hc). specialize (Hc p Hp').
    unfold cells in Hc. congruence. }
  assert (FP e1 = FP e2) as EF.
  { apply (matrix_ext _ _ _ _ F1 F2). intros p k Hp' Hk.
    destruct (H k Hk) as (_ & _ & Hc). specialize (Hc p Hp').
    unfold cells in Hc. congruence. }
  assert (FN e1 = FN e2) as EN.
  { apply (matrix_ext _ _ _ _ N1 N2). intros p k Hp' Hk.
    destruct (H k Hk) as (_ & _ & Hc). specialize (Hc p Hp').
    unfold cells in Hc. congruence. }
  assert (gt_counts e1 = gt_counts e2) as EG.
  { apply (vector_ext _ _ _ G1 G2). intros k Hk. apply (H k Hk). }
  assert (pd_counts e1 = pd_counts e2) as ED.
  { apply (vector_ext _ _ _ D1 D2). intros k Hk. apply (H k Hk). }
  destruct e1, e2. cbn in *. congruence.
Qed.

(** X8: the result of a sequence of [update] calls on a fresh evaluator does
    not depend on the order of the frames: two runs over permutations of one
    list of frames that both return leave equal evaluators, hence equal
    precision, recall and mAP. *)
Theorem run_order_independent (n sp : nat) (t : Q)
    (frames frames' : list (Predictions * Groundtruths)) (e1 e2 : Evaluator) :
  Permutation frames frames' ->
  run (Evaluator_init n sp t) frames = Ok e1 ->
  run (Evaluator_init n sp t) frames' = Ok e2 ->
  e1 = e2.
Proof.
  intros Hperm H1 H2.
  pose proof (sum_invariant_run _ _ _ _ _ (sum_invariant_init n sp t) H1)
    as ([Fn1 Fp1 Ft1 Fw1] & S1).
  pose proof (sum_invariant_run _ _ _ _ _ (sum_invariant_init n sp t) H2)
    as ([Fn2 Fp2 Ft2 Fw2] & S2).
  cbn [app] in S1, S2.
  apply evaluator_ext; try congruence.
  - apply Fw1, Evaluator_init_wf.
  - apply Fw2, Evaluator_init_wf.
  - intros k Hk. rewrite Fn1 in Hk.
    destruct (S1 k Hk) as (Hg1 & Hp1 & Hc1), (S2 k Hk) as (Hg2 & Hp2 & Hc2).
    split; [|split].
    + rewrite Hg1, Hg2. f_equal. apply total_Permutation, Hperm.
    + rewrite Hp1, Hp2. f_equal. apply total_Permutation, Hperm.
    + intros p Hp. rewrite Fp1 in Hp.
      destruct (lookup_lt_is_Some_2 _ _ Hp) as [t' Ht'].
      rewrite (Hc1 p t' Ht'), (Hc2 p t' Ht'). f_equal.
      apply total3_Permutation, Hperm.
Qed.

Lemma run_order_independent_witness :
  run (Evaluator_init 2 3 (1 # 2))
      [(example_pd, example_gt); (mixed_pd, mixed_gt)] = Ok two_frames_ev /\
  run (Evaluator_init 2 3 (1 # 2))
      [(mixed_pd, mixed_gt); (example_pd, example_gt)] = Ok two_frames_ev /\
  two_frames_ev = two_frames_ev.
Proof.
  assert (H1 : run (Evaluator_init 2 3 (1 # 2))
                 [(example_pd, example_gt); (mixed_pd, mixed_gt)]
               = Ok two_frames_ev) by (vm_compute; reflexivity).
  assert (H2 : run (Evaluator_init 2 3 (1 # 2))
                 [(mixed_pd, mixed_gt); (example_pd, example_gt)]
               = Ok two_frames_ev) by (vm_compute; reflexivity).
  split; [exact H1|]. split; [exact H2|].
  exact (run_order_independent 2 3 (1 # 2) _ _ _ _ (perm_swap _ _ _) H1 H2).
Defined.

Lemma selected_invariant_step n ts k p t ev s fr ev' :
  (k < n)%nat -> ts !! p = Some t ->
  wf_frame (fst fr) (snd fr) ->
  selected_invariant n ts k p t ev s -> update ev (fst fr) (snd fr) = Ok ev' ->
  selected_invariant n ts k p t ev' (s + frame_selected k t fr).
Proof.
  intros Hk Hp Hfr (Hn & Hts & Hs) H.
  destruct (update_Ok _ _ _ _ H) as ([Fn Fp _ _] & Hall).
  destruct (Hall k) as (_ & _ & Hcells); [lia|].
  destruct (Hcells p t) as (d & Hd & Hc); [congruence|].
  split; [congruence|]. split; [congruence|].
  destruct (patch_delta_counts _ _ _ _ _ _ Hfr Hd) as [H0 H1].
  fold (frame_selected k t fr) in H0, H1.
  unfold cells in Hc. unfold add32 in *.
  destruct (Z.eq_dec (frame_selected k t fr) 0) as [E|E].
  - rewrite (H0 E) in Hc. cbn in Hc. injection Hc as -> -> _.
    rewrite E, Z.add_0_r. exact Hs.
  - rewrite (H1 E) in Hc. cbn in Hc. injection Hc as -> -> _.
    rewrite wrap32_add_l, wrap32_add_r, <- (wrap32_add_l s), <- Hs, wrap32_add_l.
    f_equal. lia.
Qed.

(** X9: after any sequence of [update] calls on a fresh evaluator,
    [gt_counts[k]] and [pd_counts[k]] are the numbers of ground truths and of
    predictions of class [k] over all the frames, modulo 2^32, whatever the
    scores and the boxes. *)
Theorem run_counts (n sp : nat) (t : Q)
    (frames : list (Predictions * Groundtruths)) (ev : Evaluator) (k : nat) :
  run (Evaluator_init n sp t) frames = Ok ev -> (k < n)%nat ->
  entry (gt_counts ev) k = wrap32 (total_gt_class k frames) /\
  entry (pd_counts ev) k = wrap32 (total_pd_class k frames).
Proof.
  intros H Hk.
  pose proof (sum_invariant_run _ _ _ _ _ (sum_invariant_init n sp t) H)
    as (_ & S).
  destruct (S k Hk) as (Hg & Hp & _). split; assumption.
Qed.

Lemma run_counts_witness :
  entry (gt_counts two_frames_ev) 1 = 3 /\ entry (pd_counts two_frames_ev) 1 = 3.
Proof.
  apply (run_counts 2 3 (1 # 2)
           [(example_pd, example_gt); (mixed_pd, mixed_gt)] two_frames_ev 1).
  - vm_compute. reflexivity.
  - lia.
Defined.

(** X10: after any sequence of [update] calls on a fresh evaluator, on frames
    with consistent lengths, [TP[p][k] + FP[p][k]] (the denominator of the
    precision, a [uint32] sum) is the number of predictions of class [k]
    with a score of at least [patch[p]] over all the frames, modulo 2^32. *)
Theorem tp_fp_selected (n sp : nat) (t : Q)
    (frames : list (Predictions * Groundtruths)) (ev : Evaluator)
    (p k : nat) (s : Q) :
  Forall (fun fr => wf_frame (fst fr) (snd fr)) frames ->
  run (Evaluator_init n sp t) frames = Ok ev ->
  (k < n)%nat -> linspace01 sp !! p = Some s ->
  add32 (cell (TP ev) p k) (cell (FP ev) p k)
  = wrap32 (total (frame_selected k s) frames).
Proof.
  intros Hfr H Hk Hp.
  pose proof (run_total_ind (fun z fr => z + frame_selected k s fr)
                (fun fr => wf_frame (fst fr) (snd fr))
                (selected_invariant n (linspace01 sp) k p s)) as Hind.
  specialize (Hind (fun ev z fr ev' Hq =>
                      selected_invariant_step n _ k p s ev z fr ev' Hk Hp Hq)).
  specialize (Hind frames (Evaluator_init n sp t) 0 ev Hfr).
  rewrite fold_left_total in Hind.
  destruct Hind as (_ & _ & Hs); [|exact H|exact Hs].
  split; [reflexivity|]. split; [reflexivity|].
  cbn. rewrite !cell_replicate_0. reflexivity.
Qed.

Lemma tp_fp_selected_witness :
  add32 (cell (TP two_frames_ev) 1 1) (cell (FP two_frames_ev) 1 1) = 3.
Proof.
  apply (tp_fp_selected 2 3 (1 # 2)
           [(example_pd, example_gt); (mixed_pd, mixed_gt)] two_frames_ev
           1 1 (1 # 2)).
  - repeat constructor.
  - vm_compute. reflexivity.
  - lia.
  - reflexivity.
Defined.

Lemma mAP_loop_uniform (n : nat) (prs : list (fval * fval)) :
  forall (acc prev : fval) (nd : ndarray),
  nd = Scalar prev \/ nd = Array (replicate n prev) ->
  fst (fold_left mAP_step prs (replicate n acc, nd))
  = replicate n (fst (fold_left mAP_scalar_step prs (acc, prev))).
Proof.
  induction prs as [|[p r] prs IH]; intros acc prev nd Hnd; [reflexivity|].
  cbn [fold_left mAP_step mAP_scalar_step].
  rewrite <- (IH (fadd acc (fmul p (fsub r prev))) r (Scalar r))
    by (left; reflexivity).
  do 3 f_equal. destruct Hnd as [->| ->]; cbn.
  - apply (fmap_replicate (fun a => fadd a (fmul p (fsub r prev)))).
  - rewrite (fmap_replicate (fsub r)), (fmap_replicate (fmul p)).
    apply zip_with_replicate.
Qed.

(** X11: every entry of [mAP] holds one and the same number, whatever the
    counters: the loop runs over the classes, from the last to the first,
    and adds [precision[k] * (recall[k] - recall[k+1])] (with zero for the
    recall before the last class) to all the entries at once. *)
Theorem mAP_uniform (ev : Evaluator) :
  mAP ev = replicate (n_class ev)
             (mAP_scalar (zip (reverse (precision ev)) (reverse (recall ev)))).
Proof.
  unfold mAP, mAP_scalar. apply mAP_loop_uniform. right. reflexivity.
Qed.

Lemma sum_axis0_zeros (sp n : nat) :
  sum_axis0 n (replicate sp (replicate n 0%Q)) = replicate n 0%Q.
Proof.
  unfold sum_axis0. induction sp as [|sp IH]; [reflexivity|].
  cbn [replicate foldr]. rewrite IH, zip_with_replicate. reflexivity.
Qed.

Lemma mean_ratio_zeros (sp n : nat) :
  (0 < sp)%nat ->
  exists v, fzero v /\
    mean_axis0 n (map (map nan_to_num)
      (mat_zip ratio (replicate sp (replicate n 0))
         (mat_zip add32 (replicate sp (replicate n 0))
                        (replicate sp (replicate n 0)))))
    = replicate n v.
Proof.
  intros Hsp. unfold mat_zip. rewrite !zip_with_replicate.
  change (add32 0 0) with 0. change (ratio 0 0) with NaN.
  rewrite (fmap_replicate (map nan_to_num)), (fmap_replicate nan_to_num).
  cbn [nan_to_num]. unfold mean_axis0.
  rewrite sum_axis0_zeros, length_replicate, fmap_replicate.
  eexists. split; [|reflexivity].
  rewrite fdiv_num.
  - eexists. split; [reflexivity|]. unfold Qdiv. ring.
  - unfold Qeq. cbn. lia.
Qed.

Lemma fzero_step (acc prev p r : fval) :
  fzero acc -> fzero prev -> fzero p -> fzero r ->
  fzero (fadd acc (fmul p (fsub r prev))).
Proof.
  intros (a & -> & Ha) (b & -> & Hb) (c & -> & Hc) (d & -> & Hd). cbn.
  eexists. split; [reflexivity|]. rewrite Ha, Hb, Hc, Hd. ring.
Qed.

Lemma mAP_scalar_zeros (v : fval) (n : nat) :
  fzero v -> forall acc prev, fzero acc -> fzero prev ->
  fzero (fst (fold_left mAP_scalar_step (replicate n (v, v)) (acc, prev))).
Proof.
  intros Hv. induction n as [|n IH]; intros acc prev Ha Hp; [exact Ha|].
  cbn [replicate fold_left mAP_scalar_step]. apply IH; [|exact Hv].
  apply fzero_step; assumption.
Qed.

(** X12: a fresh evaluator with at least one score threshold reports zero,
    not nan, for every class: each ratio is 0/0 and [nan_to_num] turns it
    into zero before the mean; [mAP] is zero as well. *)
Theorem fresh_evaluator_zeros (n sp : nat) (t : Q) (v : fval) :
  (0 < sp)%nat ->
  v ∈ precision (Evaluator_init n sp t) ++ recall (Evaluator_init n sp t)
      ++ mAP (Evaluator_init n sp t) ->
  feq v (FNum 0).
Proof.
  intros Hsp Hv.
  destruct (mean_ratio_zeros sp n Hsp) as (z & Hz & E).
  assert (Hp : precision (Evaluator_init n sp t) = replicate n z) by exact E.
  assert (Hr : recall (Evaluator_init n sp t) = replicate n z) by exact E.
  assert (Hzv : forall w, fzero w -> feq w (FNum 0))
    by (intros w (q & -> & Hq); exact Hq).
  assert (Hm : mAP (Evaluator_init n sp t)
               = replicate n (mAP_scalar (zip (reverse (replicate n z))
                                              (reverse (replicate n z))))).
  { unfold mAP, mAP_scalar. rewrite Hp, Hr.
    apply mAP_loop_uniform. right. reflexivity. }
  rewrite Hm, Hp, Hr in Hv.
  rewrite !elem_of_app in Hv.
  destruct Hv as [Hv|[Hv|Hv]]; apply elem_of_replicate in Hv;
    destruct Hv as [-> _]; apply Hzv; try exact Hz.
  rewrite reverse_replicate, zip_with_replicate. unfold mAP_scalar.
  apply mAP_scalar_zeros; [exact Hz| |]; (eexists; split; [reflexivity|reflexivity]).
Qed.

Lemma fresh_evaluator_zeros_witness : feq (FNum (0 # 11)) (FNum 0).
Proof.
  apply (fresh_evaluator_zeros 2 11 (1 # 2) (FNum (0 # 11))); [lia|].
  vm_compute. left.
Defined.

Lemma main_frame_run results testset ev i :
  (i < length testset)%nat ->
  main_frame results testset ev i
  = run ev (option_list (main_frame_input results testset i)).
Proof.
  intros Hi. unfold main_frame, main_frame_input.
  destruct (lookup_lt_is_Some_2 testset i Hi) as [[boxes labels] Et].
  rewrite Et.
  destruct (results !! i) as [[detection|]|]; try reflexivity.
  destruct (length boxes =? 0)%nat; [reflexivity|].
  unfold run, option_list. cbn [option_rect for_loop]. unfold_bind.
  destruct (update _ _ _); reflexivity.
Qed.

Lemma omap_seq_S {A} (f : nat -> option A) (s n : nat) :
  omap f (seq s (S n)) = option_list (f s) ++ omap f (seq (S s) n).
Proof. cbn [seq omap list_omap]. destruct (f s); reflexivity. Qed.

Lemma main_loop_run results testset (n : nat) : forall (s : nat) (ev : Evaluator),
  (s + n <= length testset)%nat ->
  for_loop (main_frame results testset) ev (seq s n)
  = run ev (omap (main_frame_input results testset) (seq s n)).
Proof.
  induction n as [|n IH]; intros s ev Hs; [reflexivity|].
  rewrite omap_seq_S. unfold run at 1. rewrite for_loop_app.
  cbn [seq for_loop]. rewrite main_frame_run by lia. unfold run at 1.
  unfold_bind. destruct (for_loop _ ev _) as [ev1|e]; [|reflexivity].
  apply IH. lia.
Qed.

Lemma main_run results testset :
  main results testset
  = ev ← run (Evaluator_default 2) (main_frames results testset); main_report ev.
Proof.
  unfold main, main_frames. rewrite main_loop_run by lia. reflexivity.
Qed.

Lemma main_frames_wf results testset :
  Forall (fun fr => wf_frame (fst fr) (snd fr) /\ gt_bboxes (snd fr) <> [])
         (main_frames results testset).
Proof.
  unfold main_frames. apply Forall_forall. intros fr Hfr.
  apply list_elem_of_omap in Hfr. destruct Hfr as (i & _ & Hi).
  unfold main_frame_input in Hi.
  destruct (results !! i) as [[detection|]|]; try discriminate.
  destruct (testset !! i) as [[boxes labels]|]; try discriminate.
  destruct boxes as [|b boxes]; [discriminate|].
  cbn in Hi. injection Hi as <-. split; [|discriminate].
  split; unfold frame_scores; cbn; rewrite ?length_map; reflexivity.
Qed.

Lemma run_total frames : forall ev,
  wf_ev ev ->
  Forall (fun fr => wf_frame (fst fr) (snd fr) /\ gt_bboxes (snd fr) <> [])
         frames ->
  is_Ok (run ev frames).
Proof.
  induction frames as [|[pd gt] frames IH]; intros ev Hwf Hfr.
  - eexists. reflexivity.
  - apply Forall_cons in Hfr. destruct Hfr as [[Hf Hg] Hfr]. cbn in Hf, Hg.
    destruct (update_total ev pd gt Hwf Hf) as [ev1 H1]; [right; exact Hg|].
    unfold run. cbn [for_loop]. rewrite H1. unfold_bind.
    apply IH; [|exact Hfr].
    apply (sf_wf _ _ (proj1 (update_Ok _ _ _ _ H1))), Hwf.
Qed.

Lemma fmean_singleton (v : fval) : feq (fmean [v]) v.
Proof.
  destruct v as [q| | |]; try exact I.
  unfold fmean. cbn [foldr fadd length].
  rewrite fdiv_num by (unfold Qeq; cbn; lia).
  cbn [feq]. change (inject_Z (Z.of_nat 1)) with 1%Q. field.
Qed.

Lemma main_report_value (ev : Evaluator) :
  wf_ev ev -> n_class ev = 2%nat ->
  exists a0 a1 p0 p1 r0 r1,
    mAP ev = [a0; a1] /\ precision ev = [p0; p1] /\ recall ev = [r0; r1] /\
    main_report ev
    = Ok (fmean [a1], fmean [p1], fmean [r1],
          entry (gt_counts ev) 1, entry (pd_counts ev) 1).
Proof.
  intros Hwf Hn. unfold main_report, dump.
  pose proof (mAP_length ev) as La. pose proof (precision_length ev Hwf) as Lp.
  pose proof (recall_length ev Hwf) as Lr. rewrite Hn in La, Lp, Lr.
  pose proof (wf_gt_counts _ Hwf) as Lg. pose proof (wf_pd_counts _ Hwf) as Lc.
  rewrite Hn in Lg, Lc.
  destruct (mAP ev) as [|a0 [|a1 [|]]]; try discriminate.
  destruct (precision ev) as [|p0 [|p1 [|]]]; try discriminate.
  destruct (recall ev) as [|r0 [|r1 [|]]]; try discriminate.
  unfold entry.
  destruct (gt_counts ev) as [|g0 [|g1 [|]]] eqn:Eg; try discriminate.
  destruct (pd_counts ev) as [|c0 [|c1 [|]]] eqn:Ec; try discriminate.
  exists a0, a1, p0, p1, r0, r1. do 3 (split; [reflexivity|]).
  unfold enumerate. cbn [length seq zip zip_with for_loop report_class Nat.eqb].
  unfold_bind. unfold report_class. cbn [Nat.eqb]. rewrite Eg, Ec. reflexivity.
Qed.

Lemma total_pd_main_frames results testset (n : nat) : forall s : nat,
  total (frame_pd_class 1) (omap (main_frame_input results testset) (seq s n))
  = foldr (fun index acc => pd_counted results testset index + acc) 0 (seq s n).
Proof.
  induction n as [|n IH]; intros s; [reflexivity|].
  rewrite omap_seq_S, total_app, IH. cbn [seq foldr]. f_equal.
  unfold main_frame_input, pd_counted.
  destruct (results !! s) as [[detection|]|]; try reflexivity.
  destruct (testset !! s) as [[boxes labels]|]; try reflexivity.
  destruct (length boxes =? 0)%nat; [reflexivity|].
  unfold option_list, total, frame_pd_class.
  cbn [option_rect foldr fst pd_class_ids]. lia.
Qed.

Lemma main_evaluator results testset :
  exists ev,
    run (Evaluator_default 2) (main_frames results testset) = Ok ev /\
    wf_ev ev /\ n_class ev = 2%nat /\
    sum_invariant (Evaluator_default 2) (main_frames results testset) ev.
Proof.
  destruct (run_total (main_frames results testset) (Evaluator_default 2))
    as [ev H]; [apply Evaluator_init_wf|apply main_frames_wf|].
  exists ev. split; [exact H|].
  pose proof (sum_invariant_run _ _ _ _ _ (sum_invariant_init 2 11 (1 # 2)) H)
    as Hinv.
  split; [eapply run_wf; exact H|]. split; [|exact Hinv].
  apply (sf_n_class _ _ (proj1 Hinv)).
Qed.

(** X13: [main] returns, and the total prediction count it reports is the
    number, modulo 2^32, of the detection rows of class 1 in the result
    files that were read for a frame with ground truth: the detections of a
    frame without ground truth, and the detections of any other class, are
    not counted. *)
Theorem main_pd_total (results : list (option (list Detection)))
    (testset : list (list Box * list Z)) :
  exists r, main results testset = Ok r /\
            reported_pd_total r = wrap32 (pd_total_read results testset).
Proof.
  rewrite main_run.
  destruct (main_evaluator results testset) as (ev & H & Hwf & Hn & _ & Hsum).
  rewrite H. unfold_bind.
  destruct (main_report_value ev Hwf Hn)
    as (a0 & a1 & p0 & p1 & r0 & r1 & _ & _ & _ & Hr).
  rewrite Hr. eexists. split; [reflexivity|]. cbn.
  destruct (Hsum 1%nat) as (_ & Hp & _); [cbn; lia|].
  rewrite Hp. f_equal. apply total_pd_main_frames.
Qed.

Lemma for_loop_ext {S A} (f g : S -> A -> result S) (l : list A) :
  (forall s x, x ∈ l -> f s x = g s x) ->
  forall s, for_loop f s l = for_loop g s l.
Proof.
  induction l as [|x l IH]; intros H s; [reflexivity|].
  cbn [for_loop]. rewrite (H s x) by left. unfold_bind.
  destruct (g s x); [|reflexivity].
  apply IH. intros s' y Hy. apply H. right. exact Hy.
Qed.

(** X14: [main] reads neither the labels of the dataset (every ground-truth
    box is given class 1) nor the result files beyond the number of frames:
    its value is unchanged when the labels are dropped and the list of
    result files is cut at the length of the dataset. *)
Theorem main_reads (results : list (option (list Detection)))
    (testset : list (list Box * list Z)) :
  main results testset
  = main (take (length testset) results)
         (map (fun bl => (fst bl, [])) testset).
Proof.
  unfold main. rewrite length_map.
  rewrite (for_loop_ext (main_frame results testset)
             (main_frame (take (length testset) results)
                         (map (fun bl => (fst bl, [])) testset)));
    [reflexivity|].
  intros ev i Hi. apply elem_of_seq in Hi. unfold main_frame.
  rewrite lookup_take_lt by lia. rewrite list_lookup_fmap.
  destruct (results !! i) as [[detection|]|]; try reflexivity.
  destruct (testset !! i) as [[boxes labels]|]; reflexivity.
Qed.

Lemma run_tp_zero (k p : nat) (t : Q) frames : forall ev ev',
  Forall (fun fr => frame_gt_class k fr = 0) frames ->
  (k < n_class ev)%nat -> patch ev !! p = Some t ->
  cell (TP ev) p k = 0 -> run ev frames = Ok ev' ->
  cell (TP ev') p k = 0.
Proof.
  induction frames as [|fr frames IH]; intros ev ev' Hfr Hk Hp H0 H.
  - injection H as <-. exact H0.
  - apply Forall_cons in Hfr. destruct Hfr as [Hg Hfr].
    apply run_cons in H. destruct H as (ev1 & H1 & H).
    destruct (update_Ok _ _ _ _ H1) as ([Fn Fp _ _] & Hall).
    destruct (Hall k Hk) as (_ & _ & Hcells).
    destruct (Hcells p t Hp) as (d & Hd & Hc).
    apply patch_delta_balance in Hd. fold (frame_gt_class k fr) in Hd.
    rewrite Hg in Hd.
    apply (IH ev1 ev' Hfr); [congruence|congruence| |exact H].
    unfold cells in Hc. destruct d as [g|a b g]; cbn in Hc, Hd.
    + injection Hc as -> _ _. exact H0.
    + injection Hc as -> _ _. rewrite H0.
      replace a with 0 by lia. reflexivity.
Qed.

Lemma sum_axis0_column_zero (C : nat) (m : list (list Q)) (k : nat) :
  Forall (fun r => forall x, r !! k = Some x -> (x == 0)%Q) m ->
  forall s, sum_axis0 C m !! k = Some s -> (s == 0)%Q.
Proof.
  unfold sum_axis0. induction 1 as [|r m Hr _ IH]; intros s Hs; cbn [foldr] in Hs.
  - apply lookup_replicate in Hs. destruct Hs as [-> _]. reflexivity.
  - rewrite lookup_zip_with in Hs.
    destruct (r !! k) as [x|] eqn:Ex; [|discriminate]. cbn in Hs.
    destruct (foldr _ _ m !! k) as [y|] eqn:Ey; [|discriminate]. cbn in Hs.
    injection Hs as <-. rewrite (Hr x eq_refl), (IH y eq_refl). reflexivity.
Qed.

Lemma ratio_zero (b : Z) : (nan_to_num (ratio 0 b) == 0)%Q.
Proof.
  unfold ratio, fdiv. destruct (Qeq_bool (inject_Z b) 0).
  - replace (inject_Z 0 ?= 0)%Q with Eq by reflexivity. reflexivity.
  - cbn [nan_to_num]. unfold Qdiv. change (inject_Z 0) with 0%Q. ring.
Qed.

(** A class whose TP counters are all zero has a zero mean ratio. *)
Lemma column_zero_mean (P C : nat) (A B : list (list Z)) (k : nat) :
  (0 < P)%nat -> shape P C A -> shape P C B -> (k < C)%nat ->
  (forall p, (p < P)%nat -> cell A p k = 0) ->
  exists v, mean_axis0 C (ratio_matrix A B) !! k = Some v /\ fzero v.
Proof.
  intros HP HA HB Hk Hzero.
  destruct (ratio_matrix_shape P C A B HA HB) as [Hlen Hrows].
  pose proof (sum_axis0_length C _ Hrows) as Hsl.
  destruct (lookup_lt_is_Some_2 (sum_axis0 C (ratio_matrix A B)) k) as [s Hs];
    [lia|].
  unfold mean_axis0. rewrite list_lookup_fmap, Hs. cbn.
  eexists. split; [reflexivity|].
  assert (Hs0 : (s == 0)%Q).
  { apply (sum_axis0_column_zero C (ratio_matrix A B) k); [|exact Hs].
    apply Forall_lookup. intros p row Hrow x Hx.
    destruct (ratio_matrix_lookup A B p k row x Hrow Hx)
      as (ra & rb & a & b & Ea & Eb & Eka & Ekb & ->).
    pose proof (lookup_lt_Some _ _ _ Ea) as Hp. destruct HA as [HAl _].
    specialize (Hzero p ltac:(lia)).
    rewrite (cell_lookup A p k ra a Ea Eka) in Hzero. subst a.
    apply ratio_zero. }
  rewrite fdiv_num.
  - eexists. split; [reflexivity|]. rewrite Hs0. unfold Qdiv. ring.
  - rewrite Hlen. unfold Qeq. cbn. lia.
Qed.

(** X15: a class that has no ground truth in any frame has precision zero
    and recall zero (numbers, not nan), whatever is predicted for it: its
    TP counters stay zero and [nan_to_num] clears the 0/0 ratios. *)
Theorem class_without_groundtruth (n sp : nat) (t : Q)
    (frames : list (Predictions * Groundtruths)) (ev : Evaluator) (k : nat) :
  (0 < sp)%nat -> (k < n)%nat ->
  Forall (fun fr => frame_gt_class k fr = 0) frames ->
  run (Evaluator_init n sp t) frames = Ok ev ->
  exists p r, precision ev !! k = Some p /\ recall ev !! k = Some r /\
              feq p (FNum 0) /\ feq r (FNum 0).
Proof.
  intros Hsp Hk Hfr H.
  pose proof (run_wf _ _ _ _ _ H) as Hwf.
  destruct (run_same_frame _ _ _ H) as [Fn Fp _ _].
  cbn [n_class patch Evaluator_init] in Fn, Fp.
  apply wf_ev_shapes in Hwf. rewrite Fn, Fp, linspace01_length in Hwf.
  destruct Hwf as (HT & HP & HN & _).
  assert (Hzero : forall p, (p < sp)%nat -> cell (TP ev) p k = 0).
  { intros p Hp.
    destruct (lookup_lt_is_Some_2 (linspace01 sp) p) as [t' Ht'];
      [rewrite linspace01_length; exact Hp|].
    apply (run_tp_zero k p t' frames (Evaluator_init n sp t) ev Hfr);
      [exact Hk|exact Ht'| |exact H].
    cbn. apply cell_replicate_0. }
  destruct (column_zero_mean sp n (TP ev) (FP ev) k Hsp HT HP Hk Hzero)
    as (p & Ep & q & -> & Hq).
  destruct (column_zero_mean sp n (TP ev) (FN ev) k Hsp HT HN Hk Hzero)
    as (r & Er & q' & -> & Hq').
  exists (FNum q), (FNum q'). unfold precision, recall.
  fold (ratio_matrix (TP ev) (FP ev)). fold (ratio_matrix (TP ev) (FN ev)).
  rewrite Fn. auto.
Qed.

Lemma class_without_groundtruth_witness :
  exists p r, precision example_ev !! 0%nat = Some p /\
              recall example_ev !! 0%nat = Some r /\
              feq p (FNum 0) /\ feq r (FNum 0).
Proof.
  apply (class_without_groundtruth 2 3 (1 # 2) [(example_pd, example_gt)]).
  - lia.
  - lia.
  - repeat constructor.
  - exact example_run.
Defined.

Lemma mean_axis0_num (C : nat) (m : list (list Q)) (v : fval) :
  m <> [] -> v ∈ mean_axis0 C m -> exists q, v = FNum q.
Proof.
  intros Hne Hv. unfold mean_axis0 in Hv. apply list_elem_of_fmap in Hv.
  destruct Hv as (s & -> & _). rewrite fdiv_num; [eauto|].
  destruct m; [congruence|]. unfold Qeq. cbn. lia.
Qed.

Lemma main_frames_background results testset :
  Forall (fun fr => frame_gt_class 0 fr = 0) (main_frames results testset).
Proof.
  unfold main_frames. apply Forall_forall. intros fr Hfr.
  apply list_elem_of_omap in Hfr. destruct Hfr as (i & _ & Hi).
  unfold main_frame_input in Hi.
  destruct (results !! i) as [[detection|]|]; try discriminate.
  destruct (testset !! i) as [[boxes labels]|]; try discriminate.
  destruct (length boxes =? 0)%nat; [discriminate|].
  injection Hi as <-. unfold frame_gt_class. cbn [snd gt_class_ids].
  clear. unfold eq_mask. induction boxes as [|b boxes IH]; [reflexivity|].
  cbn [map np_sum]. rewrite IH. reflexivity.
Qed.

Lemma fmean_num (x : Q) : exists q, fmean [FNum x] = FNum q /\ (q == x)%Q.
Proof.
  pose proof (fmean_singleton (FNum x)) as H.
  destruct (fmean [FNum x]) as [q| | |]; try contradiction.
  exists q. split; [reflexivity|exact H].
Qed.

Lemma class_zero_entries results testset ev :
  run (Evaluator_default 2) (main_frames results testset) = Ok ev ->
  exists q0 q0',
    precision ev !! 0%nat = Some (FNum q0) /\
    recall ev !! 0%nat = Some (FNum q0') /\ (q0 == 0)%Q /\ (q0' == 0)%Q.
Proof.
  intros H.
  pose proof (run_wf _ _ _ _ _ H) as Hwf.
  destruct (run_same_frame _ _ _ H) as [Fn Fp _ _].
  cbn [n_class patch Evaluator_default Evaluator_init] in Fn, Fp.
  apply wf_ev_shapes in Hwf. rewrite Fn, Fp, linspace01_length in Hwf.
  destruct Hwf as (HT & HP & HN & _).
  assert (Hzero : forall p, (p < 11)%nat -> cell (TP ev) p 0 = 0).
  { intros p Hp.
    destruct (lookup_lt_is_Some_2 (linspace01 11) p) as [t' Ht'];
      [rewrite linspace01_length; exact Hp|].
    apply (run_tp_zero 0 p t' _ (Evaluator_default 2) ev
             (main_frames_background results testset));
      [cbn; lia|exact Ht'| |exact H].
    apply (cell_replicate_0 11 2). }
  destruct (column_zero_mean 11 2 (TP ev) (FP ev) 0 ltac:(lia) HT HP ltac:(lia) Hzero)
    as (p & Ep & q & -> & Hq).
  destruct (column_zero_mean 11 2 (TP ev) (FN ev) 0 ltac:(lia) HT HN ltac:(lia) Hzero)
    as (r & Er & q' & -> & Hq').
  exists q, q'. unfold precision, recall.
  fold (ratio_matrix (TP ev) (FP ev)). fold (ratio_matrix (TP ev) (FN ev)).
  rewrite Fn. auto.
Qed.

(** The value of [main], from the evaluator left by the loop over the
    frames: the entries of class 1, and their product for the mAP. *)
Lemma main_value (results : list (option (list Detection)))
    (testset : list (list Box * list Z)) :
  exists ev x y x' y' z g c,
    run (Evaluator_default 2) (main_frames results testset) = Ok ev /\
    precision ev !! 1%nat = Some (FNum x) /\
    recall ev !! 1%nat = Some (FNum y) /\
    main results testset = Ok (FNum z, FNum x', FNum y', g, c) /\
    (x' == x)%Q /\ (y' == y)%Q /\ (z == x * y)%Q.
Proof.
  rewrite main_run.
  destruct (main_evaluator results testset) as (ev & H & Hwf & Hn & _).
  rewrite H. unfold_bind.
  destruct (main_report_value ev Hwf Hn)
    as (a0 & a1 & p0 & p1 & r0 & r1 & Ha & Hp & Hr & Hrep).
  rewrite Hrep.
  (* class 0 has no ground truth *)
  destruct (class_zero_entries results testset ev H)
    as (q0 & q0' & Ep0 & Er0 & Hq0 & Hq0').
  rewrite Hp in Ep0. rewrite Hr in Er0. cbn in Ep0, Er0.
  assert (p0 = FNum q0) by congruence. assert (r0 = FNum q0') by congruence.
  subst p0 r0. clear Ep0 Er0.
  (* the entries of class 1 are numbers *)
  assert (Hne : forall B, shape 11 2 (TP ev) -> shape 11 2 B ->
                           ratio_matrix (TP ev) B <> []).
  { intros B HA HB E.
    destruct (ratio_matrix_shape 11 2 (TP ev) B HA HB) as [Hl _].
    rewrite E in Hl. discriminate. }
  destruct (run_same_frame _ _ _ H) as [_ Fp _ _].
  cbn [patch Evaluator_default Evaluator_init] in Fp.
  pose proof Hwf as Hsh. apply wf_ev_shapes in Hsh.
  rewrite Hn, Fp, linspace01_length in Hsh.
  destruct Hsh as (HT & HP & HN & _).
  destruct (mean_axis0_num (n_class ev) (ratio_matrix (TP ev) (FP ev)) p1
              (Hne _ HT HP)) as [x ->].
  { change (p1 ∈ precision ev). rewrite Hp. right. left. }
  destruct (mean_axis0_num (n_class ev) (ratio_matrix (TP ev) (FN ev)) r1
              (Hne _ HT HN)) as [y ->].
  { change (r1 ∈ recall ev). rewrite Hr. right. left. }
  pose proof (mAP_two_classes ev _ _ _ _ Hn Hp Hr) as Hm. cbn zeta in Hm.
  rewrite Ha in Hm. injection Hm as _ ->.
  destruct (fmean_num x) as (x' & -> & Hx).
  destruct (fmean_num y) as (y' & -> & Hy).
  cbn [fadd fmul fsub fneg].
  destruct (fmean_num (0 + x * (y + - 0) + q0 * (q0' + - y))) as (z & -> & Hz).
  exists ev, x, y, x', y', z, (entry (gt_counts ev) 1), (entry (pd_counts ev) 1).
  split; [reflexivity|]. rewrite Hp, Hr.
  do 3 (split; [reflexivity|]). split; [exact Hx|]. split; [exact Hy|].
  rewrite Hz, Hq0. ring.
Qed.


Lemma run_mean_ratio_range (n sp : nat) (t : Q)
    (frames : list (Predictions * Groundtruths)) (ev : Evaluator) :
  (0 < t)%Q -> (0 < sp)%nat ->
  Forall (fun fr => wf_frame (fst fr) (snd fr)) frames ->
  total_pd frames < 2 ^ 32 -> total_gt frames < 2 ^ 32 ->
  run (Evaluator_init n sp t) frames = Ok ev ->
  Forall (fun v => exists q, v = FNum q /\ unit_interval q) (precision ev) /\
  Forall (fun v => exists q, v = FNum q /\ unit_interval q) (recall ev).
Proof.
  intros Ht Hsp Hfr Hpd Hgt H.
  destruct (range_invariant_run n sp t frames ev Ht Hfr H)
    as (Hn & Hts & _ & Hinv).
  specialize (Hinv Hpd Hgt).
  pose proof (run_wf _ _ _ _ _ H) as Hwf. apply wf_ev_shapes in Hwf.
  rewrite Hn, Hts, linspace01_length in Hwf.
  destruct Hwf as (HT & HP & HN & _).
  assert (Hcell : forall p k, (p < sp)%nat -> (k < n)%nat ->
            0 <= cell (TP ev) p k /\ 0 <= cell (FP ev) p k /\
            0 <= cell (FN ev) p k /\
            cell (TP ev) p k + cell (FP ev) p k < 2 ^ 32 /\
            cell (TP ev) p k + cell (FN ev) p k < 2 ^ 32).
  { intros p k Hp Hk.
    destruct (lookup_lt_is_Some_2 (linspace01 sp) p) as [t' Ht'];
      [rewrite linspace01_length; exact Hp|].
    specialize (Hinv p t' k Ht' Hk). cbn [fst snd] in Hinv. lia. }
  destruct (mean_ratio_range sp n (TP ev) (FP ev) Hsp HT HP) as [_ Fp].
  { intros p k Hp Hk. specialize (Hcell p k Hp Hk). lia. }
  destruct (mean_ratio_range sp n (TP ev) (FN ev) Hsp HT HN) as [_ Fr].
  { intros p k Hp Hk. specialize (Hcell p k Hp Hk). lia. }
  unfold precision, recall. fold (ratio_matrix (TP ev) (FP ev)).
  fold (ratio_matrix (TP ev) (FN ev)). rewrite Hn. split; assumption.
Qed.

(** X17: when the frames that reach [update] hold fewer than 2^32 detections
    and fewer than 2^32 ground-truth boxes in total, the precision, the
    recall and the mAP that [main] returns are numbers in [0,1]. *)
Theorem main_metrics_range (results : list (option (list Detection)))
    (testset : list (list Box * list Z)) :
  total_pd (main_frames results testset) < 2 ^ 32 ->
  total_gt (main_frames results testset) < 2 ^ 32 ->
  exists r a p q,
    main results testset = Ok r /\
    reported_mAP r = FNum a /\ reported_precision r = FNum p /\
    reported_recall r = FNum q /\
    (0 <= a <= 1)%Q /\ (0 <= p <= 1)%Q /\ (0 <= q <= 1)%Q.
Proof.
  intros Hpd Hgt.
  destruct (main_value results testset)
    as (ev & x & y & x' & y' & z & g & c & H & Ex & Ey & Hm & Hx & Hy & Hz).
  destruct (run_mean_ratio_range 2 11 (1 # 2) (main_frames results testset) ev)
    as [Fp Fr];
    [reflexivity|lia| |exact Hpd|exact Hgt|exact H|].
  { eapply Forall_impl; [apply main_frames_wf|]. intros fr [Hf _]. exact Hf. }
  eapply Forall_lookup_1 in Fp; [|exact Ex].
  eapply Forall_lookup_1 in Fr; [|exact Ey].
  destruct Fp as (x0 & E0 & Hx0), Fr as (y0 & E1 & Hy0).
  injection E0 as <-. injection E1 as <-.
  unfold unit_interval in Hx0, Hy0.
  exists (FNum z, FNum x', FNum y', g, c), z, x', y'.
  split; [exact Hm|]. do 3 (split; [reflexivity|]).
  rewrite Hz, Hx, Hy. split; [nra|]. split; lra.
Qed.

Lemma main_metrics_range_witness :
  exists r a p q,
    main one_result one_testset = Ok r /\
    reported_mAP r = FNum a /\ reported_precision r = FNum p /\
    reported_recall r = FNum q /\
    (0 <= a <= 1)%Q /\ (0 <= p <= 1)%Q /\ (0 <= q <= 1)%Q.
Proof.
  apply (main_metrics_range one_result one_testset); reflexivity.
Defined.

Lemma linspace01_range (sp p : nat) (t : Q) :
  linspace01 sp !! p = Some t -> (0 <= t <= 1)%Q.
Proof.
  destruct sp as [|[|sp]]; [discriminate| |].
  - destruct p; [|discriminate]. intros H. injection H as <-. lra.
  - unfold linspace01. rewrite list_lookup_fmap. intros H.
    destruct (seq 0 (S (S sp)) !! p) as [i|] eqn:E; [|discriminate].
    injection H as <-. apply lookup_seq in E. destruct E as [-> Hp].
    unfold Qle. cbn [Qnum Qden]. split; [lia|].
    replace (S (S sp) - 1)%nat with (S sp) by lia.
    rewrite Z.mul_1_r, Z.mul_1_l.
    assert (H : Z.pos (Pos.of_nat (S sp)) = Z.of_nat (S sp)).
    { rewrite <- positive_nat_Z, Nat2Pos.id by lia. reflexivity. }
    lia.
Qed.

Lemma ge_mask_ones {A} (ids : list A) (t : Q) :
  (t <= 1)%Q -> ge_mask (map (fun _ => 1%Q) ids) t = map (fun _ => true) ids.
Proof.
  intros Ht. unfold ge_mask. rewrite map_map. apply map_ext. intros _.
  apply Qle_bool_iff. exact Ht.
Qed.

Lemma frame_delta_unscored ev0 k t t' fr :
  pd_scores (fst fr) = None -> (t <= 1)%Q -> (t' <= 1)%Q ->
  frame_delta ev0 k t fr = frame_delta ev0 k t' fr.
Proof.
  intros Hs Ht Ht'. unfold frame_delta, patch_delta, frame_scores.
  rewrite Hs, !ge_mask_ones by assumption. reflexivity.
Qed.

Lemma total3_ext w w' frames :
  Forall (fun fr => w fr = w' fr) frames -> total3 w frames = total3 w' frames.
Proof.
  unfold total3. induction 1 as [|fr frames H _ IH]; [reflexivity|].
  cbn [foldr]. rewrite H, IH. reflexivity.
Qed.

(** X23: when no frame carries scores ([pd_scores] is [None], read as a
    score of one for every prediction), the counters do not depend on the
    score threshold: TP, FP and FN hold the same three numbers in every row
    [p], so precision and recall are those of any single threshold. *)
Theorem unscored_thresholds (n sp : nat) (t : Q)
    (frames : list (Predictions * Groundtruths)) (ev : Evaluator)
    (p p' k : nat) :
  Forall (fun fr => pd_scores (fst fr) = None) frames ->
  run (Evaluator_init n sp t) frames = Ok ev ->
  (p < sp)%nat -> (p' < sp)%nat -> (k < n)%nat ->
  cells ev p k = cells ev p' k.
Proof.
  intros Hfr H Hp Hp' Hk.
  pose proof (sum_invariant_run _ _ _ _ _ (sum_invariant_init n sp t) H)
    as (_ & S).
  destruct (S k Hk) as (_ & _ & Hc). cbn [app patch Evaluator_init] in Hc.
  destruct (lookup_lt_is_Some_2 (linspace01 sp) p) as [s Hs];
    [rewrite linspace01_length; exact Hp|].
  destruct (lookup_lt_is_Some_2 (linspace01 sp) p') as [s' Hs'];
    [rewrite linspace01_length; exact Hp'|].
  rewrite (Hc p s Hs), (Hc p' s' Hs'). f_equal.
  apply total3_ext. eapply Forall_impl; [exact Hfr|].
  intros fr Hnone. apply frame_delta_unscored; [exact Hnone| |].
  - apply (linspace01_range sp p s Hs).
  - apply (linspace01_range sp p' s' Hs').
Qed.

Lemma unscored_thresholds_witness :
  cells mixed_ev 0 1 = cells mixed_ev 10 1.
Proof.
  apply (unscored_thresholds 2 11 (1 # 2) [(mixed_pd, mixed_gt)]).
  - repeat constructor.
  - vm_compute. reflexivity.
  - lia.
  - lia.
  - lia.
Defined.

End EvaluateFacts.
